(** * ChatGateway: presence, delivery lifecycle, typing and chunked uploads

    A shallow embedding of [ChatGateway] (the websocket gateway of the chat
    server) together with the [PrivateMessage] and [User] schemas.  Every handler
    of the class is a function from the gateway state to a new state and the
    list of transport actions it performs, in program order.

    Conventions of the embedding:
    - a handler runs from its first statement to its last without another
      handler running in between; the one handler whose [await] points are
      kept apart is [handleUploadChunk], which is given in two parts, before
      and after its first [await], and whose whole is the second part run
      right after the first;
    - the Mongoose collections and the upload directory are in-memory values;
      the server is reachable, so that a [save] fails only in the validation
      of the schema and an update or a query does not fail; whether a file is
      written is for the platform to say;
    - a number of a payload is an integer;
    - [Date.now()], [new Date()] and [Math.random()] are read from the
      inbound event ([Env]);
    - [console.log] / [console.error] are not recorded. *)

From Stdlib Require Import ZArith String Ascii List.
From stdpp Require Import base option list gmap strings pretty sorting fin_maps.

Open Scope string_scope.
Open Scope list_scope.
Open Scope Z_scope.

(** ** Library functions the gateway calls *)

(** What Node and MongoDB compute and the repository does not define. *)
Class Platform := {
  (** [Buffer.from(text, 'base64')]: never throws on a string. *)
  base64_decode : string → list Byte.byte;
  (** [{ $regex: q, $options: 'i' }]: [None] when the server rejects [q]. *)
  regex_i : string → option (string → bool);
  (** [fs.promises.writeFile(path.join(uploadDir, name), data)]: [false]
      when the promise is rejected (a name longer than the file system
      takes, a full disk, ...). *)
  fs_writeFile : string → list Byte.byte → bool;
}.

(** ** JavaScript values *)

Definition Buffer := list Byte.byte.

(** Truthiness of a string: only the empty string is falsy. *)
Definition truthy (s : string) : bool := negb (String.eqb s "").

(** [Map<K,V>] with its insertion order, which [entries()] exposes. *)
Abbreviation JsMap K V := (list (K * V)) (only parsing).

Fixpoint Map_set {V} (k : string) (v : V) (m : JsMap string V) : JsMap string V :=
  match m with
  | [] => [(k, v)]
  | (k', v') :: m' =>
      if String.eqb k' k then (k', v) :: m' else (k', v') :: Map_set k v m'
  end.

Definition Map_get {V} (k : string) (m : JsMap string V) : option V :=
  snd <$> List.find (λ kv, String.eqb (fst kv) k) m.

Definition Map_delete {V} (k : string) (m : JsMap string V) : JsMap string V :=
  List.filter (λ kv, negb (String.eqb (fst kv) k)) m.

(** [Array.from(m.entries()).find(([_, v]) => v === x)?.[0]] *)
Definition find_key_of_value (x : string) (m : JsMap string string) : option string :=
  fst <$> List.find (λ kv, String.eqb (snd kv) x) m.

(** An array with holes: [None] is a hole, the list length is [length]. *)
Abbreviation JsArray A := (list (option A)) (only parsing).

(** The array indices are the integers from 0 to 2^32 - 2; every other key
    of an array object is an ordinary property. *)
Definition array_index (i : Z) : Prop := 0 ≤ i < 4294967295.

(** [a[i] = v], the elements.  An array index past the end extends the array
    with holes; any other [i] defines an ordinary property, which neither
    [length], [filter] nor [Buffer.concat] sees, and leaves the elements as
    they are. *)
Definition array_assign {A} (a : JsArray A) (i : Z) (v : A) : JsArray A :=
  if decide (array_index i) then
    let n := Z.to_nat i in
    if decide (n < length a)%nat then <[n := Some v]> a
    else a ++ replicate (n - length a) None ++ [Some v]
  else a.

(** [a[i] = v], the ordinary properties of the array object, by key. *)
Definition property_assign {A} (ps : gmap Z A) (i : Z) (v : A) : gmap Z A :=
  if decide (array_index i) then ps else <[i := v]> ps.

(** [a[i]]: the element when [i] is an array index, the property otherwise;
    [None] is [undefined]. *)
Definition array_get {A} (a : JsArray A) (ps : gmap Z A) (i : Z) : option A :=
  if decide (array_index i) then a !! Z.to_nat i ≫= Datatypes.id else ps !! i.

(** [a.filter(Boolean)] on an array of buffers: holes are skipped and every
    buffer object is truthy. *)
Definition filter_Boolean (a : JsArray Buffer) : list Buffer := omap id a.

Inductive Exn :=
| Error (message : string)
| TypeError
| ValidationError
| SystemError.

(** [Buffer.concat(a)]: reading [a[i].length] at a hole throws. *)
Definition Buffer_concat (a : JsArray Buffer) : Exn + Buffer :=
  match mapM id a with
  | Some bs => inr (concat bs)
  | None => inl TypeError
  end.

(** [s.split(',')] *)
Fixpoint split (sep : ascii) (s : string) : list string :=
  match s with
  | EmptyString => [EmptyString]
  | String c s' =>
      if Ascii.eqb c sep then EmptyString :: split sep s'
      else match split sep s' with
           | w :: ws => String c w :: ws
           | [] => [String c EmptyString]
           end
  end.

(** [Buffer.from(chunk.split(',')[1], 'base64')]: with no comma in [chunk]
    the argument is [undefined] and [Buffer.from] throws. *)
Definition decode_chunk `{Platform} (chunk : string) : Exn + Buffer :=
  match split "," chunk !! 1%nat with
  | Some text => inr (base64_decode text)
  | None => inl TypeError
  end.

Definition in_range (lo hi c : ascii) : bool :=
  (nat_of_ascii lo <=? nat_of_ascii c)%nat && (nat_of_ascii c <=? nat_of_ascii hi)%nat.

(** The character class [[a-zA-Z0-9.-]]. *)
Definition safe_char (c : ascii) : bool :=
  in_range "a" "z" c || in_range "A" "Z" c || in_range "0" "9" c
  || Ascii.eqb c "." || Ascii.eqb c "-".

(** [name.replace(/[^a-zA-Z0-9.-]/g, '_')] *)
Fixpoint sanitize (name : string) : string :=
  match name with
  | EmptyString => EmptyString
  | String c s => String (if safe_char c then c else "_"%char) (sanitize s)
  end.

(** ** Schemas *)

Record Reaction := {
  userId : string;
  emoji : string;
  reaction_timestamp : Z;
}.

(** [PrivateMessage] with the document's [_id]. *)
Record PrivateMessage := {
  _id : nat;
  sender : string;
  receiver : string;
  content : string;
  isRead : bool;
  isDelivered : bool;
  timestamp : Z;
  deliveredAt : Z;
  readAt : option Z;
  fileUrl : option string;
  fileName : option string;
  fileType : option string;
  fileSize : option Z;
  isVoiceMessage : bool;
  duration : option Z;
  reactions : list Reaction;
  likes : list string;
  dislikes : list string;
}.

(** The room [Message] schema lives in a file of its own; these are the
    fields the gateway writes. *)
Record Message := {
  msg_id : nat;
  msg_sender : string;
  msg_content : string;
  msg_room : string;
}.

(** A [User] document as stored: a list of fields, so that a projection can
    drop one. *)
Inductive Value :=
| VString (s : string)
| VBool (b : bool)
| VDate (t : Z)
| VNull.

Definition Doc := list (string * Value).

Definition doc_get (k : string) (d : Doc) : option Value :=
  snd <$> List.find (λ kv, String.eqb (fst kv) k) d.

Fixpoint doc_set (k : string) (v : Value) (d : Doc) : Doc :=
  match d with
  | [] => [(k, v)]
  | (k', v') :: d' =>
      if String.eqb k' k then (k', v) :: d' else (k', v') :: doc_set k v d'
  end.

Definition has_field (k : string) (d : Doc) : bool :=
  existsb (λ kv, String.eqb (fst kv) k) d.

(** The exclusion projection [{ k: 0 }]. *)
Definition project_out (k : string) (d : Doc) : Doc :=
  List.filter (λ kv, negb (String.eqb (fst kv) k)) d.

(** ** Gateway state *)

(** An entry of [tempUploads].  The array object [chunks] is held as its
    elements ([chunks]) and its ordinary properties ([chunk_properties]). *)
Record Upload := {
  chunks : JsArray Buffer;
  chunk_properties : gmap Z Buffer;
  totalChunks : Z;
}.

(** The three private maps of the class, followed by what its collaborators
    hold: the three collections, the ObjectId generator and the files below
    [uploadDir]. *)
Record State := {
  connectedUsers : JsMap string string;
  typingUsers : gmap string (gset string);
  tempUploads : gmap string Upload;
  userModel : list Doc;
  messageModel : list Message;
  privateMessageModel : list PrivateMessage;
  nextObjectId : nat;
  uploadDir : gmap string Buffer;
}.

Definition initial (users : list Doc) : State :=
  {| connectedUsers := []; typingUsers := ∅; tempUploads := ∅;
     userModel := users; messageModel := []; privateMessageModel := [];
     nextObjectId := 0; uploadDir := ∅ |}.

Definition with_connectedUsers (v : JsMap string string) (st : State) : State :=
  {| connectedUsers := v; typingUsers := typingUsers st;
     tempUploads := tempUploads st; userModel := userModel st;
     messageModel := messageModel st;
     privateMessageModel := privateMessageModel st;
     nextObjectId := nextObjectId st; uploadDir := uploadDir st |}.

Definition with_typingUsers (v : gmap string (gset string)) (st : State) : State :=
  {| connectedUsers := connectedUsers st; typingUsers := v;
     tempUploads := tempUploads st; userModel := userModel st;
     messageModel := messageModel st;
     privateMessageModel := privateMessageModel st;
     nextObjectId := nextObjectId st; uploadDir := uploadDir st |}.

Definition with_tempUploads (v : gmap string Upload) (st : State) : State :=
  {| connectedUsers := connectedUsers st; typingUsers := typingUsers st;
     tempUploads := v; userModel := userModel st;
     messageModel := messageModel st;
     privateMessageModel := privateMessageModel st;
     nextObjectId := nextObjectId st; uploadDir := uploadDir st |}.

Definition with_userModel (v : list Doc) (st : State) : State :=
  {| connectedUsers := connectedUsers st; typingUsers := typingUsers st;
     tempUploads := tempUploads st; userModel := v;
     messageModel := messageModel st;
     privateMessageModel := privateMessageModel st;
     nextObjectId := nextObjectId st; uploadDir := uploadDir st |}.

Definition with_messageModel (v : list Message) (st : State) : State :=
  {| connectedUsers := connectedUsers st; typingUsers := typingUsers st;
     tempUploads := tempUploads st; userModel := userModel st;
     messageModel := v;
     privateMessageModel := privateMessageModel st;
     nextObjectId := nextObjectId st; uploadDir := uploadDir st |}.

Definition with_privateMessageModel (v : list PrivateMessage) (st : State) : State :=
  {| connectedUsers := connectedUsers st; typingUsers := typingUsers st;
     tempUploads := tempUploads st; userModel := userModel st;
     messageModel := messageModel st;
     privateMessageModel := v;
     nextObjectId := nextObjectId st; uploadDir := uploadDir st |}.

Definition with_nextObjectId (v : nat) (st : State) : State :=
  {| connectedUsers := connectedUsers st; typingUsers := typingUsers st;
     tempUploads := tempUploads st; userModel := userModel st;
     messageModel := messageModel st;
     privateMessageModel := privateMessageModel st;
     nextObjectId := v; uploadDir := uploadDir st |}.

Definition with_uploadDir (v : gmap string Buffer) (st : State) : State :=
  {| connectedUsers := connectedUsers st; typingUsers := typingUsers st;
     tempUploads := tempUploads st; userModel := userModel st;
     messageModel := messageModel st;
     privateMessageModel := privateMessageModel st;
     nextObjectId := nextObjectId st; uploadDir := v |}.

(** ** Inbound events and transport actions *)

(** [client.id] and [client.data.user.username]. *)
Record Socket := {
  id : string;
  username : string;
}.

(** The clock and the random suffix read while an event is handled. *)
Record Env := {
  now : Z;
  random_tail : string;
}.

Record UploadChunkPayload := {
  p_uploadId : string;
  p_chunk : string;
  p_chunkIndex : Z;
  p_receiver : string;
  p_fileName : string;
  p_fileType : string;
  p_fileSize : Z;
}.

Inductive Event :=
| connection
| disconnect
| joinRoom (room : string)
| leaveRoom (room : string)
| sendMessage (room content : string)
| sendPrivateMessage (receiver content : string)
| markMessageAsRead (messageId : nat)
| getPrivateMessages (otherUser : string)
| searchUsers (query : string)
| typing (receiver : string)
| stopTyping (receiver : string)
| startFileUpload (totalChunks : Z)
| uploadChunk (payload : UploadChunkPayload)
| cancelUpload (uploadId : string).

Inductive OutEvent :=
| userList (users : list Doc)
| newMessage (message : Message)
| newPrivateMessage (message : PrivateMessage)
| messageDelivered (messageId : nat)
| messageRead (messageId : nat) (readAt : option Z)
| privateMessages (messages : list PrivateMessage)
| searchResults (users : list Doc)
| userTyping (username : string)
| userStoppedTyping (username : string)
| uploadStarted (uploadId : string)
| chunkReceived (uploadId : string) (chunkIndex : Z)
| uploadError (message : string) (uploadId : option string)
| uploadCancelled (uploadId : string).

Inductive Action :=
| client_emit (socket : string) (e : OutEvent)
| server_to_emit (room : string) (e : OutEvent)
| server_emit (e : OutEvent)
| client_join (socket room : string)
| client_leave (socket room : string).

(** ** Collections *)

(** [new this.privateMessageModel({...})] fills the schema defaults. *)
Definition new_PrivateMessage (oid : nat) (t : Z) (from to text : string)
    (url name type : option string) (size : option Z) : PrivateMessage :=
  {| _id := oid; sender := from; receiver := to; content := text;
     isRead := false; isDelivered := false; timestamp := t;
     deliveredAt := t; readAt := None;
     fileUrl := url; fileName := name; fileType := type; fileSize := size;
     isVoiceMessage := false; duration := None;
     reactions := []; likes := []; dislikes := [] |}.

(** [message.isDelivered = true; message.deliveredAt = new Date()] *)
Definition set_delivered (t : Z) (m : PrivateMessage) : PrivateMessage :=
  {| _id := _id m; sender := sender m; receiver := receiver m;
     content := content m; isRead := isRead m; isDelivered := true;
     timestamp := timestamp m; deliveredAt := t; readAt := readAt m;
     fileUrl := fileUrl m; fileName := fileName m; fileType := fileType m;
     fileSize := fileSize m; isVoiceMessage := isVoiceMessage m;
     duration := duration m; reactions := reactions m; likes := likes m;
     dislikes := dislikes m |}.

(** [message.isRead = true; message.readAt = new Date()] *)
Definition set_read (t : Z) (m : PrivateMessage) : PrivateMessage :=
  {| _id := _id m; sender := sender m; receiver := receiver m;
     content := content m; isRead := true; isDelivered := isDelivered m;
     timestamp := timestamp m; deliveredAt := deliveredAt m;
     readAt := Some t;
     fileUrl := fileUrl m; fileName := fileName m; fileType := fileType m;
     fileSize := fileSize m; isVoiceMessage := isVoiceMessage m;
     duration := duration m; reactions := reactions m; likes := likes m;
     dislikes := dislikes m |}.

(** The validation that [save] runs first: the schema requires [sender],
    [receiver] and [content], and a required string is not to be empty.
    When it fails, [save] rejects and nothing is written. *)
Definition validate (m : PrivateMessage) : bool :=
  truthy (sender m) && truthy (receiver m) && truthy (content m).

(** [message.save()], once validated: the document replaces the stored one
    with its [_id], or is inserted. *)
Fixpoint save (m : PrivateMessage) (coll : list PrivateMessage) : list PrivateMessage :=
  match coll with
  | [] => [m]
  | m' :: coll' =>
      if Nat.eqb (_id m') (_id m) then m :: coll' else m' :: save m coll'
  end.

Definition findById (oid : nat) (coll : list PrivateMessage) : option PrivateMessage :=
  List.find (λ m, Nat.eqb (_id m) oid) coll.

(** [updateMany({ _id: { $in: ids } }, { $set: ... })] *)
Definition updateMany (ids : list nat) (upd : PrivateMessage → PrivateMessage)
    (coll : list PrivateMessage) : list PrivateMessage :=
  List.map (λ m, if existsb (Nat.eqb (_id m)) ids then upd m else m) coll.

Definition by_timestamp (a b : PrivateMessage) : Prop := timestamp a ≤ timestamp b.

#[global] Instance by_timestamp_dec a b : Decision (by_timestamp a b).
Proof. unfold by_timestamp. apply _. Defined.

(** [find({ $or: [{sender: me, receiver: other}, {sender: other, receiver: me}] })
    .sort({ timestamp: 1 })] *)
Definition find_conversation (me other : string) (coll : list PrivateMessage)
    : list PrivateMessage :=
  merge_sort by_timestamp
    (List.filter (λ m, (String.eqb (sender m) me && String.eqb (receiver m) other)
                       || (String.eqb (sender m) other && String.eqb (receiver m) me))
       coll).

Definition username_is (u : string) (d : Doc) : bool :=
  match doc_get "username" d with
  | Some (VString s) => String.eqb s u
  | _ => false
  end.

(** [findOneAndUpdate(filter, update)]: the first match is updated. *)
Fixpoint findOneAndUpdate (p : Doc → bool) (upd : Doc → Doc) (coll : list Doc) : list Doc :=
  match coll with
  | [] => []
  | d :: coll' => if p d then upd d :: coll' else d :: findOneAndUpdate p upd coll'
  end.

(** [userModel.find(filter, { password: 0 })] *)
Definition find_users (p : Doc → bool) (coll : list Doc) : list Doc :=
  List.map (project_out "password") (List.filter p coll).

(** ** Handlers *)

(** [if (socket)] on the result of the lookup: [undefined] and the empty
    string take the else branch. *)
Definition when_truthy (o : option string) : option string :=
  match o with
  | Some s => if truthy s then Some s else None
  | None => None
  end.

(** The lookup every handler repeats before a targeted send. *)
Definition socket_of (u : string) (st : State) : option string :=
  when_truthy (find_key_of_value u (connectedUsers st)).

Definition broadcastUserList (st : State) : list Action :=
  [server_emit (userList (find_users (λ _, true) (userModel st)))].

Definition set_presence (online : bool) (t : Z) (d : Doc) : Doc :=
  doc_set "lastSeen" (VDate t) (doc_set "isOnline" (VBool online) d).

Definition handleConnection (env : Env) (client : Socket) (st : State)
    : State * list Action :=
  let username := username client in
  let st := with_connectedUsers (Map_set (id client) username (connectedUsers st)) st in
  let st := with_typingUsers (<[username := ∅]> (typingUsers st)) st in
  let st := with_userModel
              (findOneAndUpdate (username_is username) (set_presence true (now env))
                 (userModel st)) st in
  (st, broadcastUserList st).

Definition handleDisconnect (env : Env) (client : Socket) (st : State)
    : State * list Action :=
  match when_truthy (Map_get (id client) (connectedUsers st)) with
  | Some username =>
      let st := with_userModel
                  (findOneAndUpdate (username_is username)
                     (set_presence false (now env)) (userModel st)) st in
      let st := with_connectedUsers (Map_delete (id client) (connectedUsers st)) st in
      let st := with_typingUsers (delete username (typingUsers st)) st in
      (st, broadcastUserList st)
  | None => (st, [])
  end.

Definition handleJoinRoom (client : Socket) (room : string) (st : State)
    : State * list Action :=
  (st, [client_join (id client) room]).

Definition handleLeaveRoom (client : Socket) (room : string) (st : State)
    : State * list Action :=
  (st, [client_leave (id client) room]).

Definition handleMessage (client : Socket) (room content : string) (st : State)
    : State * list Action :=
  let message := {| msg_id := nextObjectId st; msg_sender := username client;
                    msg_content := content; msg_room := room |} in
  let st := with_nextObjectId (S (nextObjectId st)) st in
  let st := with_messageModel (messageModel st ++ [message]) st in
  (st, [server_to_emit room (newMessage message)]).

Definition handleTyping (client : Socket) (receiver : string) (st : State)
    : State * list Action :=
  let sender := username client in
  let st := match typingUsers st !! sender with
            | Some _ => st
            | None => with_typingUsers (<[sender := ∅]> (typingUsers st)) st
            end in
  let st := match typingUsers st !! sender with
            | Some typingSet =>
                with_typingUsers (<[sender := typingSet ∪ {[receiver]}]> (typingUsers st)) st
            | None => st
            end in
  match socket_of receiver st with
  | Some receiverSocket => (st, [server_to_emit receiverSocket (userTyping sender)])
  | None => (st, [])
  end.

Definition handleStopTyping (client : Socket) (receiver : string) (st : State)
    : State * list Action :=
  let sender := username client in
  let st := match typingUsers st !! sender with
            | Some typingSet =>
                with_typingUsers (<[sender := typingSet ∖ {[receiver]}]> (typingUsers st)) st
            | None => st
            end in
  match socket_of receiver st with
  | Some receiverSocket => (st, [server_to_emit receiverSocket (userStoppedTyping sender)])
  | None => (st, [])
  end.

(** The part of [handlePrivateMessage] and of the upload completion that
    both write out: deliver to the receiver if there is a socket, then echo
    to the sender.  The receiver is sent the document as it is before the
    delivery fields are set, the sender as it is after. *)
Definition deliver_and_echo (env : Env) (client : Socket) (message : PrivateMessage)
    (st : State) : State * list Action :=
  match socket_of (receiver message) st with
  | Some receiverSocket =>
      let delivered := set_delivered (now env) message in
      let st := with_privateMessageModel (save delivered (privateMessageModel st)) st in
      (st, [server_to_emit receiverSocket (newPrivateMessage message);
            client_emit (id client) (messageDelivered (_id message));
            client_emit (id client) (newPrivateMessage delivered)])
  | None => (st, [client_emit (id client) (newPrivateMessage message)])
  end.

(** When the first [save] rejects, the handler ends there with the
    rejection, which is the framework's to report: the document has taken
    its [_id], and nothing is stored or emitted. *)
Definition handlePrivateMessage (env : Env) (client : Socket)
    (to text : string) (st : State) : State * list Action :=
  let message := new_PrivateMessage (nextObjectId st) (now env) (username client)
                   to text None None None None in
  let st := with_nextObjectId (S (nextObjectId st)) st in
  if validate message then
    let st := with_privateMessageModel (save message (privateMessageModel st)) st in
    let '(st, out) := deliver_and_echo env client message st in
    let '(st, out') := handleStopTyping client to st in
    (st, out ++ out')
  else (st, []).

Definition handleMarkMessageAsRead (env : Env) (client : Socket) (messageId : nat)
    (st : State) : State * list Action :=
  match findById messageId (privateMessageModel st) with
  | Some message =>
      if String.eqb (receiver message) (username client) then
        let message := set_read (now env) message in
        let st := with_privateMessageModel (save message (privateMessageModel st)) st in
        match socket_of (sender message) st with
        | Some senderSocket =>
            (st, [server_to_emit senderSocket (messageRead (_id message) (readAt message))])
        | None => (st, [])
        end
      else (st, [])
  | None => (st, [])
  end.

Definition handleGetPrivateMessages (env : Env) (client : Socket) (otherUser : string)
    (st : State) : State * list Action :=
  let messages := find_conversation (username client) otherUser (privateMessageModel st) in
  let unreadMessages :=
    List.filter (λ msg, negb (isDelivered msg) && String.eqb (receiver msg) (username client))
      messages in
  let '(st, out) :=
    if (0 <? length unreadMessages)%nat then
      let st' := with_privateMessageModel
                   (updateMany (List.map _id unreadMessages) (set_delivered (now env))
                      (privateMessageModel st)) st in
      (st', flat_map (λ msg, match socket_of (sender msg) st' with
                             | Some senderSocket =>
                                 [server_to_emit senderSocket (messageDelivered (_id msg))]
                             | None => []
                             end) unreadMessages)
    else (st, []) in
  (st, out ++ [client_emit (id client) (privateMessages messages)]).

Definition handleSearchUsers `{Platform} (client : Socket) (query : string) (st : State)
    : State * list Action :=
  match regex_i query with
  | Some re =>
      let users := find_users (λ d, match doc_get "username" d with
                                    | Some (VString u) => re u
                                    | _ => false
                                    end) (userModel st) in
      (st, [client_emit (id client) (searchResults users)])
  | None => (st, [])
  end.

Definition handleStartFileUpload (env : Env) (client : Socket) (total : Z) (st : State)
    : State * list Action :=
  let uploadId := pretty (now env) +:+ "-" +:+ random_tail env in
  let st := with_tempUploads
              (<[uploadId := {| chunks := []; chunk_properties := ∅; totalChunks := total |}]>
                 (tempUploads st)) st in
  (st, [client_emit (id client) (uploadStarted uploadId)]).

(** Where the [try] block of [handleUploadChunk] stands when it first
    leaves the thread: it has thrown, it has found the session incomplete
    (l.311), or it waits for the file to be written (l.317), holding the
    name and the bytes. *)
Inductive Assembly :=
| thrown (e : Exn)
| incomplete
| assembled (safeFileName : string) (fileData : Buffer).

(** The [try] block up to its first [await] (l.301-315). *)
Definition uploadChunk_assemble `{Platform} (env : Env) (payload : UploadChunkPayload)
    (st : State) : State * Assembly :=
  match tempUploads st !! p_uploadId payload with
  | None => (st, thrown (Error "Upload session not found"))
  | Some upload =>
      match decode_chunk (p_chunk payload) with
      | inl e => (st, thrown e)
      | inr chunkData =>
          let upload :=
            {| chunks := array_assign (chunks upload) (p_chunkIndex payload) chunkData;
               chunk_properties :=
                 property_assign (chunk_properties upload) (p_chunkIndex payload) chunkData;
               totalChunks := totalChunks upload |} in
          let st := with_tempUploads (<[p_uploadId payload := upload]> (tempUploads st)) st in
          if decide (Z.of_nat (length (filter_Boolean (chunks upload))) = totalChunks upload) then
            match Buffer_concat (chunks upload) with
            | inl e => (st, thrown e)
            | inr fileData =>
                (st, assembled (pretty (now env) +:+ "-" +:+ sanitize (p_fileName payload))
                       fileData)
            end
          else (st, incomplete)
      end
  end.

(** [client.emit('chunkReceived', ...)] *)
Definition chunk_received (client : Socket) (payload : UploadChunkPayload) : Action :=
  client_emit (id client) (chunkReceived (p_uploadId payload) (p_chunkIndex payload)).

(** The [try] block from its first [await] on (l.317-352), in the state it
    is resumed in. *)
Definition uploadChunk_finish `{Platform} (env : Env) (client : Socket)
    (payload : UploadChunkPayload) (safeFileName : string) (fileData : Buffer)
    (st : State) : State * list Action * option Exn :=
  if fs_writeFile safeFileName fileData then
    let st := with_uploadDir (<[safeFileName := fileData]> (uploadDir st)) st in
    let message :=
      new_PrivateMessage (nextObjectId st) (now env) (username client)
        (p_receiver payload) ("Shared a file: " +:+ p_fileName payload)
        (Some ("/uploads/" +:+ safeFileName)) (Some (p_fileName payload))
        (Some (p_fileType payload)) (Some (p_fileSize payload)) in
    let st := with_nextObjectId (S (nextObjectId st)) st in
    if validate message then
      let st := with_privateMessageModel (save message (privateMessageModel st)) st in
      let '(st, out) := deliver_and_echo env client message st in
      let st := with_tempUploads (delete (p_uploadId payload) (tempUploads st)) st in
      (st, out ++ [chunk_received client payload], None)
    else (st, [], Some ValidationError)
  else (st, [], Some SystemError).

(** The [try] block of [handleUploadChunk] with nothing running between its
    two parts: the state and the actions reached, and the exception that
    ended the block, if any. *)
Definition uploadChunk_try `{Platform} (env : Env) (client : Socket)
    (payload : UploadChunkPayload) (st : State) : State * list Action * option Exn :=
  match uploadChunk_assemble env payload st with
  | (st, thrown e) => (st, [], Some e)
  | (st, incomplete) => (st, [chunk_received client payload], None)
  | (st, assembled safeFileName fileData) =>
      uploadChunk_finish env client payload safeFileName fileData st
  end.

(** The [catch] block. *)
Definition uploadChunk_catch (client : Socket) (payload : UploadChunkPayload)
    (r : State * list Action * option Exn) : State * list Action :=
  match r with
  | (st, out, None) => (st, out)
  | (st, out, Some _) =>
      (st, out ++ [client_emit (id client)
                     (uploadError "Failed to upload chunk" (Some (p_uploadId payload)))])
  end.

Definition handleUploadChunk `{Platform} (env : Env) (client : Socket)
    (payload : UploadChunkPayload) (st : State) : State * list Action :=
  uploadChunk_catch client payload (uploadChunk_try env client payload st).

Definition handleCancelUpload (client : Socket) (uploadId : string) (st : State)
    : State * list Action :=
  (with_tempUploads (delete uploadId (tempUploads st)) st,
   [client_emit (id client) (uploadCancelled uploadId)]).

(** ** The gateway as a transition system *)

Record Inbound := {
  env : Env;
  client : Socket;
  event : Event;
}.

Definition handle `{Platform} (i : Inbound) (st : State) : State * list Action :=
  match event i with
  | connection => handleConnection (env i) (client i) st
  | disconnect => handleDisconnect (env i) (client i) st
  | joinRoom room => handleJoinRoom (client i) room st
  | leaveRoom room => handleLeaveRoom (client i) room st
  | sendMessage room content => handleMessage (client i) room content st
  | sendPrivateMessage to text => handlePrivateMessage (env i) (client i) to text st
  | markMessageAsRead messageId => handleMarkMessageAsRead (env i) (client i) messageId st
  | getPrivateMessages otherUser => handleGetPrivateMessages (env i) (client i) otherUser st
  | searchUsers query => handleSearchUsers (client i) query st
  | typing to => handleTyping (client i) to st
  | stopTyping to => handleStopTyping (client i) to st
  | startFileUpload total => handleStartFileUpload (env i) (client i) total st
  | uploadChunk payload => handleUploadChunk (env i) (client i) payload st
  | cancelUpload uploadId => handleCancelUpload (client i) uploadId st
  end.

(** Handling a sequence of inbound events, one after the other. *)
Fixpoint run `{Platform} (evs : list Inbound) (st : State) : State * list Action :=
  match evs with
  | [] => (st, [])
  | i :: evs' =>
      let '(st', out) := handle i st in
      let '(st'', out') := run evs' st' in
      (st'', out ++ out')
  end.

(** A platform on which the handlers can be evaluated: the decoder returns
    the bytes of the text, a pattern matches the names equal to it, and a
    file is written when its name has at most 255 characters. *)
Definition sample_platform : Platform :=
  {| base64_decode := λ s, List.map byte_of_ascii (list_ascii_of_string s);
     regex_i := λ q, Some (λ u, String.eqb u q);
     fs_writeFile := λ name _, (String.length name <=? 255)%nat |}.

(** ** Observations used by the statements *)

(** The connection identities registered for a username. *)
Definition connections_of (u : string) (st : State) : list string :=
  List.map fst (List.filter (λ kv, String.eqb (snd kv) u) (connectedUsers st)).

(** The typing relation: [from] is typing to [to]. *)
Definition typing_to (from to : string) (st : State) : bool :=
  match typingUsers st !! from with
  | Some typingSet => bool_decide (to ∈ typingSet)
  | None => false
  end.

(** The delivery flag of the stored message [oid]; [false] while there is
    no such message. *)
Definition delivered (oid : nat) (st : State) : bool :=
  match findById oid (privateMessageModel st) with
  | Some m => isDelivered m
  | None => false
  end.

(** The read flag of the stored message [oid]. *)
Definition read (oid : nat) (st : State) : bool :=
  match findById oid (privateMessageModel st) with
  | Some m => isRead m
  | None => false
  end.

(** The states a run goes through, the starting state first. *)
Fixpoint trace `{Platform} (evs : list Inbound) (st : State) : list State :=
  st :: match evs with
        | [] => []
        | i :: evs' => trace evs' (fst (handle i st))
        end.

(** How often a flag changes from [a] to [b] between consecutive states. *)
Fixpoint flips (a b : bool) (l : list bool) : nat :=
  match l with
  | x :: ((y :: _) as l') =>
      ((if Bool.eqb x a && Bool.eqb y b then 1 else 0) + flips a b l')%nat
  | _ => 0%nat
  end.

(** The actions that carry a delivery notification for message [oid]. *)
Definition is_delivery_of (oid : nat) (a : Action) : bool :=
  match a with
  | client_emit _ (messageDelivered j)
  | server_to_emit _ (messageDelivered j)
  | server_emit (messageDelivered j) => Nat.eqb j oid
  | _ => false
  end.

(** The user records an action carries. *)
Definition user_records (a : Action) : list Doc :=
  match a with
  | client_emit _ (userList us) | client_emit _ (searchResults us)
  | server_to_emit _ (userList us) | server_to_emit _ (searchResults us)
  | server_emit (userList us) | server_emit (searchResults us) => us
  | _ => []
  end.

(** Index [i] of the array holds a buffer. *)
Definition populated (a : JsArray Buffer) (i : nat) : Prop :=
  ∃ b, a !! i = Some (Some b).

(** Well-formed states: one registry entry per connection identity, one
    stored message per [_id], and every stored [_id] already issued. *)
Definition wf (st : State) : Prop :=
  List.NoDup (List.map fst (connectedUsers st))
  ∧ List.NoDup (List.map _id (privateMessageModel st))
  ∧ Forall (λ m, (_id m < nextObjectId st)%nat) (privateMessageModel st).

(** ** Auxiliary definitions of the statements and proofs *)

(** What [deliver_and_echo] leaves in the collection. *)
Definition delivered_store (t : Z) (message : PrivateMessage) (st : State)
    : list PrivateMessage :=
  match socket_of (receiver message) st with
  | Some _ => save (set_delivered t message) (privateMessageModel st)
  | None => privateMessageModel st
  end.

(** What [handleStopTyping] leaves in the typing map. *)
Definition stopped (from to : string) (t : gmap string (gset string))
    : gmap string (gset string) :=
  match t !! from with
  | Some typingSet => <[from := typingSet ∖ {[to]}]> t
  | None => t
  end.

(** Text that [decode_chunk] accepts: there is something after a comma. *)
Definition decodes (chunk : string) : bool :=
  match split "," chunk !! 1%nat with
  | Some _ => true
  | None => false
  end.

(** The session after [upload.chunks[chunkIndex] = chunkData]. *)
Definition stored (p : UploadChunkPayload) (data : Buffer) (upload : Upload) : Upload :=
  {| chunks := array_assign (chunks upload) (p_chunkIndex p) data;
     chunk_properties := property_assign (chunk_properties upload) (p_chunkIndex p) data;
     totalChunks := totalChunks upload |}.

(** The name the completion gives the file. *)
Definition file_name (e : Env) (p : UploadChunkPayload) : string :=
  pretty (now e) +:+ "-" +:+ sanitize (p_fileName p).

(** The state after a chunk whose file was written and whose message was
    refused by the validation. *)
Definition unsaved (e : Env) (p : UploadChunkPayload) (fileData : Buffer) (st : State)
    : State :=
  with_nextObjectId (S (nextObjectId st))
    (with_uploadDir (<[file_name e p := fileData]> (uploadDir st)) st).

(** The message the completion creates. *)
Definition file_message (e : Env) (c : Socket) (p : UploadChunkPayload) (oid : nat)
    : PrivateMessage :=
  new_PrivateMessage oid (now e) (username c) (p_receiver p)
    ("Shared a file: " +:+ p_fileName p)
    (Some ("/uploads/" +:+ (pretty (now e) +:+ "-" +:+ sanitize (p_fileName p))))
    (Some (p_fileName p)) (Some (p_fileType p)) (Some (p_fileSize p)).

(** The state a completion leaves, from the state [st] before the chunk. *)
Definition completed (e : Env) (c : Socket) (p : UploadChunkPayload)
    (fileData : Buffer) (st : State) : State :=
  let m := file_message e c p (nextObjectId st) in
  let st1 := with_uploadDir
               (<[pretty (now e) +:+ "-" +:+ sanitize (p_fileName p) := fileData]>
                  (uploadDir st)) st in
  let st2 := with_privateMessageModel (save m (privateMessageModel st))
               (with_nextObjectId (S (nextObjectId st)) st1) in
  with_tempUploads (delete (p_uploadId p) (tempUploads st))
    (with_privateMessageModel (delivered_store (now e) m st2) st2).

(** The state after a chunk that was stored without completing. *)
Definition accumulated (p : UploadChunkPayload) (data : Buffer) (upload : Upload)
    (st : State) : State :=
  with_tempUploads (<[p_uploadId p := stored p data upload]> (tempUploads st)) st.

(** The event of the [catch] block. *)
Definition upload_error (c : Socket) (p : UploadChunkPayload) : Action :=
  client_emit (id c) (uploadError "Failed to upload chunk" (Some (p_uploadId p))).

(** The undelivered messages of the conversation addressed to the caller. *)
Definition unread_for (me other : string) (coll : list PrivateMessage)
    : list PrivateMessage :=
  List.filter (λ msg, negb (isDelivered msg) && String.eqb (receiver msg) me)
    (find_conversation me other coll).

(** Sockets and events of the examples; bob has two connections. *)
Definition alice : Socket := {| id := "s1"; username := "alice" |}.
Definition bob : Socket := {| id := "s2"; username := "bob" |}.
Definition bob_again : Socket := {| id := "s3"; username := "bob" |}.

Definition at_time (t : Z) (c : Socket) (ev : Event) : Inbound :=
  {| env := {| now := t; random_tail := "k3x9" |}; client := c; event := ev |}.

(** The registry property as the specification words it. *)
Definition one_connection_per_username (st : State) : Prop :=
  ∀ u, (length (connections_of u st) ≤ 1)%nat.

(** The typing claim as the specification words it: only a stop-typing
    event or a message sent by the sender to that recipient removes the
    relation. *)
Definition removed_only_by_stop_or_send `{Platform} : Prop :=
  ∀ st i from to,
    wf st →
    typing_to from to st = true →
    typing_to from to (fst (handle i st)) = false →
    username (client i) = from
    ∧ (event i = stopTyping to ∨ ∃ text, event i = sendPrivateMessage to text).

(** Every stored message is still stored, with no flag taken back. *)
Definition store_le (coll coll' : list PrivateMessage) : Prop :=
  ∀ oid m, findById oid coll = Some m →
    ∃ m', findById oid coll' = Some m'
          ∧ (isDelivered m = true → isDelivered m' = true)
          ∧ (isRead m = true → isRead m' = true).

(** A list of flag values that never goes from [true] to [false]. *)
Fixpoint ascending (l : list bool) : Prop :=
  match l with
  | x :: ((y :: _) as l') => (x = true → y = true) ∧ ascending l'
  | _ => True
  end.

(** A state in which alice has sent "hi" to bob, who is not connected. *)
Definition one_undelivered : State :=
  fst (@run sample_platform
         [at_time 1 alice connection; at_time 2 alice (sendPrivateMessage "bob" "hi")]
         (initial [])).

(** The delivery notice for one message, given the socket of its sender. *)
Definition notify (target : PrivateMessage → option string) (msg : PrivateMessage)
    : list Action :=
  match target msg with
  | Some s => [server_to_emit s (messageDelivered (_id msg))]
  | None => []
  end.

(** The records of the users an action carries have no password field. *)
Definition hides_password (a : Action) : Prop :=
  List.Forall (λ d, has_field "password" d = false) (user_records a).

(** The chunk index an inbound event submits. *)
Definition index_of (ev : Inbound) : Z :=
  match event ev with
  | uploadChunk p => p_chunkIndex p
  | _ => -1
  end.

(** The event is an upload chunk for session [u]. *)
Definition for_session (u : string) (ev : Inbound) : bool :=
  match event ev with
  | uploadChunk p => String.eqb (p_uploadId p) u
  | _ => false
  end.

(** The event is an upload chunk whose text decodes. *)
Definition decodable (ev : Inbound) : bool :=
  match event ev with
  | uploadChunk p => decodes (p_chunk p)
  | _ => false
  end.

(** A chunk step shows a completion: the session is gone, or the message
    collection or the upload directory changed. *)
Definition completion_effect (u : string) (st st' : State) : Prop :=
  tempUploads st' !! u = None
  ∨ privateMessageModel st' ≠ privateMessageModel st
  ∨ uploadDir st' ≠ uploadDir st.

(** The state shows no trace of a completion of session [u] since [st]. *)
Definition still_accumulating (u : string) (st st' : State) : Prop :=
  is_Some (tempUploads st' !! u)
  ∧ privateMessageModel st' = privateMessageModel st
  ∧ uploadDir st' = uploadDir st
  ∧ nextObjectId st' = nextObjectId st.

(** The state shows one completion of session [u] since [st]: the session is
    gone, one message and one file were written. *)
Definition completed_once (u : string) (st st' : State) : Prop :=
  tempUploads st' !! u = None
  ∧ length (privateMessageModel st') = S (length (privateMessageModel st))
  ∧ nextObjectId st' = S (nextObjectId st)
  ∧ ∃ name data, uploadDir st' = <[name := data]> (uploadDir st).

(** The event is a start-upload that is given the identifier [u]. *)
Definition starts_session (u : string) (ev : Inbound) : bool :=
  match event ev with
  | startFileUpload _ =>
      String.eqb (pretty (now (env ev)) +:+ "-" +:+ random_tail (env ev)) u
  | _ => false
  end.

(** A session of two chunks, started by alice at time 5. *)
Definition two_chunk_session : State :=
  fst (@run sample_platform
         [at_time 1 alice connection; at_time 5 alice (startFileUpload 2)] (initial [])).

(** A chunk of that session with index [i]. *)
Definition chunk (i : Z) : UploadChunkPayload :=
  {| p_uploadId := "5-k3x9"; p_chunk := "data:text/plain;base64,aGk=";
     p_chunkIndex := i; p_receiver := "bob"; p_fileName := "my notes.txt";
     p_fileType := "text/plain"; p_fileSize := 4 |}.

(** ** Handshake *)

(** [this.jwtService.verify(token)]: [None] when it throws. *)
Class JwtService (Payload : Type) := {
  jwt_verify : string → option Payload;
}.

(** What the [try] block of the middleware throws and what [next] is given. *)
Inductive HandshakeError :=
| UnauthorizedException (message : string)
| JwtError.

(** The [try] block of the middleware that [afterInit] installs; [token] is
    [socket.handshake.auth.token], [None] when it is undefined. *)
Definition afterInit_try {Payload} `{JwtService Payload} (token : option string)
    : HandshakeError + Payload :=
  match token with
  | Some t =>
      if truthy t then
        match jwt_verify t with
        | Some payload => inr payload
        | None => inl JwtError
        end
      else inl (UnauthorizedException "Authentication token not found")
  | None => inl (UnauthorizedException "Authentication token not found")
  end.

(** The middleware: what it leaves in [socket.data.user] and what it passes
    to [next] ([None] for [next()]). *)
Definition afterInit {Payload} `{JwtService Payload} (token : option string)
    : option Payload * option HandshakeError :=
  match afterInit_try token with
  | inr payload => (Some payload, None)
  | inl _ => (None, Some (UnauthorizedException "Invalid token"))
  end.

(** ** Further observations *)

(** Every character of the string passes the test. *)
Fixpoint string_forall (p : ascii → bool) (s : string) : bool :=
  match s with
  | EmptyString => true
  | String c s' => p c && string_forall p s'
  end.

Definition no_comma (s : string) : bool :=
  string_forall (λ c, negb (Ascii.eqb c ",")) s.

(** The two replies to an upload chunk. *)
Definition is_chunk_reply (a : Action) : bool :=
  match a with
  | client_emit _ (chunkReceived _ _) | client_emit _ (uploadError _ _) => true
  | _ => false
  end.

(** The event is an upload chunk with a non-negative index whose text
    decodes to the buffer that [expected] holds at that index. *)
Definition carries `{Platform} (expected : list Buffer) (ev : Inbound) : Prop :=
  match event ev with
  | uploadChunk p =>
      0 ≤ p_chunkIndex p
      ∧ match decode_chunk (p_chunk p) with
        | inr data => expected !! Z.to_nat (p_chunkIndex p) = Some data
        | inl _ => False
        end
  | _ => False
  end.

(** Every buffer the array holds is the expected one for its index. *)
Definition agrees (expected : list Buffer) (a : JsArray Buffer) : Prop :=
  ∀ j b, a !! j = Some (Some b) → expected !! j = Some b.

(** What [handleTyping] leaves in the typing map. *)
Definition started (from to : string) (t : gmap string (gset string))
    : gmap string (gset string) :=
  <[from := default ∅ (t !! from) ∪ {[to]}]> t.

(** A user document without the two fields the gateway writes. *)
Definition identity_fields (d : Doc) : Doc :=
  project_out "isOnline" (project_out "lastSeen" d).

(** The event starts, feeds or cancels the session [u]. *)
Definition touches_session (u : string) (ev : Inbound) : bool :=
  starts_session u ev || for_session u ev
  || match event ev with
     | cancelUpload v => String.eqb v u
     | _ => false
     end.

(** The message with its four lifecycle fields blanked. *)
Definition without_lifecycle (m : PrivateMessage) : PrivateMessage :=
  {| _id := _id m; sender := sender m; receiver := receiver m;
     content := content m; isRead := false; isDelivered := false;
     timestamp := timestamp m; deliveredAt := 0; readAt := None;
     fileUrl := fileUrl m; fileName := fileName m; fileType := fileType m;
     fileSize := fileSize m; isVoiceMessage := isVoiceMessage m;
     duration := duration m; reactions := reactions m; likes := likes m;
     dislikes := dislikes m |}.

(** The read flag is set exactly when there is a read time. *)
Definition read_is_stamped (m : PrivateMessage) : Prop :=
  isRead m = match readAt m with Some _ => true | None => false end.

(** A JWT service on which the middleware can be evaluated: one token is
    valid, and its payload is a user name. *)
Definition sample_jwt : JwtService string :=
  {| jwt_verify := λ t, if String.eqb t "signed.by.us" then Some "alice" else None |}.

(** The send claim as the specification words it: every send stores the
    message and echoes it to the connection of the sender. *)
Definition every_send_is_echoed : Prop :=
  ∀ e c to text st,
    wf st →
    let r := handlePrivateMessage e c to text st in
    ∃ m, content m = text
         ∧ List.In m (privateMessageModel (fst r))
         ∧ List.In (client_emit (id c) (newPrivateMessage m)) (snd r).

(** The event is an upload chunk whose completion can be stored: the file
    system takes a file under the name made for it, whatever its bytes, and
    the sender and the receiver of the message are not empty. *)
Definition storable `{Platform} (ev : Inbound) : Prop :=
  match event ev with
  | uploadChunk p =>
      (∀ data, fs_writeFile (file_name (env ev) p) data = true)
      ∧ username (client ev) ≠ "" ∧ p_receiver p ≠ ""
  | _ => False
  end.

(** The completion claim as the specification words it: the chunks of all
    [N] indices, in any order, complete the session once. *)
Definition all_indices_complete_once `{Platform} : Prop :=
  ∀ u N st evs,
    wf st →
    tempUploads st !! u
    = Some {| chunks := []; chunk_properties := ∅; totalChunks := N |} →
    forallb (for_session u) evs = true →
    forallb decodable evs = true →
    List.NoDup (List.map index_of evs) →
    List.Forall (λ ev, 0 ≤ index_of ev < N) evs →
    Z.of_nat (length evs) = N → 0 < N →
    completed_once u st (fst (run evs st)).

(** A chunk submitted again while its first submission waits for the file
    to be written: the first part of the handler for the first submission,
    the whole handler for the second, then the second part for the first. *)
Definition resubmitted_while_waiting `{Platform} (e e' : Env) (c : Socket)
    (p : UploadChunkPayload) (st : State) : State * list Action * option Exn :=
  match uploadChunk_assemble e p st with
  | (st1, assembled safeFileName fileData) =>
      let '(st2, out2) := handleUploadChunk e' c p st1 in
      let '(st3, out3, ex) := uploadChunk_finish e c p safeFileName fileData st2 in
      (st3, out2 ++ out3, ex)
  | (st1, thrown ex) => (st1, [], Some ex)
  | (st1, incomplete) => (st1, [chunk_received c p], None)
  end.

(** A chunk of the session of two chunks that names no receiver. *)
Definition unaddressed_chunk (i : Z) : UploadChunkPayload :=
  {| p_uploadId := "5-k3x9"; p_chunk := "data:text/plain;base64,aGk=";
     p_chunkIndex := i; p_receiver := ""; p_fileName := "my notes.txt";
     p_fileType := "text/plain"; p_fileSize := 4 |}.

(** ** Lemmas on the JavaScript containers *)

Section JsMapFacts.
Context {V : Type}.
Implicit Types (m : JsMap string V) (k : string) (v : V).

Lemma Map_get_set_eq k v m : Map_get k (Map_set k v m) = Some v.
Proof.
  unfold Map_get. induction m as [|[k' v'] m IH]; simpl.
  - by rewrite String.eqb_refl.
  - destruct (String.eqb k' k) eqn:E; simpl; rewrite E; auto.
Qed.

Lemma Map_get_set_ne k k' v m : k ≠ k' → Map_get k' (Map_set k v m) = Map_get k' m.
Proof.
  intros Hne. unfold Map_get. induction m as [|[k0 v0] m IH]; simpl.
  - destruct (String.eqb k k') eqn:E; [apply String.eqb_eq in E; done | done].
  - destruct (String.eqb k0 k) eqn:E; simpl.
    + apply String.eqb_eq in E; subst k0.
      destruct (String.eqb k k') eqn:E'; [apply String.eqb_eq in E'; done | done].
    + destruct (String.eqb k0 k'); auto.
Qed.

Lemma In_keys_Map_set x k v m :
  In x (List.map fst (Map_set k v m)) ↔ x = k ∨ In x (List.map fst m).
Proof.
  induction m as [|[k0 v0] m IH]; simpl.
  - intuition congruence.
  - destruct (String.eqb k0 k) eqn:E; simpl.
    + apply String.eqb_eq in E; subst. intuition congruence.
    + rewrite IH. intuition congruence.
Qed.

Lemma NoDup_keys_Map_set k v m :
  List.NoDup (List.map fst m) → List.NoDup (List.map fst (Map_set k v m)).
Proof.
  induction m as [|[k0 v0] m IH]; simpl; intros Hnd.
  - constructor; [simpl; tauto | constructor].
  - inversion Hnd as [|? ? Hnotin Hnd']; subst.
    destruct (String.eqb k0 k) eqn:E; simpl.
    + by constructor.
    + constructor; [| by apply IH].
      rewrite In_keys_Map_set. intros [->|Hin]; [| done].
      by rewrite String.eqb_refl in E.
Qed.

Lemma NoDup_keys_Map_delete k m :
  List.NoDup (List.map fst m) → List.NoDup (List.map fst (Map_delete k m)).
Proof.
  unfold Map_delete. induction m as [|[k0 v0] m IH]; simpl; intros Hnd; [done|].
  inversion Hnd as [|? ? Hnotin Hnd']; subst.
  destruct (negb (String.eqb k0 k)); simpl; [| by apply IH].
  constructor; [| by apply IH].
  intros Hin. apply Hnotin. apply in_map_iff in Hin as [kv [Hk Hin]].
  apply filter_In in Hin as [Hin _]. apply in_map_iff. eauto.
Qed.

Lemma Map_get_In k v m :
  List.NoDup (List.map fst m) → In (k, v) m → Map_get k m = Some v.
Proof.
  unfold Map_get. induction m as [|[k0 v0] m IH]; simpl; intros Hnd Hin; [done|].
  inversion Hnd as [|? ? Hnotin Hnd']; subst.
  destruct Hin as [Heq|Hin].
  - inversion Heq; subst. by rewrite String.eqb_refl.
  - destruct (String.eqb k0 k) eqn:E; [| by apply IH].
    apply String.eqb_eq in E; subst k0. exfalso. apply Hnotin.
    apply in_map_iff. by exists (k, v).
Qed.

Lemma Map_get_Some_In k v m : Map_get k m = Some v → In (k, v) m.
Proof.
  unfold Map_get. intros Hget.
  destruct (List.find _ m) as [[k0 v0]|] eqn:Hf; [| done].
  apply find_some in Hf as [Hin Hk]. simpl in *.
  apply String.eqb_eq in Hk. by simplify_eq.
Qed.

Lemma Map_get_delete_ne k k' m : k ≠ k' → Map_get k' (Map_delete k m) = Map_get k' m.
Proof.
  intros Hne. unfold Map_get, Map_delete. induction m as [|[k0 v0] m IH]; simpl; [done|].
  destruct (String.eqb k0 k) eqn:E; simpl.
  - apply String.eqb_eq in E; subst k0.
    destruct (String.eqb k k') eqn:E'; [apply String.eqb_eq in E'; done | done].
  - destruct (String.eqb k0 k'); auto.
Qed.

Lemma Map_get_delete_eq k m : Map_get k (Map_delete k m) = None.
Proof.
  unfold Map_get, Map_delete. induction m as [|[k0 v0] m IH]; simpl; [done|].
  destruct (String.eqb k0 k) eqn:E; simpl; [done|]. by rewrite E.
Qed.

End JsMapFacts.

Lemma find_key_of_value_In x k (m : JsMap string string) :
  find_key_of_value x m = Some k → In (k, x) m.
Proof.
  unfold find_key_of_value. intros Hf.
  destruct (List.find _ m) as [[k0 v0]|] eqn:Hfind; [| done].
  apply find_some in Hfind as [Hin Hv]. simpl in *.
  apply String.eqb_eq in Hv. by simplify_eq.
Qed.

(** ** Lemmas on the message collection *)

Lemma id_set_delivered t m : _id (set_delivered t m) = _id m.
Proof. reflexivity. Qed.

Lemma id_set_read t m : _id (set_read t m) = _id m.
Proof. reflexivity. Qed.

Lemma findById_save j m coll :
  findById j (save m coll) = if Nat.eqb (_id m) j then Some m else findById j coll.
Proof.
  unfold findById. induction coll as [|m' coll IH]; simpl; [done|].
  destruct (Nat.eqb (_id m') (_id m)) eqn:E; simpl.
  - apply Nat.eqb_eq in E. rewrite E. by destruct (Nat.eqb (_id m) j).
  - rewrite IH. destruct (Nat.eqb (_id m') j) eqn:E'; [| done].
    apply Nat.eqb_eq in E'; subst j. by rewrite Nat.eqb_sym, E.
Qed.

Lemma In_ids_save j m coll :
  In j (List.map _id (save m coll)) ↔ j = _id m ∨ In j (List.map _id coll).
Proof.
  induction coll as [|m' coll IH]; simpl.
  - intuition congruence.
  - destruct (Nat.eqb (_id m') (_id m)) eqn:E; simpl.
    + apply Nat.eqb_eq in E. rewrite E. intuition congruence.
    + rewrite IH. intuition congruence.
Qed.

Lemma NoDup_ids_save m coll :
  List.NoDup (List.map _id coll) → List.NoDup (List.map _id (save m coll)).
Proof.
  induction coll as [|m' coll IH]; simpl; intros Hnd.
  - constructor; [simpl; tauto | constructor].
  - inversion Hnd as [|? ? Hnotin Hnd']; subst.
    destruct (Nat.eqb (_id m') (_id m)) eqn:E; simpl.
    + apply Nat.eqb_eq in E. rewrite <- E. by constructor.
    + constructor; [| by apply IH].
      rewrite In_ids_save. intros [Heq|Hin]; [| done].
      rewrite Heq, Nat.eqb_refl in E. done.
Qed.

Lemma save_fresh m coll :
  ¬ In (_id m) (List.map _id coll) → save m coll = coll ++ [m].
Proof.
  induction coll as [|m' coll IH]; simpl; intros Hfresh; [done|].
  destruct (Nat.eqb (_id m') (_id m)) eqn:E.
  - apply Nat.eqb_eq in E. tauto.
  - rewrite IH; [done | tauto].
Qed.

Lemma Forall_save (P : PrivateMessage → Prop) m coll :
  Forall P coll → P m → Forall P (save m coll).
Proof.
  intros Hall Hm. induction coll as [|m' coll IH]; simpl.
  - by constructor.
  - inversion Hall; subst.
    destruct (Nat.eqb (_id m') (_id m)); constructor; auto.
Qed.

Lemma In_save_inv x m coll : In x (save m coll) → x = m ∨ In x coll.
Proof.
  induction coll as [|m' coll IH]; simpl.
  - intuition.
  - destruct (Nat.eqb (_id m') (_id m)); simpl; intuition.
Qed.

Lemma findById_Some j m coll : findById j coll = Some m → In m coll ∧ _id m = j.
Proof.
  unfold findById. intros Hf. apply find_some in Hf as [Hin Heq].
  by apply Nat.eqb_eq in Heq.
Qed.

Lemma findById_In m coll :
  List.NoDup (List.map _id coll) → In m coll → findById (_id m) coll = Some m.
Proof.
  unfold findById. induction coll as [|m' coll IH]; simpl; intros Hnd Hin; [done|].
  inversion Hnd as [|? ? Hnotin Hnd']; subst.
  destruct Hin as [->|Hin]; [by rewrite Nat.eqb_refl|].
  destruct (Nat.eqb (_id m') (_id m)) eqn:E; [| by apply IH].
  apply Nat.eqb_eq in E. exfalso. apply Hnotin. rewrite E. by apply in_map.
Qed.

Lemma findById_fresh n coll :
  Forall (λ m, (_id m < n)%nat) coll → findById n coll = None.
Proof.
  unfold findById. induction 1 as [|m coll Hlt _ IH]; simpl; [done|].
  destruct (Nat.eqb (_id m) n) eqn:E; [| done].
  apply Nat.eqb_eq in E. lia.
Qed.

Lemma not_In_ids_fresh n coll :
  Forall (λ m, (_id m < n)%nat) coll → ¬ In n (List.map _id coll).
Proof.
  intros Hall Hin. apply in_map_iff in Hin as [m [Heq Hin]].
  rewrite List.Forall_forall in Hall. apply Hall in Hin. lia.
Qed.

Section UpdateMany.
Variable upd : PrivateMessage → PrivateMessage.
Hypothesis upd_id : ∀ m, _id (upd m) = _id m.

Lemma ids_updateMany ids coll :
  List.map _id (updateMany ids upd coll) = List.map _id coll.
Proof.
  unfold updateMany. induction coll as [|m coll IH]; simpl; [done|].
  rewrite IH. by destruct (existsb _ ids); rewrite ?upd_id.
Qed.

Lemma findById_updateMany j ids coll :
  findById j (updateMany ids upd coll)
  = (λ m, if existsb (Nat.eqb (_id m)) ids then upd m else m) <$> findById j coll.
Proof.
  unfold findById, updateMany. induction coll as [|m coll IH]; simpl; [done|].
  destruct (existsb (Nat.eqb (_id m)) ids) eqn:Hex; rewrite ?upd_id;
    destruct (Nat.eqb (_id m) j); simpl; rewrite ?Hex; auto.
Qed.

Lemma Forall_ids_updateMany n ids coll :
  Forall (λ m, (_id m < n)%nat) coll →
  Forall (λ m, (_id m < n)%nat) (updateMany ids upd coll).
Proof.
  unfold updateMany. induction 1 as [|m coll Hlt _ IH]; simpl; constructor; auto.
  by destruct (existsb _ ids); rewrite ?upd_id.
Qed.

End UpdateMany.

Lemma updateMany_nil upd coll : updateMany [] upd coll = coll.
Proof.
  unfold updateMany. rewrite <- (List.map_id coll) at 2. by apply List.map_ext.
Qed.

(** ** State equations of the handlers *)

Lemma with_privateMessageModel_id st :
  with_privateMessageModel (privateMessageModel st) st = st.
Proof. by destruct st. Qed.

Lemma with_typingUsers_id st : with_typingUsers (typingUsers st) st = st.
Proof. by destruct st. Qed.

Lemma deliver_and_echo_fst env c m st :
  fst (deliver_and_echo env c m st)
  = with_privateMessageModel (delivered_store (now env) m st) st.
Proof.
  unfold deliver_and_echo, delivered_store.
  destruct (socket_of (receiver m) st); simpl; [done|].
  by rewrite with_privateMessageModel_id.
Qed.

Lemma handleStopTyping_fst c to st :
  fst (handleStopTyping c to st)
  = with_typingUsers (stopped (username c) to (typingUsers st)) st.
Proof.
  unfold handleStopTyping, stopped.
  destruct (typingUsers st !! username c) eqn:E; simpl.
  - unfold socket_of; simpl. by destruct (when_truthy _).
  - rewrite with_typingUsers_id. by destruct (socket_of to st).
Qed.

Lemma handleStopTyping_snd c to st :
  snd (handleStopTyping c to st)
  = match socket_of to st with
    | Some s => [server_to_emit s (userStoppedTyping (username c))]
    | None => []
    end.
Proof.
  unfold handleStopTyping.
  destruct (typingUsers st !! username c); unfold socket_of; simpl;
    by destruct (when_truthy _).
Qed.

Lemma handlePrivateMessage_invalid env c to text st :
  validate (new_PrivateMessage (nextObjectId st) (now env) (username c) to text
              None None None None) = false →
  handlePrivateMessage env c to text st = (with_nextObjectId (S (nextObjectId st)) st, []).
Proof. intros Hv. unfold handlePrivateMessage. by rewrite Hv. Qed.

Lemma handlePrivateMessage_fst env c to text st :
  let m := new_PrivateMessage (nextObjectId st) (now env) (username c) to text
             None None None None in
  let st0 := with_nextObjectId (S (nextObjectId st)) st in
  let st1 := with_privateMessageModel (save m (privateMessageModel st)) st0 in
  fst (handlePrivateMessage env c to text st)
  = if validate m
    then with_typingUsers (stopped (username c) to (typingUsers st))
           (with_privateMessageModel (delivered_store (now env) m st1) st1)
    else st0.
Proof.
  intros m st0 st1. unfold handlePrivateMessage. fold m.
  destruct (validate m); [| done].
  change (deliver_and_echo env c _ _) with (deliver_and_echo env c m st1).
  destruct (deliver_and_echo env c m st1) as [st2 out] eqn:Hd.
  apply (f_equal fst) in Hd. rewrite deliver_and_echo_fst in Hd. simpl in Hd.
  destruct (handleStopTyping c to st2) as [st3 out'] eqn:Hs.
  apply (f_equal fst) in Hs. rewrite handleStopTyping_fst in Hs. simpl in *.
  by subst.
Qed.

Lemma handlePrivateMessage_snd env c to text st :
  let m := new_PrivateMessage (nextObjectId st) (now env) (username c) to text
             None None None None in
  snd (handlePrivateMessage env c to text st)
  = if validate m
    then match socket_of to st with
         | Some s =>
             [server_to_emit s (newPrivateMessage m);
              client_emit (id c) (messageDelivered (_id m));
              client_emit (id c) (newPrivateMessage (set_delivered (now env) m));
              server_to_emit s (userStoppedTyping (username c))]
         | None => [client_emit (id c) (newPrivateMessage m)]
         end
    else [].
Proof.
  intros m. unfold handlePrivateMessage. fold m.
  destruct (validate m); [| done].
  set (st1 := with_privateMessageModel _ _).
  change (deliver_and_echo env c _ st1) with (deliver_and_echo env c m st1).
  destruct (deliver_and_echo env c m st1) as [st2 out] eqn:Hd.
  pose proof (f_equal fst Hd) as Hd1. rewrite deliver_and_echo_fst in Hd1.
  apply (f_equal snd) in Hd. simpl in Hd, Hd1.
  destruct (handleStopTyping c to st2) as [st3 out'] eqn:Hs.
  apply (f_equal snd) in Hs. rewrite handleStopTyping_snd in Hs. simpl in *.
  subst out out' st2. unfold deliver_and_echo.
  change (socket_of (receiver m) st1) with (socket_of to st).
  change (socket_of to (with_privateMessageModel _ st1)) with (socket_of to st).
  by destruct (socket_of to st).
Qed.

Lemma truthy_spec s : truthy s = true ↔ s ≠ "".
Proof.
  unfold truthy. destruct (String.eqb_spec s ""); simpl; split; intros; congruence.
Qed.

Lemma validate_new_PrivateMessage oid t from to text url name type size :
  validate (new_PrivateMessage oid t from to text url name type size) = true
  ↔ from ≠ "" ∧ to ≠ "" ∧ text ≠ "".
Proof.
  unfold validate. simpl. rewrite !Bool.andb_true_iff, !truthy_spec. tauto.
Qed.

(** ** Lemmas on arrays with holes *)

Lemma count_le_length (a : JsArray Buffer) :
  (length (filter_Boolean a) ≤ length a)%nat.
Proof.
  unfold filter_Boolean. induction a as [|[b|] a IH]; csimpl; lia.
Qed.

Lemma omap_replicate_None (k : nat) :
  omap Datatypes.id (replicate k (@None Buffer)) = [].
Proof. induction k; csimpl; auto. Qed.

Lemma populated_lt (a : JsArray Buffer) i : populated a i → (i < length a)%nat.
Proof. intros [b Hb]. by apply lookup_lt_Some in Hb. Qed.

Lemma count_insert_hole (a : JsArray Buffer) n v :
  a !! n = Some None →
  length (filter_Boolean (<[n := Some v]> a)) = S (length (filter_Boolean a)).
Proof.
  unfold filter_Boolean. revert n. induction a as [|x a IH]; intros [|n]; csimpl; try done.
  - by intros [= ->].
  - intros Hn. specialize (IH n Hn).
    destruct x; csimpl in *; first [exact IH | exact (f_equal S IH)].
Qed.

Lemma count_insert_populated (a : JsArray Buffer) n v b :
  a !! n = Some (Some b) →
  length (filter_Boolean (<[n := Some v]> a)) = length (filter_Boolean a).
Proof.
  unfold filter_Boolean. revert n. induction a as [|x a IH]; intros [|n]; csimpl; try done.
  - by intros [= ->].
  - intros Hn. specialize (IH n Hn).
    destruct x; csimpl in *; first [exact IH | exact (f_equal S IH)].
Qed.

Lemma count_array_assign_new (a : JsArray Buffer) i v :
  array_index i → ¬ populated a (Z.to_nat i) →
  length (filter_Boolean (array_assign a i v)) = S (length (filter_Boolean a)).
Proof.
  intros Hi Hnot. unfold array_assign.
  destruct (decide (array_index i)); [| done].
  destruct (decide (Z.to_nat i < length a)%nat) as [Hlt|Hge].
  - destruct (a !! Z.to_nat i) as [[b|]|] eqn:E.
    + exfalso. apply Hnot. by exists b.
    + by apply count_insert_hole.
    + apply lookup_ge_None in E. lia.
  - unfold filter_Boolean. rewrite !omap_app, omap_replicate_None. csimpl.
    rewrite length_app. csimpl. lia.
Qed.

Lemma count_array_assign_old (a : JsArray Buffer) i v :
  array_index i → populated a (Z.to_nat i) →
  length (filter_Boolean (array_assign a i v)) = length (filter_Boolean a).
Proof.
  intros Hi [b Hb]. unfold array_assign.
  destruct (decide (array_index i)); [| done].
  pose proof (lookup_lt_Some _ _ _ Hb).
  destruct (decide (Z.to_nat i < length a)%nat); [| lia].
  by eapply count_insert_populated.
Qed.

Lemma length_array_assign (a : JsArray Buffer) i v :
  array_index i →
  length (array_assign a i v) = Nat.max (length a) (S (Z.to_nat i)).
Proof.
  intros Hi. unfold array_assign.
  destruct (decide (array_index i)); [| done].
  destruct (decide (Z.to_nat i < length a)%nat).
  - rewrite length_insert. lia.
  - rewrite !length_app, length_replicate. simpl. lia.
Qed.

Lemma array_assign_property (a : JsArray Buffer) i v :
  ¬ array_index i → array_assign a i v = a.
Proof. intros Hi. unfold array_assign. by destruct (decide (array_index i)). Qed.

Lemma populated_array_assign_eq (a : JsArray Buffer) i v :
  array_index i → populated (array_assign a i v) (Z.to_nat i).
Proof.
  intros Hi. exists v. unfold array_assign.
  destruct (decide (array_index i)); [| done].
  destruct (decide (Z.to_nat i < length a)%nat).
  - by apply list_lookup_insert_eq.
  - rewrite lookup_app_r by lia. rewrite lookup_app_r by (rewrite length_replicate; lia).
    rewrite length_replicate.
    replace (Z.to_nat i - length a - (Z.to_nat i - length a))%nat with 0%nat by lia.
    done.
Qed.

Lemma populated_array_assign_ne (a : JsArray Buffer) i v j :
  (array_index i → j ≠ Z.to_nat i) →
  populated (array_assign a i v) j ↔ populated a j.
Proof.
  intros Hne. unfold array_assign, populated.
  destruct (decide (array_index i)) as [Hi|]; [| done].
  specialize (Hne Hi).
  destruct (decide (Z.to_nat i < length a)%nat).
  - by rewrite list_lookup_insert_ne.
  - destruct (decide (j < length a)%nat).
    + by rewrite lookup_app_l.
    + split.
      * intros [b Hb]. rewrite lookup_app_r in Hb by lia.
        destruct (decide (j - length a < Z.to_nat i - length a)%nat).
        -- rewrite lookup_app_l in Hb by (rewrite length_replicate; lia).
           apply lookup_replicate in Hb as [? _]. done.
        -- rewrite lookup_app_r in Hb by (rewrite length_replicate; lia).
           rewrite length_replicate in Hb.
           destruct (j - length a - (Z.to_nat i - length a))%nat eqn:E; [lia | done].
      * intros [b Hb]. apply lookup_lt_Some in Hb. lia.
Qed.

Lemma Buffer_concat_full (a : JsArray Buffer) :
  length (filter_Boolean a) = length a → ∃ data, Buffer_concat a = inr data.
Proof.
  unfold Buffer_concat, filter_Boolean. induction a as [|[b|] a IH]; csimpl; intros Hlen.
  - eauto.
  - destruct IH as [data Hdata]; [lia|].
    destruct (mapM Datatypes.id a) eqn:E; [| done]. csimpl. eauto.
  - pose proof (count_le_length a). unfold filter_Boolean in *. lia.
Qed.

Lemma Buffer_concat_inr (a : JsArray Buffer) data :
  Buffer_concat a = inr data →
  length (filter_Boolean a) = length a ∧ ∀ i, (i < length a)%nat → populated a i.
Proof.
  unfold Buffer_concat, filter_Boolean, populated. revert data.
  induction a as [|[b|] a IH]; csimpl; intros data Hc.
  - split; [done | intros; lia].
  - destruct (mapM Datatypes.id a) eqn:E; [| done]. csimpl in Hc.
    destruct (IH _ eq_refl) as [Hlen Hpop].
    split; [by rewrite Hlen|].
    intros [|i] Hi; simpl; [eauto | apply Hpop; lia].
  - done.
Qed.

(** ** The three outcomes of an upload chunk on a live session *)

Lemma decode_chunk_decodes `{Platform} chunk :
  decodes chunk = true → ∃ data, decode_chunk chunk = inr data.
Proof.
  unfold decodes, decode_chunk. destruct (split "," chunk !! 1%nat); [eauto | done].
Qed.

Lemma validate_file_message e c p oid :
  validate (file_message e c p oid) = truthy (username c) && truthy (p_receiver p).
Proof. unfold validate, file_message. simpl. apply Bool.andb_true_r. Qed.

Section UploadChunk.
Context `{Platform}.
Variables (e : Env) (c : Socket) (p : UploadChunkPayload).

Lemma uploadChunk_assemble_unknown st :
  tempUploads st !! p_uploadId p = None →
  uploadChunk_assemble e p st = (st, thrown (Error "Upload session not found")).
Proof. intros Hu. unfold uploadChunk_assemble. by rewrite Hu. Qed.

Lemma uploadChunk_assemble_undecoded st upload ex :
  tempUploads st !! p_uploadId p = Some upload →
  decode_chunk (p_chunk p) = inl ex →
  uploadChunk_assemble e p st = (st, thrown ex).
Proof. intros Hu Hd. unfold uploadChunk_assemble. by rewrite Hu, Hd. Qed.

Lemma uploadChunk_assemble_counting st upload data :
  tempUploads st !! p_uploadId p = Some upload →
  decode_chunk (p_chunk p) = inr data →
  Z.of_nat (length (filter_Boolean (chunks (stored p data upload)))) ≠ totalChunks upload →
  uploadChunk_assemble e p st = (accumulated p data upload st, incomplete).
Proof.
  intros Hu Hd Hcount. unfold uploadChunk_assemble.
  rewrite Hu, Hd. simpl in *.
  destruct (decide _) as [Heq|_]; [done | done].
Qed.

Lemma uploadChunk_assemble_holes st upload data ex :
  tempUploads st !! p_uploadId p = Some upload →
  decode_chunk (p_chunk p) = inr data →
  Z.of_nat (length (filter_Boolean (chunks (stored p data upload)))) = totalChunks upload →
  Buffer_concat (chunks (stored p data upload)) = inl ex →
  uploadChunk_assemble e p st = (accumulated p data upload st, thrown ex).
Proof.
  intros Hu Hd Hcount Hc. unfold uploadChunk_assemble.
  rewrite Hu, Hd. simpl in *.
  destruct (decide _) as [_|Hne]; [| done]. by rewrite Hc.
Qed.

Lemma uploadChunk_assemble_full st upload data fileData :
  tempUploads st !! p_uploadId p = Some upload →
  decode_chunk (p_chunk p) = inr data →
  Z.of_nat (length (filter_Boolean (chunks (stored p data upload)))) = totalChunks upload →
  Buffer_concat (chunks (stored p data upload)) = inr fileData →
  uploadChunk_assemble e p st
  = (accumulated p data upload st, assembled (file_name e p) fileData).
Proof.
  intros Hu Hd Hcount Hc. unfold uploadChunk_assemble.
  rewrite Hu, Hd. simpl in *.
  destruct (decide _) as [_|Hne]; [| done]. by rewrite Hc.
Qed.

Lemma uploadChunk_finish_unwritten fileData st :
  fs_writeFile (file_name e p) fileData = false →
  uploadChunk_finish e c p (file_name e p) fileData st = (st, [], Some SystemError).
Proof. intros Hw. unfold uploadChunk_finish. by rewrite Hw. Qed.

Lemma uploadChunk_finish_unsaved fileData st :
  fs_writeFile (file_name e p) fileData = true →
  truthy (username c) && truthy (p_receiver p) = false →
  uploadChunk_finish e c p (file_name e p) fileData st
  = (unsaved e p fileData st, [], Some ValidationError).
Proof.
  intros Hw Hv. unfold uploadChunk_finish. rewrite Hw.
  change (new_PrivateMessage _ _ _ _ _ _ _ _ _) with (file_message e c p (nextObjectId st)).
  by rewrite validate_file_message, Hv.
Qed.

(** The state the second part leaves when the file is written and the
    message is stored, from the state [st] it is resumed in. *)
Lemma uploadChunk_finish_stored fileData st :
  fs_writeFile (file_name e p) fileData = true →
  truthy (username c) && truthy (p_receiver p) = true →
  fst (fst (uploadChunk_finish e c p (file_name e p) fileData st))
  = completed e c p fileData st
  ∧ snd (fst (uploadChunk_finish e c p (file_name e p) fileData st))
    = snd (deliver_and_echo e c (file_message e c p (nextObjectId st))
             (with_privateMessageModel
                (save (file_message e c p (nextObjectId st)) (privateMessageModel st))
                (with_nextObjectId (S (nextObjectId st))
                   (with_uploadDir (<[file_name e p := fileData]> (uploadDir st)) st))))
      ++ [chunk_received c p]
  ∧ snd (uploadChunk_finish e c p (file_name e p) fileData st) = None.
Proof.
  intros Hw Hv. unfold uploadChunk_finish. rewrite Hw.
  change (new_PrivateMessage _ _ _ _ _ _ _ _ _) with (file_message e c p (nextObjectId st)).
  rewrite validate_file_message, Hv.
  match goal with
  | |- context [deliver_and_echo ?a ?b ?m ?s] =>
      pose proof (deliver_and_echo_fst a b m s) as Hde;
      assert (snd (deliver_and_echo a b m s)
              = snd (deliver_and_echo e c (file_message e c p (nextObjectId st))
                       (with_privateMessageModel
                          (save (file_message e c p (nextObjectId st))
                             (privateMessageModel st))
                          (with_nextObjectId (S (nextObjectId st))
                             (with_uploadDir (<[file_name e p := fileData]> (uploadDir st))
                                st))))) as Hsnd by reflexivity;
      destruct (deliver_and_echo a b m s) as [st2 out]
  end.
  simpl in Hde, Hsnd. simpl fst. simpl snd at 1 3. subst st2.
  split; [done|]. split; [by rewrite <- Hsnd | done].
Qed.

Lemma handleUploadChunk_unknown st :
  tempUploads st !! p_uploadId p = None →
  handleUploadChunk e c p st = (st, [upload_error c p]).
Proof.
  intros Hu. unfold handleUploadChunk, uploadChunk_try.
  by rewrite uploadChunk_assemble_unknown.
Qed.

Lemma handleUploadChunk_undecoded st upload ex :
  tempUploads st !! p_uploadId p = Some upload →
  decode_chunk (p_chunk p) = inl ex →
  handleUploadChunk e c p st = (st, [upload_error c p]).
Proof.
  intros Hu Hd. unfold handleUploadChunk, uploadChunk_try.
  by erewrite uploadChunk_assemble_undecoded.
Qed.

Lemma handleUploadChunk_counting st upload data :
  tempUploads st !! p_uploadId p = Some upload →
  decode_chunk (p_chunk p) = inr data →
  Z.of_nat (length (filter_Boolean (chunks (stored p data upload)))) ≠ totalChunks upload →
  handleUploadChunk e c p st
  = (accumulated p data upload st,
     [client_emit (id c) (chunkReceived (p_uploadId p) (p_chunkIndex p))]).
Proof.
  intros Hu Hd Hcount. unfold handleUploadChunk, uploadChunk_try.
  by erewrite uploadChunk_assemble_counting.
Qed.

Lemma handleUploadChunk_holes st upload data ex :
  tempUploads st !! p_uploadId p = Some upload →
  decode_chunk (p_chunk p) = inr data →
  Z.of_nat (length (filter_Boolean (chunks (stored p data upload)))) = totalChunks upload →
  Buffer_concat (chunks (stored p data upload)) = inl ex →
  handleUploadChunk e c p st = (accumulated p data upload st, [upload_error c p]).
Proof.
  intros Hu Hd Hcount Hc. unfold handleUploadChunk, uploadChunk_try.
  by erewrite uploadChunk_assemble_holes.
Qed.

Lemma handleUploadChunk_unwritten st upload data fileData :
  tempUploads st !! p_uploadId p = Some upload →
  decode_chunk (p_chunk p) = inr data →
  Z.of_nat (length (filter_Boolean (chunks (stored p data upload)))) = totalChunks upload →
  Buffer_concat (chunks (stored p data upload)) = inr fileData →
  fs_writeFile (file_name e p) fileData = false →
  handleUploadChunk e c p st = (accumulated p data upload st, [upload_error c p]).
Proof.
  intros Hu Hd Hcount Hc Hw. unfold handleUploadChunk, uploadChunk_try.
  erewrite uploadChunk_assemble_full by done.
  by rewrite uploadChunk_finish_unwritten.
Qed.

Lemma handleUploadChunk_unsaved st upload data fileData :
  tempUploads st !! p_uploadId p = Some upload →
  decode_chunk (p_chunk p) = inr data →
  Z.of_nat (length (filter_Boolean (chunks (stored p data upload)))) = totalChunks upload →
  Buffer_concat (chunks (stored p data upload)) = inr fileData →
  fs_writeFile (file_name e p) fileData = true →
  truthy (username c) && truthy (p_receiver p) = false →
  handleUploadChunk e c p st
  = (unsaved e p fileData (accumulated p data upload st), [upload_error c p]).
Proof.
  intros Hu Hd Hcount Hc Hw Hv. unfold handleUploadChunk, uploadChunk_try.
  erewrite uploadChunk_assemble_full by done.
  by rewrite uploadChunk_finish_unsaved.
Qed.

Lemma handleUploadChunk_completes st upload data fileData :
  tempUploads st !! p_uploadId p = Some upload →
  decode_chunk (p_chunk p) = inr data →
  Z.of_nat (length (filter_Boolean (chunks (stored p data upload)))) = totalChunks upload →
  Buffer_concat (chunks (stored p data upload)) = inr fileData →
  fs_writeFile (file_name e p) fileData = true →
  truthy (username c) && truthy (p_receiver p) = true →
  fst (handleUploadChunk e c p st) = completed e c p fileData st.
Proof.
  intros Hu Hd Hcount Hc Hw Hv. unfold handleUploadChunk, uploadChunk_try.
  erewrite uploadChunk_assemble_full by done.
  destruct (uploadChunk_finish_stored fileData (accumulated p data upload st) Hw Hv)
    as (Hst & _ & Hex).
  destruct (uploadChunk_finish _ _ _ _ _ _) as [[st2 out] ex]. simpl in *. subst.
  unfold completed, accumulated, with_tempUploads. simpl.
  f_equal. by rewrite delete_insert_eq.
Qed.

(** The actions of an upload chunk: the error, the acknowledgement, or the
    delivery of the file message followed by the acknowledgement. *)
Lemma handleUploadChunk_actions st :
  snd (handleUploadChunk e c p st) = [upload_error c p]
  ∨ snd (handleUploadChunk e c p st) = [chunk_received c p]
  ∨ ∃ m st1, snd (handleUploadChunk e c p st)
             = snd (deliver_and_echo e c m st1) ++ [chunk_received c p].
Proof.
  unfold handleUploadChunk, uploadChunk_try, uploadChunk_assemble.
  destruct (tempUploads st !! p_uploadId p) as [upload|]; [| by left].
  destruct (decode_chunk (p_chunk p)) as [ex|data]; [by left|].
  destruct (decide _); [| right; by left].
  destruct (Buffer_concat _) as [ex|fileData]; [by left|].
  unfold uploadChunk_finish.
  destruct (fs_writeFile _ _); [| by left].
  destruct (validate _); [| by left].
  right. right.
  match goal with
  | |- context [deliver_and_echo ?a ?b ?m ?s] =>
      exists m, s; destruct (deliver_and_echo a b m s) as [st2 out]
  end.
  done.
Qed.

End UploadChunk.

(** ** More state equations *)

Lemma handleGetPrivateMessages_fst env c other st :
  fst (handleGetPrivateMessages env c other st)
  = with_privateMessageModel
      (updateMany (List.map _id (unread_for (username c) other (privateMessageModel st)))
         (set_delivered (now env)) (privateMessageModel st)) st.
Proof.
  unfold handleGetPrivateMessages. fold (unread_for (username c) other (privateMessageModel st)).
  destruct (unread_for _ _ _) as [|m l] eqn:E; simpl; [| done].
  by rewrite updateMany_nil, with_privateMessageModel_id.
Qed.

Lemma handleGetPrivateMessages_snd env c other st :
  snd (handleGetPrivateMessages env c other st)
  = flat_map (λ msg, match socket_of (sender msg) st with
                     | Some s => [server_to_emit s (messageDelivered (_id msg))]
                     | None => []
                     end) (unread_for (username c) other (privateMessageModel st))
    ++ [client_emit (id c)
          (privateMessages (find_conversation (username c) other (privateMessageModel st)))].
Proof.
  unfold handleGetPrivateMessages. fold (unread_for (username c) other (privateMessageModel st)).
  destruct (unread_for _ _ _) as [|m l] eqn:E; simpl; done.
Qed.

Lemma handleMarkMessageAsRead_fst env c oid st :
  fst (handleMarkMessageAsRead env c oid st)
  = match findById oid (privateMessageModel st) with
    | Some m =>
        if String.eqb (receiver m) (username c)
        then with_privateMessageModel (save (set_read (now env) m) (privateMessageModel st)) st
        else st
    | None => st
    end.
Proof.
  unfold handleMarkMessageAsRead.
  destruct (findById oid _) as [m|]; [| done].
  destruct (String.eqb _ _); [| done].
  by destruct (socket_of _ _).
Qed.

Lemma handleTyping_fields c to st :
  let st' := fst (handleTyping c to st) in
  connectedUsers st' = connectedUsers st
  ∧ privateMessageModel st' = privateMessageModel st
  ∧ nextObjectId st' = nextObjectId st
  ∧ tempUploads st' = tempUploads st
  ∧ uploadDir st' = uploadDir st.
Proof.
  unfold handleTyping.
  destruct (typingUsers st !! username c) eqn:E; simpl.
  - rewrite E. unfold socket_of. simpl. by destruct (when_truthy _).
  - rewrite lookup_insert_eq. unfold socket_of. simpl. by destruct (when_truthy _).
Qed.

(** ** Well-formedness is invariant *)

Lemma wf_initial users : wf (initial users).
Proof. repeat split; simpl; constructor. Qed.

Lemma Forall_lt_S (coll : list PrivateMessage) n :
  Forall (λ m, (_id m < n)%nat) coll → Forall (λ m, (_id m < S n)%nat) coll.
Proof. intros Hall. eapply List.Forall_impl; [| exact Hall]. simpl. intros; lia. Qed.

Lemma wf_delivered_store t m st coll n :
  List.NoDup (List.map _id coll) →
  Forall (λ x, (_id x < n)%nat) coll →
  (_id m < n)%nat →
  let st1 := with_privateMessageModel coll (with_nextObjectId n st) in
  List.NoDup (List.map _id (delivered_store t m st1))
  ∧ Forall (λ x, (_id x < n)%nat) (delivered_store t m st1).
Proof.
  intros Hnd Hall Hlt st1. unfold delivered_store.
  destruct (socket_of _ _); simpl; [| done].
  split; [by apply NoDup_ids_save | by apply Forall_save].
Qed.

Lemma wf_completed e c p fileData st : wf st → wf (completed e c p fileData st).
Proof.
  intros (Hreg & Hnd & Hall). unfold completed.
  set (m := file_message e c p (nextObjectId st)).
  edestruct (wf_delivered_store (now e) m
               (with_uploadDir
                  (<[pretty (now e) +:+ "-" +:+ sanitize (p_fileName p) := fileData]>
                     (uploadDir st)) st)
               (save m (privateMessageModel st)) (S (nextObjectId st)))
    as [Hnd' Hall'].
  - by apply NoDup_ids_save.
  - apply Forall_save; [by apply Forall_lt_S | simpl; lia].
  - simpl; lia.
  - repeat split; simpl; [done | apply Hnd' | apply Hall'].
Qed.

Lemma wf_handleUploadChunk `{Platform} e c p st :
  wf st → wf (fst (handleUploadChunk e c p st)).
Proof.
  intros Hwf.
  destruct (tempUploads st !! p_uploadId p) as [upload|] eqn:Hu;
    [| by rewrite handleUploadChunk_unknown].
  destruct (decode_chunk (p_chunk p)) as [ex|data] eqn:Hd;
    [by erewrite handleUploadChunk_undecoded|].
  destruct (decide (Z.of_nat (length (filter_Boolean (chunks (stored p data upload))))
                    = totalChunks upload)) as [Hc|Hc];
    [| by erewrite handleUploadChunk_counting].
  destruct (Buffer_concat (chunks (stored p data upload))) as [ex|fileData] eqn:Hb;
    [by erewrite handleUploadChunk_holes|].
  destruct (fs_writeFile (file_name e p) fileData) eqn:Hw;
    [| by erewrite handleUploadChunk_unwritten].
  destruct (truthy (username c) && truthy (p_receiver p)) eqn:Hv.
  - erewrite handleUploadChunk_completes by done. by apply wf_completed.
  - erewrite handleUploadChunk_unsaved by done.
    destruct Hwf as (Hreg & Hnd & Hall).
    repeat split; simpl; [done | done | by apply Forall_lt_S].
Qed.

Lemma wf_handle `{Platform} i st : wf st → wf (fst (handle i st)).
Proof.
  intros Hwf. pose proof Hwf as (Hreg & Hnd & Hall).
  unfold handle. destruct (event i) as
    [ | |room|room|room content|to text|oid|other|query|to|to|total|payload|uploadId].
  - repeat split; simpl; [by apply NoDup_keys_Map_set | done | done].
  - unfold handleDisconnect. destruct (when_truthy _); [| done].
    repeat split; simpl; [by apply NoDup_keys_Map_delete | done | done].
  - done.
  - done.
  - repeat split; simpl; [done | done | by apply Forall_lt_S].
  - rewrite handlePrivateMessage_fst.
    set (m := new_PrivateMessage _ _ _ _ _ _ _ _ _).
    destruct (validate m);
      [| repeat split; simpl; [done | done | by apply Forall_lt_S]].
    edestruct (wf_delivered_store (now (env i)) m st
                 (save m (privateMessageModel st)) (S (nextObjectId st)))
      as [Hnd' Hall'].
    + by apply NoDup_ids_save.
    + apply Forall_save; [by apply Forall_lt_S | simpl; lia].
    + simpl; lia.
    + repeat split; simpl; [done | apply Hnd' | apply Hall'].
  - rewrite handleMarkMessageAsRead_fst.
    destruct (findById oid _) as [m|] eqn:Hf; [| done].
    destruct (String.eqb _ _); [| done].
    apply findById_Some in Hf as [Hin Hid].
    repeat split; simpl; [done | by apply NoDup_ids_save |].
    apply Forall_save; [done|]. simpl.
    rewrite List.Forall_forall in Hall. by apply Hall.
  - rewrite handleGetPrivateMessages_fst.
    repeat split; simpl; [done | |].
    + by rewrite ids_updateMany.
    + by apply Forall_ids_updateMany.
  - unfold handleSearchUsers. by destruct (regex_i query).
  - destruct (handleTyping_fields (client i) to st) as (E1 & E2 & E3 & _).
    unfold wf. by rewrite E1, E2, E3.
  - by rewrite handleStopTyping_fst.
  - done.
  - by apply wf_handleUploadChunk.
  - done.
Qed.

Lemma run_app `{Platform} evs evs' st :
  run (evs ++ evs') st
  = (fst (run evs' (fst (run evs st))), snd (run evs st) ++ snd (run evs' (fst (run evs st)))).
Proof.
  revert st. induction evs as [|i evs IH]; intros st; simpl.
  - by destruct (run evs' st).
  - destruct (handle i st) as [st1 out1]. rewrite IH.
    destruct (run evs st1) as [st2 out2]. simpl.
    by rewrite app_assoc.
Qed.

Lemma wf_run `{Platform} evs st : wf st → wf (fst (run evs st)).
Proof.
  revert st. induction evs as [|i evs IH]; intros st Hwf; simpl; [done|].
  pose proof (wf_handle i st Hwf) as Hwf'.
  destruct (handle i st) as [st1 out1]. specialize (IH st1 Hwf').
  by destruct (run evs st1).
Qed.

(** ** Presence registry *)

(** C9: after any sequence of inbound events (registrations and
    unregistrations among them), the connection found for a username is
    registered to that very username. *)
Theorem registry_lookups_consistent `{Platform} (users : list Doc)
    (evs : list Inbound) (u s : string) :
  let st := fst (run evs (initial users)) in
  find_key_of_value u (connectedUsers st) = Some s →
  Map_get s (connectedUsers st) = Some u.
Proof.
  intros st Hfind.
  destruct (wf_run evs (initial users) (wf_initial users)) as (Hreg & _).
  apply Map_get_In; [exact Hreg|]. by apply find_key_of_value_In.
Qed.

Lemma registry_lookups_consistent_witness :
  Map_get "s2"
    (connectedUsers
       (fst (@run sample_platform
               [at_time 1 alice connection; at_time 2 bob connection;
                at_time 3 alice disconnect] (initial []))))
  = Some "bob".
Proof.
  apply (@registry_lookups_consistent sample_platform [] _ "bob" "s2").
  vm_compute. reflexivity.
Defined.

(** C2, as stated, fails: a second connection of a user is registered next
    to the first one, and the lookup by username still finds the first. *)
Lemma second_connection_coexists :
  let st := fst (@run sample_platform
                   [at_time 1 bob connection; at_time 2 bob_again connection]
                   (initial [])) in
  connections_of "bob" st = ["s2"; "s3"]
  ∧ find_key_of_value "bob" (connectedUsers st) = Some "s2"
  ∧ ¬ one_connection_per_username st.
Proof.
  split; [reflexivity|]. split; [reflexivity|].
  intros Hone. specialize (Hone "bob"). vm_compute in Hone. lia.
Qed.

(** C2, amended: registering never fails; it records the connection under
    its username, leaves every other connection's entry as it was (an older
    connection of the same user included), and the registry keeps one entry
    per connection identity. *)
Theorem register_keeps_other_connections (e : Env) (c : Socket) (st : State) :
  List.NoDup (List.map fst (connectedUsers st)) →
  let st' := fst (handleConnection e c st) in
  Map_get (id c) (connectedUsers st') = Some (username c)
  ∧ (∀ s, s ≠ id c → Map_get s (connectedUsers st') = Map_get s (connectedUsers st))
  ∧ List.NoDup (List.map fst (connectedUsers st')).
Proof.
  intros Hnd st'. subst st'. simpl. split; [apply Map_get_set_eq|].
  split; [| by apply NoDup_keys_Map_set].
  intros s Hs. by apply Map_get_set_ne.
Qed.

Lemma register_keeps_other_connections_witness :
  let st := fst (handleConnection {| now := 1; random_tail := "" |} bob (initial [])) in
  let st' := fst (handleConnection {| now := 2; random_tail := "" |} bob_again st) in
  Map_get "s3" (connectedUsers st') = Some "bob"
  ∧ (∀ s, s ≠ "s3" → Map_get s (connectedUsers st') = Map_get s (connectedUsers st))
  ∧ List.NoDup (List.map fst (connectedUsers st')).
Proof.
  apply (register_keeps_other_connections {| now := 2; random_tail := "" |} bob_again).
  simpl. constructor; [simpl; tauto | constructor].
Defined.

(** Every upload chunk ends in one of four ways: nothing happened, the
    chunk was stored, the file was written and the message refused, or the
    session was completed. *)
Lemma handleUploadChunk_outcome `{Platform} e c p st :
  fst (handleUploadChunk e c p st) = st
  ∨ ∃ upload data,
      tempUploads st !! p_uploadId p = Some upload
      ∧ decode_chunk (p_chunk p) = inr data
      ∧ ((fst (handleUploadChunk e c p st) = accumulated p data upload st
          ∧ (Z.of_nat (length (filter_Boolean (chunks (stored p data upload))))
               ≠ totalChunks upload
             ∨ (∃ ex, Buffer_concat (chunks (stored p data upload)) = inl ex)
             ∨ ∃ fileData, Buffer_concat (chunks (stored p data upload)) = inr fileData
                           ∧ fs_writeFile (file_name e p) fileData = false))
         ∨ (∃ fileData,
             Z.of_nat (length (filter_Boolean (chunks (stored p data upload))))
               = totalChunks upload
             ∧ Buffer_concat (chunks (stored p data upload)) = inr fileData
             ∧ fst (handleUploadChunk e c p st)
               = unsaved e p fileData (accumulated p data upload st))
         ∨ ∃ fileData,
             Z.of_nat (length (filter_Boolean (chunks (stored p data upload))))
               = totalChunks upload
             ∧ Buffer_concat (chunks (stored p data upload)) = inr fileData
             ∧ fst (handleUploadChunk e c p st) = completed e c p fileData st).
Proof.
  destruct (tempUploads st !! p_uploadId p) as [upload|] eqn:Hu;
    [| left; by rewrite handleUploadChunk_unknown].
  destruct (decode_chunk (p_chunk p)) as [ex|data] eqn:Hd;
    [left; by erewrite handleUploadChunk_undecoded|].
  right. exists upload, data. split; [done|]. split; [done|].
  destruct (decide (Z.of_nat (length (filter_Boolean (chunks (stored p data upload))))
                    = totalChunks upload)) as [Hc|Hc].
  - destruct (Buffer_concat (chunks (stored p data upload))) as [ex|fileData] eqn:Hb.
    + left. erewrite handleUploadChunk_holes by done. eauto.
    + destruct (fs_writeFile (file_name e p) fileData) eqn:Hw.
      * destruct (truthy (username c) && truthy (p_receiver p)) eqn:Hv.
        -- right. right. exists fileData. by erewrite handleUploadChunk_completes.
        -- right. left. exists fileData. by erewrite handleUploadChunk_unsaved.
      * left. erewrite handleUploadChunk_unwritten by done. eauto 10.
  - left. erewrite handleUploadChunk_counting by done. eauto.
Qed.

(** ** Typing tracker *)

Lemma typing_to_stopped_inv u r from to st :
  typing_to from to st = true →
  typing_to from to (with_typingUsers (stopped u r (typingUsers st)) st) = false →
  u = from ∧ r = to.
Proof.
  unfold typing_to, stopped. simpl.
  destruct (typingUsers st !! u) as [set_u|] eqn:Hu; [| congruence].
  destruct (decide (u = from)) as [->|Hne].
  - rewrite Hu, lookup_insert_eq. intros Hin Hout.
    apply bool_decide_eq_true in Hin. apply bool_decide_eq_false in Hout.
    split; [done|]. destruct (decide (r = to)); [done|]. exfalso. set_solver.
  - rewrite lookup_insert_ne by done. congruence.
Qed.

Lemma typing_to_stopped u r st :
  typing_to u r (with_typingUsers (stopped u r (typingUsers st)) st) = false.
Proof.
  unfold typing_to, stopped. simpl.
  destruct (typingUsers st !! u) as [set_u|] eqn:Hu; [| by rewrite Hu].
  rewrite lookup_insert_eq. apply bool_decide_eq_false. set_solver.
Qed.

Lemma typingUsers_handleUploadChunk `{Platform} e c p st :
  typingUsers (fst (handleUploadChunk e c p st)) = typingUsers st.
Proof.
  destruct (handleUploadChunk_outcome e c p st)
    as [->|(upload & data & _ & _ &
          [[-> _]|[(fileData & _ & _ & ->)|(fileData & _ & _ & ->)]])]; done.
Qed.

Lemma typing_to_same from to st st' :
  typingUsers st' = typingUsers st → typing_to from to st' = typing_to from to st.
Proof. unfold typing_to. by intros ->. Qed.

(** C7, as stated, fails: alice connects and starts typing to bob; her
    disconnect, which is neither a stop-typing nor a message, removes the
    relation. *)
Lemma disconnect_clears_typing :
  let st := fst (@run sample_platform
                   [at_time 1 alice connection; at_time 2 alice (typing "bob")]
                   (initial [])) in
  let i := at_time 3 alice disconnect in
  typing_to "alice" "bob" st = true
  ∧ typing_to "alice" "bob" (fst (@handle sample_platform i st)) = false
  ∧ ¬ @removed_only_by_stop_or_send sample_platform.
Proof.
  intros st i. split; [reflexivity|]. split; [reflexivity|].
  intros Hclaim.
  destruct (Hclaim st i "alice" "bob") as [_ [Hev|[text Hev]]].
  - apply (@wf_run sample_platform), wf_initial.
  - reflexivity.
  - reflexivity.
  - discriminate Hev.
  - discriminate Hev.
Qed.

(** C7, amended: the relation from a sender to a recipient is removed only
    by that sender's stop-typing for the recipient, by that sender's private
    message to the recipient, by a connection of the sender (which resets
    the sender's set), or by the disconnect of a connection registered to
    the sender; a private message whose sender, recipient and content are
    not empty (one that the store accepts) clears the sender's relation to
    its recipient and, when the recipient has a socket, ends with a
    user-stopped-typing notification to it; a private message with an empty
    sender, recipient or content is refused, changes no typing relation and
    notifies nobody. *)
Theorem typing_removed_only_by `{Platform} :
  (∀ st i from to,
     typing_to from to st = true →
     typing_to from to (fst (handle i st)) = false →
     (username (client i) = from
      ∧ (event i = stopTyping to
         ∨ (∃ text, event i = sendPrivateMessage to text)
         ∨ event i = connection))
     ∨ (event i = disconnect
        ∧ when_truthy (Map_get (id (client i)) (connectedUsers st)) = Some from))
  ∧ (∀ st e c to text,
       username c ≠ "" → to ≠ "" → text ≠ "" →
       let r := handlePrivateMessage e c to text st in
       typing_to (username c) to (fst r) = false
       ∧ ∀ s, socket_of to st = Some s →
              last (snd r) = Some (server_to_emit s (userStoppedTyping (username c))))
  ∧ (∀ st e c to text,
       username c = "" ∨ to = "" ∨ text = "" →
       let r := handlePrivateMessage e c to text st in
       typingUsers (fst r) = typingUsers st ∧ snd r = []).
Proof.
  split.
  - intros st i from to Hbefore Hafter. unfold handle in Hafter.
    destruct (event i) as
      [ | |room|room|room content|to' text|oid|other|query|to'|to'|total|payload|uploadId]
      eqn:Hev.
    + left. destruct (decide (username (client i) = from)) as [Heq|Hne]; [eauto|].
      exfalso. unfold typing_to in *. simpl in Hafter.
      rewrite lookup_insert_ne in Hafter by done. congruence.
    + right. split; [done|]. unfold handleDisconnect in Hafter.
      destruct (when_truthy _) as [u|]; [| simpl in Hafter; congruence].
      destruct (decide (u = from)) as [->|Hne]; [done|].
      exfalso. unfold typing_to in *. simpl in Hafter.
      rewrite lookup_delete_ne in Hafter by done. congruence.
    + simpl in Hafter. congruence.
    + simpl in Hafter. congruence.
    + simpl in Hafter. unfold typing_to in *. simpl in Hafter. congruence.
    + rewrite handlePrivateMessage_fst in Hafter.
      destruct (validate _); [| unfold typing_to in *; simpl in Hafter; congruence].
      left. unfold typing_to in Hbefore, Hafter. simpl in Hafter.
      destruct (typing_to_stopped_inv (username (client i)) to' from to st) as [-> ->];
        [exact Hbefore | exact Hafter | eauto].
    + rewrite handleMarkMessageAsRead_fst in Hafter.
      destruct (findById oid _) as [m|]; [| congruence].
      destruct (String.eqb _ _); [| congruence].
      unfold typing_to in *. simpl in Hafter. congruence.
    + rewrite handleGetPrivateMessages_fst in Hafter.
      unfold typing_to in *. simpl in Hafter. congruence.
    + unfold handleSearchUsers in Hafter. destruct (regex_i query); simpl in Hafter; congruence.
    + exfalso. unfold handleTyping, typing_to in *.
      destruct (typingUsers st !! username (client i)) as [set_u|] eqn:Hu; simpl in Hafter.
      * rewrite Hu in Hafter. unfold socket_of in Hafter. simpl in Hafter.
        destruct (when_truthy _); simpl in Hafter;
          (destruct (decide (username (client i) = from)) as [Heq|Hne];
           [ rewrite Heq in *; rewrite lookup_insert_eq in Hafter; rewrite Hu in Hbefore;
             apply bool_decide_eq_true in Hbefore; apply bool_decide_eq_false in Hafter;
             set_solver
           | rewrite lookup_insert_ne in Hafter by done; congruence ]).
      * rewrite lookup_insert_eq in Hafter. unfold socket_of in Hafter. simpl in Hafter.
        destruct (when_truthy _); simpl in Hafter;
          (destruct (decide (username (client i) = from)) as [Heq|Hne];
           [ rewrite Heq in *; rewrite Hu in Hbefore; congruence
           | rewrite !lookup_insert_ne in Hafter by done; congruence ]).
    + rewrite handleStopTyping_fst in Hafter. left.
      destruct (typing_to_stopped_inv (username (client i)) to' from to st) as [-> ->];
        [exact Hbefore | exact Hafter | eauto].
    + simpl in Hafter. unfold typing_to in *. simpl in Hafter. congruence.
    + erewrite typing_to_same in Hafter by apply typingUsers_handleUploadChunk.
      congruence.
    + simpl in Hafter. unfold typing_to in *. simpl in Hafter. congruence.
  - split.
    + intros st e c to text Hfrom Hto Htext r. subst r.
      assert (validate (new_PrivateMessage (nextObjectId st) (now e) (username c) to text
                          None None None None) = true) as Hv
        by by apply validate_new_PrivateMessage.
      split.
      * rewrite handlePrivateMessage_fst. simpl. rewrite Hv.
        set (st1 := with_privateMessageModel _ _).
        apply (typing_to_stopped (username c) to st1).
      * intros s Hs. rewrite handlePrivateMessage_snd. simpl. by rewrite Hv, Hs.
    + intros st e c to text Hempty r. subst r.
      rewrite handlePrivateMessage_invalid; [done|].
      apply Bool.not_true_is_false. rewrite validate_new_PrivateMessage.
      intros (? & ? & ?). destruct Hempty as [?|[?|?]]; done.
Qed.

Lemma typing_removed_only_by_witness :
  let st := fst (@run sample_platform
                   [at_time 1 alice connection; at_time 2 bob connection;
                    at_time 3 alice (typing "bob")] (initial [])) in
  let i := at_time 4 alice (sendPrivateMessage "bob" "hi") in
  ((username (client i) = "alice"
    ∧ (event i = stopTyping "bob"
       ∨ (∃ text, event i = sendPrivateMessage "bob" text)
       ∨ event i = connection))
   ∨ (event i = disconnect
      ∧ when_truthy (Map_get (id (client i)) (connectedUsers st)) = Some "alice"))
  ∧ typing_to "alice" "bob" (fst (handlePrivateMessage (env i) alice "bob" "hi" st)) = false
  ∧ last (snd (handlePrivateMessage (env i) alice "bob" "hi" st))
    = Some (server_to_emit "s2" (userStoppedTyping "alice"))
  ∧ typing_to "alice" "bob" (fst (handlePrivateMessage (env i) alice "bob" "" st)) = true
  ∧ snd (handlePrivateMessage (env i) alice "bob" "" st) = [].
Proof.
  intros st i. split; [| split; [| split; [| split]]].
  - apply (proj1 (@typing_removed_only_by sample_platform) st i "alice" "bob");
      vm_compute; reflexivity.
  - apply (proj1 (proj2 (@typing_removed_only_by sample_platform)) st (env i) alice
             "bob" "hi"); discriminate.
  - apply (proj1 (proj2 (@typing_removed_only_by sample_platform)) st (env i) alice
             "bob" "hi"); [discriminate | discriminate | discriminate |].
    vm_compute. reflexivity.
  - unfold typing_to.
    rewrite (proj1 (proj2 (proj2 (@typing_removed_only_by sample_platform)) st (env i)
                      alice "bob" "" (or_intror (or_intror eq_refl)))).
    vm_compute. reflexivity.
  - apply (proj2 (proj2 (@typing_removed_only_by sample_platform)) st (env i) alice
             "bob" ""). right. right. reflexivity.
Defined.

(** ** Delivery state machine *)

Lemma store_le_refl coll : store_le coll coll.
Proof. intros oid m Hm. eauto. Qed.

Lemma store_le_trans c1 c2 c3 : store_le c1 c2 → store_le c2 c3 → store_le c1 c3.
Proof.
  intros H12 H23 oid m Hm.
  destruct (H12 oid m Hm) as (m2 & Hm2 & Hd & Hr).
  destruct (H23 oid m2 Hm2) as (m3 & Hm3 & Hd' & Hr').
  exists m3. auto.
Qed.

Lemma store_le_save_new m coll :
  findById (_id m) coll = None → store_le coll (save m coll).
Proof.
  intros Hnew oid x Hx. exists x. rewrite findById_save.
  destruct (Nat.eqb (_id m) oid) eqn:E; [| auto].
  apply Nat.eqb_eq in E. congruence.
Qed.

Lemma store_le_save_update m m' coll :
  findById (_id m') coll = Some m →
  (isDelivered m = true → isDelivered m' = true) →
  (isRead m = true → isRead m' = true) →
  store_le coll (save m' coll).
Proof.
  intros Hold Hd Hr oid x Hx. rewrite findById_save.
  destruct (Nat.eqb (_id m') oid) eqn:E; [| eauto].
  apply Nat.eqb_eq in E. subst oid. exists m'. rewrite Hold in Hx. by simplify_eq.
Qed.

Lemma store_le_updateMany ids t coll :
  store_le coll (updateMany ids (set_delivered t) coll).
Proof.
  intros oid x Hx. rewrite findById_updateMany by apply id_set_delivered.
  rewrite Hx. simpl. destruct (existsb _ ids); eauto.
Qed.

Lemma store_le_delivered_store t m st :
  findById (_id m) (privateMessageModel st) = Some m →
  store_le (privateMessageModel st) (delivered_store t m st).
Proof.
  intros Hm. unfold delivered_store.
  destruct (socket_of _ _); [| apply store_le_refl].
  by apply (store_le_save_update m).
Qed.

Lemma store_le_created t m st :
  Forall (λ x, (_id x < nextObjectId st)%nat) (privateMessageModel st) →
  _id m = nextObjectId st →
  store_le (privateMessageModel st)
    (delivered_store t m
       (with_privateMessageModel (save m (privateMessageModel st))
          (with_nextObjectId (S (nextObjectId st)) st))).
Proof.
  intros Hall Hid.
  eapply store_le_trans.
  - apply (store_le_save_new m). rewrite Hid. by apply findById_fresh.
  - set (st1 := with_privateMessageModel _ _).
    apply (store_le_delivered_store t m st1). simpl.
    by rewrite findById_save, Nat.eqb_refl.
Qed.

Lemma store_le_handle `{Platform} i st :
  wf st → store_le (privateMessageModel st) (privateMessageModel (fst (handle i st))).
Proof.
  intros (Hreg & Hnd & Hall). unfold handle.
  destruct (event i) as
    [ | |room|room|room content|to text|oid|other|query|to|to|total|payload|uploadId].
  - apply store_le_refl.
  - unfold handleDisconnect. destruct (when_truthy _); apply store_le_refl.
  - apply store_le_refl.
  - apply store_le_refl.
  - apply store_le_refl.
  - rewrite handlePrivateMessage_fst.
    destruct (validate _); [| apply store_le_refl].
    simpl. by apply store_le_created.
  - rewrite handleMarkMessageAsRead_fst.
    destruct (findById oid _) as [m|] eqn:Hf; [| apply store_le_refl].
    destruct (String.eqb _ _); [| apply store_le_refl].
    simpl. apply (store_le_save_update m); [| done | done].
    simpl. apply findById_Some in Hf as Hf'. destruct Hf' as [_ Hid]. by rewrite Hid.
  - rewrite handleGetPrivateMessages_fst. simpl. apply store_le_updateMany.
  - unfold handleSearchUsers. destruct (regex_i query); apply store_le_refl.
  - destruct (handleTyping_fields (client i) to st) as (_ & -> & _). apply store_le_refl.
  - rewrite handleStopTyping_fst. apply store_le_refl.
  - apply store_le_refl.
  - destruct (handleUploadChunk_outcome (env i) (client i) payload st)
      as [->|(upload & data & _ & _ & [[-> _]|[(fileData & _ & _ & ->)|(fileData & _ & _ & ->)]])].
    + apply store_le_refl.
    + apply store_le_refl.
    + apply store_le_refl.
    + unfold completed. simpl.
      set (st0 := with_uploadDir _ st).
      apply (store_le_created (now (env i))
               (file_message (env i) (client i) payload (nextObjectId st)) st0); done.
  - apply store_le_refl.
Qed.

Lemma ascending_flips l :
  ascending l →
  flips true false l = 0%nat
  ∧ (flips false true l ≤ 1)%nat
  ∧ (head l = Some true → flips false true l = 0%nat).
Proof.
  induction l as [|x [|y l] IH]; intros Hasc; [simpl; auto with lia | simpl; auto with lia |].
  destruct Hasc as [Hxy Hasc]. destruct (IH Hasc) as (Hdown & Hup & Hhead).
  change (flips true false (x :: y :: l))
    with ((if Bool.eqb x true && Bool.eqb y false then 1 else 0)
          + flips true false (y :: l))%nat.
  change (flips false true (x :: y :: l))
    with ((if Bool.eqb x false && Bool.eqb y true then 1 else 0)
          + flips false true (y :: l))%nat.
  destruct x, y; cbn [Bool.eqb andb head] in *.
  - rewrite Hdown, Hhead by done. auto.
  - specialize (Hxy eq_refl). discriminate.
  - rewrite Hdown, Hhead by done. repeat split; [lia | discriminate].
  - rewrite Hdown. repeat split; [lia | discriminate].
Qed.

Lemma trace_ascending `{Platform} (flag : list PrivateMessage → bool) evs st :
  (∀ coll coll', store_le coll coll' → flag coll = true → flag coll' = true) →
  wf st →
  ascending (List.map (λ s, flag (privateMessageModel s)) (trace evs st)).
Proof.
  intros Hflag. revert st. induction evs as [|i evs IH]; intros st Hwf; simpl; [done|].
  specialize (IH (fst (handle i st)) (wf_handle i st Hwf)).
  destruct evs; simpl in *; (split; [| exact IH || done]);
    apply Hflag; by apply store_le_handle.
Qed.

(** C6: along every run of the gateway from its initial state, neither
    [isDelivered] nor [isRead] of a message ever goes from true to false, and
    each goes from false to true at most once. *)
Theorem flags_are_latches `{Platform} (users : list Doc) (evs : list Inbound) (oid : nat) :
  let states := trace evs (initial users) in
  flips true false (List.map (delivered oid) states) = 0%nat
  ∧ (flips false true (List.map (delivered oid) states) ≤ 1)%nat
  ∧ flips true false (List.map (read oid) states) = 0%nat
  ∧ (flips false true (List.map (read oid) states) ≤ 1)%nat.
Proof.
  intros states.
  assert (ascending (List.map (delivered oid) states)) as Hd.
  { apply (trace_ascending (λ coll, match findById oid coll with
                                     | Some m => isDelivered m | None => false end));
      [| apply wf_initial].
    intros coll coll' Hle. destruct (findById oid coll) as [m|] eqn:Hm; [| done].
    destruct (Hle oid m Hm) as (m' & -> & Hdel & _). exact Hdel. }
  assert (ascending (List.map (read oid) states)) as Hr.
  { apply (trace_ascending (λ coll, match findById oid coll with
                                     | Some m => isRead m | None => false end));
      [| apply wf_initial].
    intros coll coll' Hle. destruct (findById oid coll) as [m|] eqn:Hm; [| done].
    destruct (Hle oid m Hm) as (m' & -> & _ & Hrd). exact Hrd. }
  apply ascending_flips in Hd as (? & ? & _). apply ascending_flips in Hr as (? & ? & _).
  auto.
Qed.

Example flips_once : flips false true [false; false; true; true] = 1%nat.
Proof. reflexivity. Qed.

(** Alice writes to bob while he is away; bob connects, marks the message
    read without opening the chat, then fetches the history: read comes
    first, delivered second, each once. *)
Example read_before_delivered :
  let states := @trace sample_platform
                  [at_time 1 alice connection;
                   at_time 2 alice (sendPrivateMessage "bob" "hi");
                   at_time 3 bob connection;
                   at_time 4 bob (markMessageAsRead 0);
                   at_time 5 bob (getPrivateMessages "alice")] (initial []) in
  List.map (read 0) states = [false; false; false; false; true; true]
  ∧ List.map (delivered 0) states = [false; false; false; false; false; true].
Proof. split; reflexivity. Qed.

Lemma length_save_present m coll :
  In (_id m) (List.map _id coll) → length (save m coll) = length coll.
Proof.
  induction coll as [|m' coll IH]; simpl; [done|].
  destruct (Nat.eqb (_id m') (_id m)) eqn:E; simpl; [done|].
  intros [Heq|Hin]; [rewrite Heq, Nat.eqb_refl in E; done | by rewrite IH].
Qed.

(** C4: marking a message read checks only that the caller is the
    receiver.  When it is, the stored message gets [isRead] and the read
    time, keeps its delivery flag whatever it was (so an undelivered message
    becomes read), no other message changes, and the sender is notified if
    it has a socket; when the message is missing or addressed to somebody
    else, nothing changes and nothing is sent. *)
Theorem mark_read_guarded_by_receiver (e : Env) (c : Socket) (oid : nat) (st : State) :
  let r := handleMarkMessageAsRead e c oid st in
  (∀ m, findById oid (privateMessageModel st) = Some m →
        receiver m = username c →
        findById oid (privateMessageModel (fst r)) = Some (set_read (now e) m)
        ∧ read oid (fst r) = true
        ∧ delivered oid (fst r) = isDelivered m
        ∧ (∀ j, j ≠ oid →
             findById j (privateMessageModel (fst r))
             = findById j (privateMessageModel st))
        ∧ snd r = match socket_of (sender m) st with
                  | Some s => [server_to_emit s (messageRead oid (Some (now e)))]
                  | None => []
                  end)
  ∧ (findById oid (privateMessageModel st) = None
     ∨ (∃ m, findById oid (privateMessageModel st) = Some m ∧ receiver m ≠ username c) →
     r = (st, [])).
Proof.
  intros r. subst r. split.
  - intros m Hm Hrecv. unfold handleMarkMessageAsRead, read, delivered.
    rewrite Hm. apply String.eqb_eq in Hrecv. rewrite Hrecv.
    apply findById_Some in Hm as Hm'. destruct Hm' as [_ Hid].
    assert (∀ j, findById j (save (set_read (now e) m) (privateMessageModel st))
                 = if Nat.eqb oid j then Some (set_read (now e) m)
                   else findById j (privateMessageModel st)) as Hsave.
    { intros j. rewrite findById_save. simpl. by rewrite Hid. }
    change (socket_of (sender (set_read (now e) m))
              (with_privateMessageModel
                 (save (set_read (now e) m) (privateMessageModel st)) st))
      with (socket_of (sender m) st).
    assert (∀ j, j ≠ oid →
                 findById j (save (set_read (now e) m) (privateMessageModel st))
                 = findById j (privateMessageModel st)) as Hother.
    { intros j Hj. rewrite Hsave. destruct (Nat.eqb oid j) eqn:E; [| done].
      apply Nat.eqb_eq in E. congruence. }
    destruct (socket_of (sender m) st); simpl; rewrite Hsave, Nat.eqb_refl; simpl;
      by rewrite ?Hid.
  - unfold handleMarkMessageAsRead. intros [->|(m & -> & Hne)]; [done|].
    destruct (String.eqb (receiver m) (username c)) eqn:E; [| done].
    apply String.eqb_eq in E. done.
Qed.

Lemma mark_read_guarded_by_receiver_witness :
  let r := handleMarkMessageAsRead {| now := 5; random_tail := "" |} bob 0 one_undelivered in
  (read 0 (fst r) = true ∧ delivered 0 (fst r) = false
   ∧ snd r = [server_to_emit "s1" (messageRead 0 (Some 5))])
  ∧ handleMarkMessageAsRead {| now := 5; random_tail := "" |} alice 0 one_undelivered
    = (one_undelivered, []).
Proof.
  split.
  - destruct (proj1 (mark_read_guarded_by_receiver {| now := 5; random_tail := "" |}
                       bob 0 one_undelivered)
                (new_PrivateMessage 0 2 "alice" "bob" "hi" None None None None))
      as (_ & Hr & Hd & _ & Hout); [reflexivity | reflexivity |].
    split; [exact Hr|]. split; [exact Hd | exact Hout].
  - apply (proj2 (mark_read_guarded_by_receiver {| now := 5; random_tail := "" |}
                    alice 0 one_undelivered)).
    right. exists (new_PrivateMessage 0 2 "alice" "bob" "hi" None None None None).
    split; [reflexivity | discriminate].
Defined.

(** C5, as stated, fails: bob sends alice a message with no content; the
    validation of the schema refuses it, so that nothing is stored and
    nothing is echoed. *)
Lemma empty_message_is_refused :
  let r := handlePrivateMessage {| now := 7; random_tail := "" |} bob "alice" ""
             one_undelivered in
  privateMessageModel (fst r) = privateMessageModel one_undelivered
  ∧ snd r = []
  ∧ ¬ every_send_is_echoed.
Proof.
  intros r. split; [reflexivity|]. split; [reflexivity|].
  intros Hclaim.
  destruct (Hclaim {| now := 7; random_tail := "" |} bob "alice" "" one_undelivered)
    as (m & _ & _ & Hin).
  - unfold wf. vm_compute. repeat split; repeat constructor; simpl; tauto.
  - destruct Hin.
Qed.

(** C5, amended: a private message whose sender, receiver and content are
    not empty is stored as a new document, with these three, the time of the
    send and the flags down, and is echoed to the sender's connection.  When
    the receiver has a socket, the receiver is sent the message, the stored
    message has [isDelivered] set and the time of the send as [deliveredAt],
    and the sender is sent message-delivered for its id before the echo; when
    it has none, the stored message stays undelivered and the echo is the
    only action.  No other message changes.  A private message with an empty
    sender, receiver or content is refused: nothing is stored and nothing is
    sent. *)
Theorem private_message_send (e : Env) (c : Socket) (to text : string) (st : State) :
  wf st →
  let oid := nextObjectId st in
  let sent (flag : bool) :=
    {| _id := oid; sender := username c; receiver := to; content := text;
       isRead := false; isDelivered := flag; timestamp := now e;
       deliveredAt := now e; readAt := None;
       fileUrl := None; fileName := None; fileType := None; fileSize := None;
       isVoiceMessage := false; duration := None;
       reactions := []; likes := []; dislikes := [] |} in
  let r := handlePrivateMessage e c to text st in
  (username c ≠ "" → to ≠ "" → text ≠ "" →
   findById oid (privateMessageModel st) = None
   ∧ length (privateMessageModel (fst r)) = S (length (privateMessageModel st))
   ∧ (∀ j, j ≠ oid →
        findById j (privateMessageModel (fst r)) = findById j (privateMessageModel st))
   ∧ match socket_of to st with
     | Some s =>
         findById oid (privateMessageModel (fst r)) = Some (sent true)
         ∧ snd r = [server_to_emit s (newPrivateMessage (sent false));
                    client_emit (id c) (messageDelivered oid);
                    client_emit (id c) (newPrivateMessage (sent true));
                    server_to_emit s (userStoppedTyping (username c))]
     | None =>
         findById oid (privateMessageModel (fst r)) = Some (sent false)
         ∧ snd r = [client_emit (id c) (newPrivateMessage (sent false))]
     end)
  ∧ (username c = "" ∨ to = "" ∨ text = "" →
     privateMessageModel (fst r) = privateMessageModel st
     ∧ typingUsers (fst r) = typingUsers st
     ∧ snd r = []).
Proof.
  intros (Hreg & Hnd & Hall) oid sent r. subst r.
  pose proof (not_In_ids_fresh _ _ Hall) as Hfresh.
  set (m := new_PrivateMessage (nextObjectId st) (now e) (username c) to text
              None None None None).
  change (sent false) with m.
  change (sent true) with (set_delivered (now e) m).
  split.
  - intros Hfrom Hto Htext.
    assert (validate m = true) as Hv by by apply validate_new_PrivateMessage.
    split; [by apply findById_fresh|].
    rewrite handlePrivateMessage_snd.
    rewrite handlePrivateMessage_fst. fold m. rewrite Hv. simpl.
    unfold delivered_store.
    change (socket_of (receiver m) _) with (socket_of to st).
    destruct (socket_of to st) as [s|]; simpl.
    + split.
      { rewrite length_save_present, save_fresh, length_app by
          (rewrite ?In_ids_save; simpl; auto).
        simpl; lia. }
      split.
      * intros j Hj. rewrite !findById_save. simpl.
        destruct (Nat.eqb_spec (nextObjectId st) j); [by subst | done].
      * rewrite findById_save. simpl. by rewrite Nat.eqb_refl.
    + split; [rewrite save_fresh, length_app by done; simpl; lia|].
      split.
      * intros j Hj. rewrite findById_save. simpl.
        destruct (Nat.eqb_spec (nextObjectId st) j); [by subst | done].
      * rewrite findById_save. simpl. by rewrite Nat.eqb_refl.
  - intros Hempty. rewrite handlePrivateMessage_invalid; [done|].
    apply Bool.not_true_is_false. rewrite validate_new_PrivateMessage.
    intros (? & ? & ?). destruct Hempty as [?|[?|?]]; done.
Qed.

Lemma wf_one_undelivered : wf one_undelivered.
Proof.
  unfold wf. vm_compute. repeat split; repeat constructor; simpl; tauto.
Defined.

Lemma private_message_send_witness :
  let e := {| now := 7; random_tail := "" |} in
  let sent (flag : bool) :=
    {| _id := 1; sender := "bob"; receiver := "alice"; content := "yo";
       isRead := false; isDelivered := flag; timestamp := 7;
       deliveredAt := 7; readAt := None;
       fileUrl := None; fileName := None; fileType := None; fileSize := None;
       isVoiceMessage := false; duration := None;
       reactions := []; likes := []; dislikes := [] |} in
  let r := handlePrivateMessage e bob "alice" "yo" one_undelivered in
  findById 1 (privateMessageModel one_undelivered) = None
  ∧ length (privateMessageModel (fst r)) = 2%nat
  ∧ (∀ j, j ≠ 1%nat →
       findById j (privateMessageModel (fst r))
       = findById j (privateMessageModel one_undelivered))
  ∧ findById 1 (privateMessageModel (fst r)) = Some (sent true)
  ∧ snd r = [server_to_emit "s1" (newPrivateMessage (sent false));
             client_emit "s2" (messageDelivered 1);
             client_emit "s2" (newPrivateMessage (sent true));
             server_to_emit "s1" (userStoppedTyping "bob")].
Proof.
  apply (proj1 (private_message_send {| now := 7; random_tail := "" |} bob "alice" "yo"
                  one_undelivered wf_one_undelivered)); discriminate.
Defined.

(** ** History fetch *)

Lemma NoDup_map_filter {A B} (f : A → B) (p : A → bool) (l : list A) :
  List.NoDup (List.map f l) → List.NoDup (List.map f (List.filter p l)).
Proof.
  induction l as [|x l IH]; simpl; intros Hnd; [done|].
  inversion Hnd as [|? ? Hnotin Hnd']; subst.
  destruct (p x); simpl; [| by apply IH].
  constructor; [| by apply IH].
  intros Hin. apply Hnotin. apply in_map_iff in Hin as (y & Hy & Hin).
  apply filter_In in Hin as [Hin _]. apply in_map_iff. eauto.
Qed.

Lemma In_find_conversation m me other coll :
  In m (find_conversation me other coll)
  ↔ In m coll
    ∧ ((sender m = me ∧ receiver m = other) ∨ (sender m = other ∧ receiver m = me)).
Proof.
  unfold find_conversation.
  rewrite <- !list_elem_of_In, merge_sort_Permutation, !list_elem_of_In.
  rewrite filter_In, Bool.orb_true_iff, !Bool.andb_true_iff, !String.eqb_eq. done.
Qed.

Lemma NoDup_ids_find_conversation me other coll :
  List.NoDup (List.map _id coll) →
  List.NoDup (List.map _id (find_conversation me other coll)).
Proof.
  intros Hnd. unfold find_conversation.
  eapply Permutation_NoDup.
  - apply Permutation_map. symmetry. apply merge_sort_Permutation.
  - by apply NoDup_map_filter.
Qed.

Lemma In_unread_for m me other coll :
  In m (unread_for me other coll)
  ↔ In m coll ∧ sender m = other ∧ receiver m = me ∧ isDelivered m = false.
Proof.
  unfold unread_for.
  rewrite filter_In, In_find_conversation, Bool.andb_true_iff, Bool.negb_true_iff,
    String.eqb_eq.
  intuition congruence.
Qed.

Section Notifications.
Variable target : PrivateMessage → option string.

Lemma no_delivery_of_absent oid l :
  ¬ In oid (List.map _id l) →
  List.filter (is_delivery_of oid) (flat_map (notify target) l) = [].
Proof.
  induction l as [|x l IH]; simpl; intros Hnot; [done|].
  rewrite List.filter_app, IH by tauto. rewrite app_nil_r.
  unfold notify. destruct (target x); simpl; [| done].
  destruct (Nat.eqb (_id x) oid) eqn:E; [| done].
  apply Nat.eqb_eq in E. tauto.
Qed.

Lemma one_delivery_of_present m l :
  List.NoDup (List.map _id l) → In m l →
  List.filter (is_delivery_of (_id m)) (flat_map (notify target) l) = notify target m.
Proof.
  induction l as [|x l IH]; simpl; intros Hnd Hin; [done|].
  inversion Hnd as [|? ? Hnotin Hnd']; subst.
  rewrite List.filter_app. destruct Hin as [->|Hin].
  - rewrite no_delivery_of_absent, app_nil_r by done.
    unfold notify. destruct (target m); simpl; [| done]. by rewrite Nat.eqb_refl.
  - rewrite IH by done.
    assert (_id x ≠ _id m) as Hne.
    { intros Heq. apply Hnotin. rewrite Heq. by apply in_map. }
    unfold notify at 1. destruct (target x); simpl; [| done].
    destruct (Nat.eqb (_id x) (_id m)) eqn:E; [| done].
    apply Nat.eqb_eq in E. done.
Qed.

End Notifications.

(** C3: fetching the history with [other] updates the collection by one
    [updateMany]; every message of that conversation addressed to the caller
    and not yet delivered is stored with [isDelivered] set and the time of
    the request as [deliveredAt], its other fields as they were, whether or
    not its sender has a socket; the actions carry exactly one delivery
    notification for it, to the sender's socket, when there is one, and none
    otherwise; every other stored message is left as it was. *)
Theorem history_fetch_delivers (e : Env) (c : Socket) (other : string) (st : State) :
  wf st →
  let stamped (m : PrivateMessage) :=
    {| _id := _id m; sender := sender m; receiver := receiver m;
       content := content m; isRead := isRead m; isDelivered := true;
       timestamp := timestamp m; deliveredAt := now e; readAt := readAt m;
       fileUrl := fileUrl m; fileName := fileName m; fileType := fileType m;
       fileSize := fileSize m; isVoiceMessage := isVoiceMessage m;
       duration := duration m; reactions := reactions m; likes := likes m;
       dislikes := dislikes m |} in
  let r := handleGetPrivateMessages e c other st in
  (∃ ids, fst r = with_privateMessageModel
                    (updateMany ids stamped (privateMessageModel st)) st)
  ∧ (∀ m, In m (privateMessageModel st) →
          sender m = other → receiver m = username c → isDelivered m = false →
          findById (_id m) (privateMessageModel (fst r)) = Some (stamped m)
          ∧ List.filter (is_delivery_of (_id m)) (snd r)
            = match socket_of (sender m) st with
              | Some s => [server_to_emit s (messageDelivered (_id m))]
              | None => []
              end)
  ∧ (∀ m, In m (privateMessageModel st) →
          ¬ (sender m = other ∧ receiver m = username c ∧ isDelivered m = false) →
          findById (_id m) (privateMessageModel (fst r)) = Some m).
Proof.
  intros (Hreg & Hnd & Hall) stamped r. subst r.
  change stamped with (set_delivered (now e)).
  rewrite handleGetPrivateMessages_fst, handleGetPrivateMessages_snd.
  split; [eauto|]. split; cycle 1.
  { intros m Hin Hnot. simpl.
    rewrite findById_updateMany by apply id_set_delivered.
    rewrite findById_In by done. simpl.
    destruct (existsb _ _) eqn:Hex; [| done].
    exfalso. apply existsb_exists in Hex as (j & Hj & Heq).
    apply Nat.eqb_eq in Heq. subst j.
    apply in_map_iff in Hj as (m' & Hid & Hm').
    apply In_unread_for in Hm' as (Hin' & Hs' & Hr' & Hd').
    assert (m' = m) as ->; [| tauto].
    pose proof (findById_In m' _ Hnd Hin') as Hf'.
    pose proof (findById_In m _ Hnd Hin) as Hf.
    rewrite Hid in Hf'. congruence. }
  intros m Hin Hs Hr Hd.
  assert (In m (unread_for (username c) other (privateMessageModel st))) as Hunread.
  { by apply In_unread_for. }
  split.
  - simpl. rewrite findById_updateMany by apply id_set_delivered.
    rewrite findById_In by done. simpl.
    assert (existsb (Nat.eqb (_id m))
              (List.map _id (unread_for (username c) other (privateMessageModel st)))
            = true) as ->; [| done].
    apply existsb_exists. exists (_id m). split; [by apply in_map | apply Nat.eqb_refl].
  - rewrite List.filter_app. simpl. rewrite app_nil_r.
    apply (one_delivery_of_present (λ msg, socket_of (sender msg) st)); [| done].
    unfold unread_for. apply NoDup_map_filter. by apply NoDup_ids_find_conversation.
Qed.

Lemma history_fetch_delivers_witness :
  let r := handleGetPrivateMessages {| now := 9; random_tail := "" |} bob "alice"
             one_undelivered in
  findById 0 (privateMessageModel (fst r))
  = Some {| _id := 0; sender := "alice"; receiver := "bob"; content := "hi";
            isRead := false; isDelivered := true; timestamp := 2;
            deliveredAt := 9; readAt := None;
            fileUrl := None; fileName := None; fileType := None; fileSize := None;
            isVoiceMessage := false; duration := None;
            reactions := []; likes := []; dislikes := [] |}
  ∧ List.filter (is_delivery_of 0) (snd r) = [server_to_emit "s1" (messageDelivered 0)].
Proof.
  apply (proj1 (proj2 (history_fetch_delivers {| now := 9; random_tail := "" |} bob "alice"
                         one_undelivered wf_one_undelivered))
           (new_PrivateMessage 0 2 "alice" "bob" "hi" None None None None)).
  - left. reflexivity.
  - reflexivity.
  - reflexivity.
  - reflexivity.
Defined.

(** ** Upload sessions: cancellation *)

Lemma handle_keeps_no_session `{Platform} u i st :
  starts_session u i = false →
  tempUploads st !! u = None →
  tempUploads (fst (handle i st)) !! u = None.
Proof.
  unfold starts_session, handle. intros Hstart Hnone.
  destruct (event i) as
    [ | |room|room|room content|to text|oid|other|query|to|to|total|payload|uploadId].
  - done.
  - unfold handleDisconnect. by destruct (when_truthy _).
  - done.
  - done.
  - done.
  - rewrite handlePrivateMessage_fst. by destruct (validate _).
  - rewrite handleMarkMessageAsRead_fst.
    destruct (findById oid _); [| done]. by destruct (String.eqb _ _).
  - by rewrite handleGetPrivateMessages_fst.
  - unfold handleSearchUsers. by destruct (regex_i query).
  - destruct (handleTyping_fields (client i) to st) as (_ & _ & _ & -> & _). done.
  - by rewrite handleStopTyping_fst.
  - simpl. rewrite lookup_insert_ne; [done|].
    intros Heq. rewrite Heq, String.eqb_refl in Hstart. done.
  - destruct (handleUploadChunk_outcome (env i) (client i) payload st)
      as [->|(upload & data & Hu & _ &
            [[-> _]|[(fileData & _ & _ & ->)|(fileData & _ & _ & ->)]])]; [done | | |].
    + unfold accumulated. simpl. rewrite lookup_insert_ne; [done | congruence].
    + unfold unsaved, accumulated. simpl. rewrite lookup_insert_ne; [done | congruence].
    + unfold completed. simpl. rewrite lookup_delete. by case_decide.
  - simpl. rewrite lookup_delete. by case_decide.
Qed.

Lemma run_keeps_no_session `{Platform} u evs st :
  forallb (λ ev, negb (starts_session u ev)) evs = true →
  tempUploads st !! u = None →
  tempUploads (fst (run evs st)) !! u = None.
Proof.
  revert st. induction evs as [|i evs IH]; intros st Hall Hnone; simpl in *; [done|].
  apply Bool.andb_true_iff in Hall as [Hi Hall]. apply Bool.negb_true_iff in Hi.
  pose proof (handle_keeps_no_session u i st Hi Hnone) as Hnone'.
  destruct (handle i st) as [st1 out1]. specialize (IH st1 Hall Hnone').
  by destruct (run evs st1).
Qed.

(** C8: cancelling acknowledges to the caller whether or not the session
    exists and leaves no session under that identifier; cancelling again
    changes nothing more; a chunk submitted for the identifier afterwards,
    at once or after any events that do not start a session under the same
    identifier, ends in the session-not-found error, which the handler
    reports to its caller as upload-error without touching the state, the
    registry entry of the caller included. *)
Theorem chunk_after_cancel_is_rejected `{Platform} (c c' : Socket) (e : Env)
    (p : UploadChunkPayload) (st : State) :
  let r := handleCancelUpload c (p_uploadId p) st in
  snd r = [client_emit (id c) (uploadCancelled (p_uploadId p))]
  ∧ tempUploads (fst r) !! p_uploadId p = None
  ∧ connectedUsers (fst r) = connectedUsers st
  ∧ handleCancelUpload c (p_uploadId p) (fst r) = r
  ∧ ∀ evs, forallb (λ ev, negb (starts_session (p_uploadId p) ev)) evs = true →
      let st' := fst (run evs (fst r)) in
      uploadChunk_try e c' p st' = (st', [], Some (Error "Upload session not found"))
      ∧ handleUploadChunk e c' p st'
        = (st', [client_emit (id c')
                   (uploadError "Failed to upload chunk" (Some (p_uploadId p)))]).
Proof.
  intros r. subst r. simpl.
  assert (delete (p_uploadId p) (tempUploads st) !! p_uploadId p = None) as Hgone
    by apply lookup_delete_eq.
  split; [done|]. split; [exact Hgone|]. split; [done|].
  split; [unfold handleCancelUpload; simpl; by rewrite delete_delete_eq|].
  intros evs Hevs. set (st' := fst (run evs _)).
  assert (tempUploads st' !! p_uploadId p = None) as Hlater
    by (by apply run_keeps_no_session).
  split; [| by apply handleUploadChunk_unknown].
  unfold uploadChunk_try. by rewrite uploadChunk_assemble_unknown.
Qed.

Lemma chunk_after_cancel_is_rejected_witness :
  let st := fst (handleCancelUpload alice "5-k3x9" two_chunk_session) in
  let st' := fst (@run sample_platform
                    [at_time 6 alice (startFileUpload 3); at_time 7 bob connection] st) in
  @uploadChunk_try sample_platform {| now := 8; random_tail := "" |} alice (chunk 0) st'
  = (st', [], Some (Error "Upload session not found"))
  ∧ @handleUploadChunk sample_platform {| now := 8; random_tail := "" |} alice (chunk 0) st'
    = (st', [client_emit "s1" (uploadError "Failed to upload chunk" (Some "5-k3x9"))]).
Proof.
  destruct (@chunk_after_cancel_is_rejected sample_platform alice alice
              {| now := 8; random_tail := "" |} (chunk 0) two_chunk_session)
    as (_ & _ & _ & _ & Hlater).
  apply (Hlater [at_time 6 alice (startFileUpload 3); at_time 7 bob connection]).
  reflexivity.
Defined.

(** ** User records *)

Lemma has_field_project_out k d : has_field k (project_out k d) = false.
Proof.
  unfold has_field, project_out. induction d as [|[k' v] d IH]; simpl; [done|].
  destruct (String.eqb k' k) eqn:E; simpl; [done|]. by rewrite E.
Qed.

Lemma find_users_hide_password p coll :
  List.Forall (λ d, has_field "password" d = false) (find_users p coll).
Proof.
  unfold find_users. apply List.Forall_forall. intros d Hd.
  apply in_map_iff in Hd as (d0 & <- & _). apply has_field_project_out.
Qed.

Lemma hides_password_deliver_and_echo e c m st :
  List.Forall hides_password (snd (deliver_and_echo e c m st)).
Proof.
  unfold deliver_and_echo. destruct (socket_of _ _); simpl;
    repeat constructor.
Qed.

Lemma hides_password_handleUploadChunk `{Platform} e c p st :
  List.Forall hides_password (snd (handleUploadChunk e c p st)).
Proof.
  destruct (handleUploadChunk_actions e c p st) as [->|[->|(m & st1 & ->)]];
    [repeat constructor | repeat constructor |].
  apply List.Forall_app. split;
    [apply hides_password_deliver_and_echo | repeat constructor].
Qed.

(** C10: whatever the state of the user collection and whatever the event
    (the search query included), no user record in any action of its handler
    has a [password] field; user records are carried by the user-list
    broadcast and by the search results. *)
Theorem user_records_hide_password `{Platform} (i : Inbound) (st : State) :
  List.Forall hides_password (snd (handle i st))
  ∧ (∀ q, ∃ us, broadcastUserList st = [server_emit (userList us)]
               ∧ List.Forall (λ d, has_field "password" d = false) us
               ∧ (snd (handleSearchUsers (client i) q st) = []
                  ∨ ∃ found, snd (handleSearchUsers (client i) q st)
                             = [client_emit (id (client i)) (searchResults found)]
                             ∧ List.Forall (λ d, has_field "password" d = false) found)).
Proof.
  split.
  - unfold handle. destruct (event i) as
      [ | |room|room|room content|to text|oid|other|query|to|to|total|payload|uploadId].
    + simpl. repeat constructor. apply find_users_hide_password.
    + unfold handleDisconnect. destruct (when_truthy _); simpl; repeat constructor.
      apply find_users_hide_password.
    + repeat constructor.
    + repeat constructor.
    + repeat constructor.
    + rewrite handlePrivateMessage_snd.
      destruct (validate _); [| constructor].
      destruct (socket_of to st); repeat constructor.
    + unfold handleMarkMessageAsRead. destruct (findById oid _); [| constructor].
      destruct (String.eqb _ _); [| constructor].
      destruct (socket_of _ _); repeat constructor.
    + rewrite handleGetPrivateMessages_snd. apply List.Forall_app. split;
        [| repeat constructor].
      apply List.Forall_forall. intros a Ha. apply in_flat_map in Ha as (m & _ & Ha).
      destruct (socket_of _ _); simpl in Ha; [| done].
      destruct Ha as [<-|[]]. constructor.
    + unfold handleSearchUsers. destruct (regex_i query); simpl; repeat constructor.
      apply find_users_hide_password.
    + unfold handleTyping.
      destruct (typingUsers st !! _); simpl;
        match goal with |- context [socket_of ?u ?s] => destruct (socket_of u s) end;
        repeat constructor.
    + rewrite handleStopTyping_snd. destruct (socket_of _ _); repeat constructor.
    + repeat constructor.
    + apply hides_password_handleUploadChunk.
    + repeat constructor.
  - intros q. eexists. split; [reflexivity|]. split; [apply find_users_hide_password|].
    unfold handleSearchUsers. destruct (regex_i q); simpl; [right | by left].
    eexists. split; [reflexivity | apply find_users_hide_password].
Qed.

(** ** Upload sessions: completion *)

Lemma for_session_inv u ev :
  for_session u ev = true → ∃ p, event ev = uploadChunk p ∧ p_uploadId p = u.
Proof.
  unfold for_session. destruct (event ev); try done.
  intros Heq. apply String.eqb_eq in Heq. eauto.
Qed.

Lemma handle_chunk `{Platform} ev p st :
  event ev = uploadChunk p → handle ev st = handleUploadChunk (env ev) (client ev) p st.
Proof. unfold handle. by intros ->. Qed.

Section Completion.
Context `{Platform}.

Lemma completion_needs_all_indices e c p st upload :
  tempUploads st !! p_uploadId p = Some upload →
  completion_effect (p_uploadId p) st (fst (handleUploadChunk e c p st)) →
  ∃ data, decode_chunk (p_chunk p) = inr data
          ∧ ∀ k, 0 ≤ k < totalChunks upload →
                 populated (array_assign (chunks upload) (p_chunkIndex p) data) (Z.to_nat k).
Proof.
  intros Hu Heff.
  destruct (handleUploadChunk_outcome e c p st)
    as [Hst|(upload' & data & Hu' & Hd &
          [[Hst _]|[(fileData & Hc & Hb & _)|(fileData & Hc & Hb & _)]])].
  - rewrite Hst in Heff. destruct Heff as [Hnone|[Hne|Hne]]; congruence.
  - rewrite Hst in Heff. unfold completion_effect, accumulated in Heff. simpl in Heff.
    rewrite lookup_insert_eq in Heff. destruct Heff as [Hnone|[Hne|Hne]]; congruence.
  - simplify_eq. exists data. split; [done|]. intros k Hk.
    apply Buffer_concat_inr in Hb as [Hlen Hpop]. simpl in *.
    apply Hpop. lia.
  - simplify_eq. exists data. split; [done|]. intros k Hk.
    apply Buffer_concat_inr in Hb as [Hlen Hpop]. simpl in *.
    apply Hpop. lia.
Qed.

Lemma chunk_keeps_gap u k ev st0 st upload :
  for_session u ev = true →
  index_of ev ≠ k → 0 ≤ k < totalChunks upload →
  tempUploads st !! u = Some upload →
  ¬ populated (chunks upload) (Z.to_nat k) →
  still_accumulating u st0 st →
  ∃ upload', tempUploads (fst (handle ev st)) !! u = Some upload'
             ∧ totalChunks upload' = totalChunks upload
             ∧ ¬ populated (chunks upload') (Z.to_nat k)
             ∧ still_accumulating u st0 (fst (handle ev st)).
Proof.
  intros Hev Hidx Hk Hu Hgap (_ & Hpm & Hdir & Hnext).
  apply for_session_inv in Hev as (p & Hev & <-).
  unfold index_of in Hidx. rewrite Hev in Hidx.
  rewrite (handle_chunk ev p st Hev).
  destruct (handleUploadChunk_outcome (env ev) (client ev) p st)
    as [->|(upload' & data & Hu' & Hd &
          [[-> _]|[(fileData & Hc & Hb & _)|(fileData & Hc & Hb & _)]])].
  - exists upload. unfold still_accumulating. rewrite Hu. eauto 10.
  - simplify_eq. exists (stored p data upload).
    unfold accumulated, still_accumulating. simpl. rewrite lookup_insert_eq.
    repeat split; eauto.
    rewrite populated_array_assign_ne; [done | unfold array_index; lia].
  - simplify_eq. exfalso.
    apply Buffer_concat_inr in Hb as [Hlen Hpop]. simpl in *.
    apply Hgap. rewrite <- (populated_array_assign_ne _ (p_chunkIndex p) data)
      by (unfold array_index; lia).
    apply Hpop. lia.
  - simplify_eq. exfalso.
    apply Buffer_concat_inr in Hb as [Hlen Hpop]. simpl in *.
    apply Hgap. rewrite <- (populated_array_assign_ne _ (p_chunkIndex p) data)
      by (unfold array_index; lia).
    apply Hpop. lia.
Qed.

Lemma run_keeps_gap u k evs st0 st upload :
  forallb (for_session u) evs = true →
  ¬ In k (List.map index_of evs) → 0 ≤ k < totalChunks upload →
  tempUploads st !! u = Some upload →
  ¬ populated (chunks upload) (Z.to_nat k) →
  still_accumulating u st0 st →
  still_accumulating u st0 (fst (run evs st)).
Proof.
  revert st upload. induction evs as [|ev evs IH]; intros st upload Hall Hnot Hk Hu Hgap Hacc;
    simpl in *; [done|].
  apply Bool.andb_true_iff in Hall as [Hev Hall].
  destruct (chunk_keeps_gap u k ev st0 st upload) as (upload' & Hu' & Htot & Hgap' & Hacc');
    try done; [tauto|].
  destruct (handle ev st) as [st1 out1]. simpl in *.
  specialize (IH st1 upload' Hall).
  destruct (run evs st1) as [st2 out2]. simpl in *.
  apply IH; try done; [tauto | by rewrite Htot].
Qed.

End Completion.

Lemma completed_once_completed e c p fileData st :
  wf st → completed_once (p_uploadId p) st (completed e c p fileData st).
Proof.
  intros (Hreg & Hnd & Hall). unfold completed_once, completed. simpl.
  pose proof (not_In_ids_fresh _ _ Hall) as Hfresh.
  split; [apply lookup_delete_eq|]. split; [| split; [done | eauto]].
  unfold delivered_store. simpl.
  set (m := file_message e c p (nextObjectId st)).
  rewrite (save_fresh m) by done.
  destruct (socket_of _ _).
  - rewrite length_save_present, length_app; [simpl; lia|].
    simpl. rewrite List.map_app, in_app_iff. simpl. auto.
  - rewrite length_app. simpl. lia.
Qed.

Lemma still_accumulating_step u p data upload st st' :
  still_accumulating u (accumulated p data upload st) st' → still_accumulating u st st'.
Proof. done. Qed.

Lemma completed_once_step u p data upload st st' :
  completed_once u (accumulated p data upload st) st' → completed_once u st st'.
Proof. done. Qed.

Lemma storable_inv `{Platform} ev p :
  event ev = uploadChunk p → storable ev →
  (∀ data, fs_writeFile (file_name (env ev) p) data = true)
  ∧ truthy (username (client ev)) && truthy (p_receiver p) = true.
Proof.
  unfold storable. intros -> (Hw & Hfrom & Hto). split; [done|].
  apply Bool.andb_true_iff. by rewrite !truthy_spec.
Qed.

Section Distinct.
Context `{Platform}.
Variables (u : string) (N : Z).
Hypothesis N_is_a_length : N ≤ 4294967295.

Lemma run_distinct_indices evs :
  ∀ st upload (seen : list Z),
    wf st →
    tempUploads st !! u = Some upload →
    totalChunks upload = N →
    length (filter_Boolean (chunks upload)) = length seen →
    Z.of_nat (length (chunks upload)) ≤ N →
    (∀ j, populated (chunks upload) j → In (Z.of_nat j) seen) →
    forallb (for_session u) evs = true →
    forallb decodable evs = true →
    List.Forall (λ ev, 0 ≤ index_of ev < N) evs →
    List.NoDup (seen ++ List.map index_of evs) →
    Z.of_nat (length seen + length evs) ≤ N →
    (Z.of_nat (length seen + length evs) < N →
     still_accumulating u st (fst (run evs st)))
    ∧ (Z.of_nat (length seen + length evs) = N → evs ≠ [] →
       (∀ ev, last evs = Some ev → storable ev) →
       completed_once u st (fst (run evs st))).
Proof.
  induction evs as [|ev evs IH];
    intros st upload seen Hwf Hu Htot Hcount Hlen Hpop Hsess Hdec Hrange Hnd Hle.
  - split; [| done]. intros _. unfold still_accumulating. simpl. rewrite Hu. eauto.
  - simpl in Hsess, Hdec. apply Bool.andb_true_iff in Hsess as [Hev Hsess].
    apply Bool.andb_true_iff in Hdec as [Hdev Hdec].
    apply List.Forall_cons_iff in Hrange as [Hi Hrange'].
    apply for_session_inv in Hev as (p & Hev & Hp).
    unfold decodable in Hdev. unfold index_of in Hi, Hnd. simpl in Hnd.
    rewrite Hev in Hdev, Hi, Hnd.
    apply decode_chunk_decodes in Hdev as [data Hd].
    assert (¬ In (p_chunkIndex p) seen) as Hnew.
    { intros Hin. apply NoDup_remove_2 in Hnd. apply Hnd. apply in_app_iff. auto. }
    assert (¬ populated (chunks upload) (Z.to_nat (p_chunkIndex p))) as Hgap.
    { intros Hpp. apply Hpop in Hpp. rewrite Z2Nat.id in Hpp by lia. done. }
    rewrite <- Hp in Hu.
    assert (array_index (p_chunkIndex p)) as Hidx by (unfold array_index; lia).
    pose proof (count_array_assign_new (chunks upload) (p_chunkIndex p) data
                  Hidx Hgap) as Hcount'.
    pose proof (length_array_assign (chunks upload) (p_chunkIndex p) data Hidx)
      as Hlen'.
    simpl. rewrite (handle_chunk ev p st Hev).
    destruct (decide (Z.of_nat (S (length seen)) = N)) as [Hlast|Hmore].
    + assert (evs = []) as -> by (destruct evs; [done | simpl in Hle; lia]).
      destruct (Buffer_concat_full (chunks (stored p data upload))) as [fileData Hb].
      { simpl. pose proof (count_le_length (array_assign (chunks upload) (p_chunkIndex p) data)).
        lia. }
      split; [simpl; lia|]. intros _ _ Hstorable.
      destruct (storable_inv ev p Hev (Hstorable ev eq_refl)) as [Hw Hv].
      pose proof (handleUploadChunk_completes (env ev) (client ev) p st upload data fileData
                    Hu Hd) as Hdone.
      destruct (handleUploadChunk (env ev) (client ev) p st) as [st1 out1]. simpl in *.
      rewrite Hdone by (done || lia).
      rewrite <- Hp. by apply completed_once_completed.
    + pose proof (handleUploadChunk_counting (env ev) (client ev) p st upload data Hu Hd)
        as Hstep.
      rewrite Hstep by (simpl; lia). clear Hstep.
      set (st1 := accumulated p data upload st).
      destruct (IH st1 (stored p data upload) (seen ++ [p_chunkIndex p])) as [Hacc Hcomp];
        try done.
      * unfold st1, accumulated. simpl. rewrite Hp. apply lookup_insert_eq.
      * simpl. rewrite length_app. simpl. lia.
      * simpl. lia.
      * intros j Hj. simpl in Hj. apply in_app_iff.
        destruct (decide (j = Z.to_nat (p_chunkIndex p))) as [->|Hne].
        -- right. left. lia.
        -- left. apply Hpop. by rewrite populated_array_assign_ne in Hj.
      * by rewrite <- app_assoc.
      * rewrite length_app. simpl in *. lia.
      * destruct (run evs st1) as [st2 out2]. simpl in *.
        rewrite length_app in Hacc, Hcomp. simpl in Hacc, Hcomp.
        split.
        -- intros Hlt. apply (still_accumulating_step u p data upload). apply Hacc. lia.
        -- intros Heq _ Hstorable. apply (completed_once_step u p data upload).
           assert (evs ≠ []) as Hne by (intros ->; simpl in *; lia).
           apply Hcomp; [lia | done |].
           intros ev' Hev'. apply Hstorable. by destruct evs.
Qed.

End Distinct.

Lemma wf_two_chunk_session : wf two_chunk_session.
Proof.
  unfold wf. vm_compute. repeat split; repeat constructor; simpl; tauto.
Defined.

(** C1, as stated, fails.  Both indices of a session of two chunks are
    submitted, the last one with an empty receiver: the file is written, the
    validation of the schema refuses the message, the chunk is answered with
    upload-error and the session stays, so that there is no completion.  And
    when the last chunk is submitted again while its first submission waits
    for the file to be written, both submissions find the session complete
    and each creates a message: there are two completions. *)
Lemma upload_completion_is_not_exactly_once :
  let evs := [at_time 6 alice (uploadChunk (chunk 1));
              at_time 7 alice (uploadChunk (unaddressed_chunk 0))] in
  let r := @run sample_platform evs two_chunk_session in
  privateMessageModel (fst r) = []
  ∧ is_Some (tempUploads (fst r) !! "5-k3x9")
  ∧ last (snd r) = Some (upload_error alice (unaddressed_chunk 0))
  ∧ ¬ @all_indices_complete_once sample_platform
  ∧ let st := fst (@run sample_platform [at_time 6 alice (uploadChunk (chunk 1))]
                     two_chunk_session) in
    let r' := @resubmitted_while_waiting sample_platform
                {| now := 7; random_tail := "" |} {| now := 8; random_tail := "" |}
                alice (chunk 0) st in
    length (privateMessageModel (fst (fst r'))) = 2%nat
    ∧ snd r' = None.
Proof.
  intros evs r.
  split; [reflexivity|]. split; [by eexists|]. split; [reflexivity|].
  split; [| split; reflexivity].
  intros Hclaim.
  destruct (Hclaim "5-k3x9" 2 two_chunk_session evs wf_two_chunk_session)
    as (Hgone & _); try reflexivity.
  - simpl. repeat constructor; simpl; intuition discriminate.
  - apply List.Forall_cons; [unfold index_of; simpl; lia|].
    apply List.Forall_cons; [unfold index_of; simpl; lia|]. apply List.Forall_nil.
  - vm_compute in Hgone. discriminate Hgone.
Qed.

(** C1, amended, for chunks that are handled one after another.  A chunk
    leaves a trace of completion (session discarded, message or file
    written) only if, with that chunk stored, every index below
    [totalChunks] holds a buffer.  A chunk that fills the session, but whose
    file the file system refuses or whose sender or receiver is empty, is
    answered with upload-error: no message is created and the session stays,
    with the chunk stored.  For a session started with [N] chunks: as long
    as some index below [N] has not been submitted, any submissions for the
    session, repeated indices included, leave it accumulating with no
    message and no file; and [N] decodable submissions with pairwise
    distinct indices below [N], in any order, [N] being at least 1 and at
    most 2^32 - 1, the last of which can be stored, complete it once, at the
    last submission: one message, one file, the session discarded, every
    earlier prefix still accumulating, and every later chunk for it
    rejected. *)
Theorem upload_completes_exactly_once `{Platform} :
  (∀ e c p st upload,
     tempUploads st !! p_uploadId p = Some upload →
     completion_effect (p_uploadId p) st (fst (handleUploadChunk e c p st)) →
     ∃ data, decode_chunk (p_chunk p) = inr data
             ∧ ∀ k, 0 ≤ k < totalChunks upload →
                    populated (array_assign (chunks upload) (p_chunkIndex p) data)
                      (Z.to_nat k))
  ∧ (∀ e c p st upload data fileData,
       tempUploads st !! p_uploadId p = Some upload →
       decode_chunk (p_chunk p) = inr data →
       Z.of_nat (length (filter_Boolean (chunks (stored p data upload))))
       = totalChunks upload →
       Buffer_concat (chunks (stored p data upload)) = inr fileData →
       fs_writeFile (file_name e p) fileData = false
       ∨ username c = "" ∨ p_receiver p = "" →
       let r := handleUploadChunk e c p st in
       snd r = [upload_error c p]
       ∧ privateMessageModel (fst r) = privateMessageModel st
       ∧ tempUploads (fst r) = <[p_uploadId p := stored p data upload]> (tempUploads st))
  ∧ (∀ u N st,
       wf st →
       tempUploads st !! u
       = Some {| chunks := []; chunk_properties := ∅; totalChunks := N |} →
       (∀ evs k,
          forallb (for_session u) evs = true →
          0 ≤ k < N → ¬ In k (List.map index_of evs) →
          still_accumulating u st (fst (run evs st)))
       ∧ (∀ evs,
            forallb (for_session u) evs = true →
            forallb decodable evs = true →
            List.NoDup (List.map index_of evs) →
            List.Forall (λ ev, 0 ≤ index_of ev < N) evs →
            Z.of_nat (length evs) = N → 0 < N → N ≤ 4294967295 →
            (∀ ev, last evs = Some ev → storable ev) →
            completed_once u st (fst (run evs st))
            ∧ (∀ evs1 evs2, evs = evs1 ++ evs2 → evs2 ≠ [] →
                 still_accumulating u st (fst (run evs1 st)))
            ∧ (∀ e c p, p_uploadId p = u →
                 handleUploadChunk e c p (fst (run evs st))
                 = (fst (run evs st), [upload_error c p])))).
Proof.
  split; [intros; by eapply completion_needs_all_indices|].
  split.
  { intros e c p st upload data fileData Hu Hd Hc Hb Hbad r. subst r.
    destruct (fs_writeFile (file_name e p) fileData) eqn:Hw.
    - erewrite handleUploadChunk_unsaved; [done | done | done | done | done | done |].
      apply Bool.not_true_is_false. rewrite Bool.andb_true_iff, !truthy_spec.
      intros [? ?]. destruct Hbad as [?|[?|?]]; done.
    - by erewrite handleUploadChunk_unwritten. }
  intros u N st Hwf Hu. split.
  - intros evs k Hsess Hk Hnot.
    apply (run_keeps_gap u k evs st st
             {| chunks := []; chunk_properties := ∅; totalChunks := N |}); try done.
    intros [b Hb]. done.
  - intros evs Hsess Hdec Hnd Hrange Hlen Hpos HN Hstorable.
    assert (∀ evs', forallb (for_session u) evs' = true →
                    forallb decodable evs' = true →
                    List.NoDup (List.map index_of evs') →
                    List.Forall (λ ev, 0 ≤ index_of ev < N) evs' →
                    Z.of_nat (length evs') ≤ N →
            (Z.of_nat (length evs') < N → still_accumulating u st (fst (run evs' st)))
            ∧ (Z.of_nat (length evs') = N → evs' ≠ [] →
               (∀ ev, last evs' = Some ev → storable ev) →
               completed_once u st (fst (run evs' st)))) as Hrun.
    { intros evs' Hs Hd Hn Hr Hl.
      apply (run_distinct_indices u N HN evs' st
               {| chunks := []; chunk_properties := ∅; totalChunks := N |} []);
        try done; simpl; try lia.
      intros j [b Hb]. done. }
    assert (completed_once u st (fst (run evs st))) as Hdone.
    { apply Hrun; try done; [lia|]. intros ->. simpl in Hlen. lia. }
    split; [exact Hdone|]. split.
    + intros evs1 evs2 -> Hne.
      rewrite forallb_app in Hsess, Hdec.
      apply Bool.andb_true_iff in Hsess as [Hs1 _].
      apply Bool.andb_true_iff in Hdec as [Hd1 _].
      rewrite List.map_app in Hnd. apply NoDup_app_remove_r in Hnd.
      apply List.Forall_app in Hrange as [Hr1 _].
      rewrite length_app in Hlen.
      assert (length evs2 ≠ 0)%nat by (destruct evs2; simpl; [done | lia]).
      apply Hrun; try done; lia.
    + intros e c p <-. apply handleUploadChunk_unknown. apply Hdone.
Qed.

Lemma upload_completes_exactly_once_witness :
  (∃ data, @decode_chunk sample_platform (p_chunk (chunk 0)) = inr data
           ∧ ∀ k, 0 ≤ k < 2 →
                  populated
                    (array_assign [None; Some (@base64_decode sample_platform "aGk=")] 0 data)
                    (Z.to_nat k))
  ∧ (let st := fst (@run sample_platform [at_time 6 alice (uploadChunk (chunk 1))]
                      two_chunk_session) in
     let r := @handleUploadChunk sample_platform {| now := 7; random_tail := "" |} alice
                (unaddressed_chunk 0) st in
     snd r = [upload_error alice (unaddressed_chunk 0)]
     ∧ privateMessageModel (fst r) = privateMessageModel st
     ∧ tempUploads (fst r)
       = <["5-k3x9" := stored (unaddressed_chunk 0) (@base64_decode sample_platform "aGk=")
                         {| chunks := [None; Some (@base64_decode sample_platform "aGk=")];
                            chunk_properties := ∅;
                            totalChunks := 2 |}]> (tempUploads st))
  ∧ still_accumulating "5-k3x9" two_chunk_session
      (fst (@run sample_platform
              [at_time 6 alice (uploadChunk (chunk 0)); at_time 7 alice (uploadChunk (chunk 0))]
              two_chunk_session))
  ∧ completed_once "5-k3x9" two_chunk_session
      (fst (@run sample_platform
              [at_time 6 alice (uploadChunk (chunk 1)); at_time 7 alice (uploadChunk (chunk 0))]
              two_chunk_session)).
Proof.
  split; [| split; [| split]].
  - apply (proj1 (@upload_completes_exactly_once sample_platform)
             {| now := 7; random_tail := "" |} alice (chunk 0)
             (fst (@run sample_platform [at_time 6 alice (uploadChunk (chunk 1))]
                     two_chunk_session))
             {| chunks := [None; Some (@base64_decode sample_platform "aGk=")];
                chunk_properties := ∅;
                totalChunks := 2 |}).
    + vm_compute. reflexivity.
    + left. vm_compute. reflexivity.
  - refine (proj1 (proj2 (@upload_completes_exactly_once sample_platform))
              {| now := 7; random_tail := "" |} alice (unaddressed_chunk 0)
              (fst (@run sample_platform [at_time 6 alice (uploadChunk (chunk 1))]
                      two_chunk_session))
              {| chunks := [None; Some (@base64_decode sample_platform "aGk=")];
                 chunk_properties := ∅;
                 totalChunks := 2 |}
              (@base64_decode sample_platform "aGk=")
              (@base64_decode sample_platform "aGk=" ++ @base64_decode sample_platform "aGk=")
              _ _ _ _ _).
    + vm_compute. reflexivity.
    + reflexivity.
    + vm_compute. reflexivity.
    + vm_compute. reflexivity.
    + right. right. reflexivity.
  - apply (proj1 (proj2 (proj2 (@upload_completes_exactly_once sample_platform))
                   "5-k3x9" 2 two_chunk_session wf_two_chunk_session eq_refl) _ 1).
    + reflexivity.
    + lia.
    + simpl. intros [Heq|[Heq|[]]]; discriminate.
  - refine (proj1 (proj2 (proj2 (proj2 (@upload_completes_exactly_once sample_platform))
                            "5-k3x9" 2 two_chunk_session wf_two_chunk_session eq_refl)
                     [at_time 6 alice (uploadChunk (chunk 1));
                      at_time 7 alice (uploadChunk (chunk 0))] _ _ _ _ _ _ _ _)).
    + reflexivity.
    + reflexivity.
    + simpl. repeat constructor; simpl; intuition discriminate.
    + apply List.Forall_cons; [unfold index_of; simpl; lia|].
      apply List.Forall_cons; [unfold index_of; simpl; lia|]. apply List.Forall_nil.
    + reflexivity.
    + lia.
    + lia.
    + intros ev [= <-]. split; [intros data; reflexivity|]. split; discriminate.
Defined.

(** * Further properties of the gateway *)

(** ** Handshake *)

(** X1: the middleware lets a connection through exactly when the token is
    a non-empty string that the JWT service verifies, and then the verified
    payload is the user of the socket; every refusal, a missing or empty
    token included, reaches [next] as the same "Invalid token" error and
    leaves the socket without a user. *)
Theorem handshake_accepts_verified_tokens {Payload} `{JwtService Payload}
    (token : option string) :
  (∀ payload,
     fst (afterInit token) = Some payload
     ↔ ∃ t, token = Some t ∧ t ≠ "" ∧ jwt_verify t = Some payload)
  ∧ (afterInit token = (None, Some (UnauthorizedException "Invalid token"))
     ∨ ∃ payload, afterInit token = (Some payload, None)).
Proof.
  unfold afterInit, afterInit_try, truthy. split.
  - intros payload. destruct token as [t|]; simpl.
    + destruct (String.eqb t "") eqn:E; simpl.
      * apply String.eqb_eq in E. split; [done|]. intros (t' & [= <-] & Hne & _). done.
      * apply String.eqb_neq in E.
        destruct (jwt_verify t) as [q|] eqn:Hv; simpl.
        -- split; [intros [= <-]; eauto|]. intros (t' & [= <-] & _ & Hq). congruence.
        -- split; [done|]. intros (t' & [= <-] & _ & Hq). congruence.
    + split; [done|]. intros (t' & Ht & _). done.
  - destruct token as [t|]; simpl; [| by left].
    destruct (negb _); [| by left].
    destruct (jwt_verify t); [right; eauto | by left].
Qed.

(** ** File names and chunk text *)

Lemma safe_or_underscore_not_slash c :
  safe_char c || Ascii.eqb c "_" = true → Ascii.eqb c "/" = false.
Proof.
  destruct c as [[] [] [] [] [] [] [] []]; vm_compute; congruence.
Qed.

(** X2: the sanitised file name has the length of the original, consists of
    letters, digits, dots, hyphens and underscores only (so it holds no path
    separator), is left alone by a second sanitisation, and equals the
    original when that already consists of letters, digits, dots and
    hyphens. *)
Theorem sanitize_yields_safe_name (name : string) :
  String.length (sanitize name) = String.length name
  ∧ string_forall (λ c, safe_char c || Ascii.eqb c "_") (sanitize name) = true
  ∧ string_forall (λ c, negb (Ascii.eqb c "/")) (sanitize name) = true
  ∧ sanitize (sanitize name) = sanitize name
  ∧ (string_forall safe_char name = true → sanitize name = name).
Proof.
  induction name as [|c s (Hlen & Hsafe & Hslash & Hidem & Hid)]; simpl; [done|].
  assert (safe_char (if safe_char c then c else "_"%char)
          || Ascii.eqb (if safe_char c then c else "_"%char) "_" = true) as Hc.
  { destruct (safe_char c) eqn:E; [by rewrite E | reflexivity]. }
  repeat split.
  - by rewrite Hlen.
  - by rewrite Hc, Hsafe.
  - by rewrite (safe_or_underscore_not_slash _ Hc), Hslash.
  - rewrite Hidem. by destruct (safe_char c) eqn:E; [rewrite E | ].
  - intros Hall. apply Bool.andb_true_iff in Hall as [-> Hall]. by rewrite Hid.
Qed.

Lemma sanitize_yields_safe_name_witness : sanitize "report-2.pdf" = "report-2.pdf".
Proof.
  apply (proj2 (proj2 (proj2 (proj2 (sanitize_yields_safe_name "report-2.pdf"))))).
  reflexivity.
Defined.

Lemma split_no_sep sep s :
  string_forall (λ c, negb (Ascii.eqb c sep)) s = true → split sep s = [s].
Proof.
  induction s as [|c s IH]; simpl; [done|].
  intros Hall. apply Bool.andb_true_iff in Hall as [Hc Hall].
  apply Bool.negb_true_iff in Hc. rewrite Hc, IH by done. done.
Qed.

Lemma split_app_sep sep s rest :
  string_forall (λ c, negb (Ascii.eqb c sep)) s = true →
  split sep (s +:+ String sep rest) = s :: split sep rest.
Proof.
  induction s as [|c s IH]; simpl.
  - intros _. by rewrite Ascii.eqb_refl.
  - intros Hall. apply Bool.andb_true_iff in Hall as [Hc Hall].
    apply Bool.negb_true_iff in Hc. rewrite Hc, IH by done. done.
Qed.

(** X3: the chunk text is decoded from what stands between its first and
    its second comma: the marker before the first comma is dropped, anything
    after a second comma is ignored, and a text without a comma cannot be
    decoded. *)
Theorem decode_chunk_strips_marker `{Platform} (marker body : string) :
  no_comma marker = true → no_comma body = true →
  decode_chunk (marker +:+ "," +:+ body) = inr (base64_decode body)
  ∧ (∀ rest, decode_chunk (marker +:+ "," +:+ body +:+ "," +:+ rest)
             = inr (base64_decode body))
  ∧ decode_chunk marker = inl TypeError.
Proof.
  unfold no_comma, decode_chunk. intros Hm Hb. repeat split.
  - change (marker +:+ "," +:+ body) with (marker +:+ String "," body).
    by rewrite split_app_sep, split_no_sep.
  - intros rest.
    change (marker +:+ "," +:+ body +:+ "," +:+ rest)
      with (marker +:+ String "," (body +:+ String "," rest)).
    by rewrite !split_app_sep.
  - by rewrite split_no_sep.
Qed.

Lemma decode_chunk_strips_marker_witness :
  @decode_chunk sample_platform "data:image/png;base64,iVBORw0KGgo="
  = inr (@base64_decode sample_platform "iVBORw0KGgo=").
Proof.
  apply (proj1 (@decode_chunk_strips_marker sample_platform
                  "data:image/png;base64" "iVBORw0KGgo=" eq_refl eq_refl)).
Defined.

(** ** Upload chunks: replies, contents, sessions that cannot complete *)

Lemma decode_chunk_not_decodes `{Platform} chunk :
  decodes chunk = false → decode_chunk chunk = inl TypeError.
Proof.
  unfold decodes, decode_chunk. by destruct (split "," chunk !! 1%nat).
Qed.

Lemma no_reply_in_deliver_and_echo e c m st :
  List.filter is_chunk_reply (snd (deliver_and_echo e c m st)) = [].
Proof. unfold deliver_and_echo. by destruct (socket_of _ _). Qed.

(** X4: every upload chunk is answered to its sender exactly once, by the
    last action of the handler, with either chunk-received or upload-error
    for the identifier of the chunk; a chunk for an unknown session or with
    text that cannot be decoded is answered with upload-error and changes
    nothing. *)
Theorem chunk_is_answered_once `{Platform} (e : Env) (c : Socket)
    (p : UploadChunkPayload) (st : State) :
  let r := handleUploadChunk e c p st in
  (List.filter is_chunk_reply (snd r)
     = [client_emit (id c) (chunkReceived (p_uploadId p) (p_chunkIndex p))]
   ∨ List.filter is_chunk_reply (snd r) = [upload_error c p])
  ∧ (∃ reply, last (snd r) = Some reply ∧ List.filter is_chunk_reply (snd r) = [reply])
  ∧ (tempUploads st !! p_uploadId p = None ∨ decodes (p_chunk p) = false →
     r = (st, [upload_error c p])).
Proof.
  intros r. subst r. split; [| split].
  - destruct (handleUploadChunk_actions e c p st) as [->|[->|(m & st1 & ->)]];
      [by right | by left |].
    left. by rewrite List.filter_app, no_reply_in_deliver_and_echo.
  - destruct (handleUploadChunk_actions e c p st) as [->|[->|(m & st1 & ->)]];
      [simpl; eauto | simpl; eauto |].
    eexists. rewrite last_snoc, List.filter_app, no_reply_in_deliver_and_echo. done.
  - intros [Hu|Hd].
    + by apply handleUploadChunk_unknown.
    + destruct (tempUploads st !! p_uploadId p) as [upload|] eqn:Hu;
        [| by apply handleUploadChunk_unknown].
      eapply handleUploadChunk_undecoded; [done|]. by apply decode_chunk_not_decodes.
Qed.

Lemma chunk_is_answered_once_witness :
  @handleUploadChunk sample_platform {| now := 6; random_tail := "" |} alice
    {| p_uploadId := "5-k3x9"; p_chunk := "aGk="; p_chunkIndex := 0;
       p_receiver := "bob"; p_fileName := "a.txt"; p_fileType := "text/plain";
       p_fileSize := 2 |} two_chunk_session
  = (two_chunk_session,
     [client_emit "s1" (uploadError "Failed to upload chunk" (Some "5-k3x9"))]).
Proof.
  apply (proj2 (proj2 (@chunk_is_answered_once sample_platform
                         {| now := 6; random_tail := "" |} alice
                         {| p_uploadId := "5-k3x9"; p_chunk := "aGk="; p_chunkIndex := 0;
                            p_receiver := "bob"; p_fileName := "a.txt";
                            p_fileType := "text/plain"; p_fileSize := 2 |}
                         two_chunk_session))).
  right. reflexivity.
Defined.

Lemma lookup_array_assign_eq (a : JsArray Buffer) i v :
  array_index i → array_assign a i v !! Z.to_nat i = Some (Some v).
Proof.
  intros Hi. unfold array_assign.
  destruct (decide (array_index i)); [| done].
  destruct (decide (Z.to_nat i < length a)%nat).
  - by apply list_lookup_insert_eq.
  - rewrite lookup_app_r by lia. rewrite lookup_app_r by (rewrite length_replicate; lia).
    rewrite length_replicate.
    replace (Z.to_nat i - length a - (Z.to_nat i - length a))%nat with 0%nat by lia.
    done.
Qed.

Lemma lookup_array_assign_Some (a : JsArray Buffer) i v j b :
  array_assign a i v !! j = Some (Some b) →
  (array_index i ∧ j = Z.to_nat i ∧ b = v) ∨ a !! j = Some (Some b).
Proof.
  intros Hj. destruct (decide (array_index i)) as [Hi|Hi];
    [| right; by rewrite array_assign_property in Hj by done].
  destruct (decide (j = Z.to_nat i)) as [->|Hne].
  - left. rewrite lookup_array_assign_eq in Hj by done. by simplify_eq.
  - right. unfold array_assign in Hj. destruct (decide (array_index i)); [| done].
    destruct (decide (Z.to_nat i < length a)%nat).
    + by rewrite list_lookup_insert_ne in Hj.
    + destruct (decide (j < length a)%nat); [by rewrite lookup_app_l in Hj|].
      exfalso. rewrite lookup_app_r in Hj by lia.
      destruct (decide (j - length a < Z.to_nat i - length a)%nat).
      * rewrite lookup_app_l in Hj by (rewrite length_replicate; lia).
        apply lookup_replicate in Hj as [? _]. done.
      * rewrite lookup_app_r in Hj by (rewrite length_replicate; lia).
        rewrite length_replicate in Hj.
        destruct (j - length a - (Z.to_nat i - length a))%nat eqn:E; [lia | done].
Qed.

Lemma Buffer_concat_agrees (expected : list Buffer) (a : JsArray Buffer) fileData :
  Buffer_concat a = inr fileData →
  length a = length expected →
  agrees expected a →
  fileData = concat expected.
Proof.
  unfold Buffer_concat, agrees. revert expected fileData.
  induction a as [|[b|] a IH]; intros [|x expected] fileData; csimpl;
    intros Hc Hlen Hag; try done.
  - by injection Hc as <-.
  - destruct (mapM Datatypes.id a) as [bs|] eqn:E; [| done]. csimpl in Hc.
    injection Hc as <-.
    pose proof (Hag 0%nat b eq_refl) as Hx. simpl in Hx. injection Hx as ->.
    simpl. f_equal. apply IH; [done | lia |].
    intros j b' Hj. apply (Hag (S j) b' Hj).
Qed.

Section Contents.
Context `{Platform}.
Variables (u : string) (expected : list Buffer).

Lemma carries_decodable ev : carries expected ev → decodable ev = true.
Proof.
  unfold carries, decodable, decode_chunk, decodes.
  destruct (event ev); try done. intros [_ Hc].
  by destruct (split "," (p_chunk payload) !! 1%nat).
Qed.

Lemma carries_in_range ev :
  carries expected ev → 0 ≤ index_of ev < Z.of_nat (length expected).
Proof.
  unfold carries, index_of. destruct (event ev); try done. intros [Hi Hc].
  destruct (decode_chunk _); [done|]. apply lookup_lt_Some in Hc. lia.
Qed.

(** Chunks that carry the expected buffers keep the array in agreement. *)
Lemma run_keeps_agreement (N : Z) evs :
  ∀ st,
    (∀ upload, tempUploads st !! u = Some upload →
               agrees expected (chunks upload) ∧ totalChunks upload = N) →
    forallb (for_session u) evs = true →
    List.Forall (carries expected) evs →
    ∀ upload, tempUploads (fst (run evs st)) !! u = Some upload →
              agrees expected (chunks upload) ∧ totalChunks upload = N.
Proof.
  induction evs as [|ev evs IH]; intros st Hag Hsess Hcar; simpl in *; [done|].
  apply Bool.andb_true_iff in Hsess as [Hev Hsess].
  apply List.Forall_cons_iff in Hcar as [Hc Hcar].
  apply for_session_inv in Hev as (p & Hev & Hp).
  unfold carries in Hc. rewrite Hev in Hc. destruct Hc as [Hi Hc].
  rewrite (handle_chunk ev p st Hev).
  assert (∀ upload, tempUploads (fst (handleUploadChunk (env ev) (client ev) p st)) !! u
                    = Some upload →
                    agrees expected (chunks upload) ∧ totalChunks upload = N) as Hag'.
  { destruct (handleUploadChunk_outcome (env ev) (client ev) p st)
      as [->|(upload0 & data & Hu & Hd &
            [[-> _]|[(fileData & _ & _ & ->)|(fileData & _ & _ & ->)]])]; [done | | |].
    - intros upload. unfold accumulated. simpl. rewrite Hp, lookup_insert_eq.
      intros [= <-]. simpl. rewrite Hd in Hc. rewrite Hp in Hu.
      destruct (Hag upload0 Hu) as [Hag0 Htot]. split; [| done].
      intros j b Hj. apply lookup_array_assign_Some in Hj as [(_ & -> & ->)|Hj]; [done|].
      by apply Hag0.
    - intros upload. unfold unsaved, accumulated. simpl. rewrite Hp, lookup_insert_eq.
      intros [= <-]. simpl. rewrite Hd in Hc. rewrite Hp in Hu.
      destruct (Hag upload0 Hu) as [Hag0 Htot]. split; [| done].
      intros j b Hj. apply lookup_array_assign_Some in Hj as [(_ & -> & ->)|Hj]; [done|].
      by apply Hag0.
    - intros upload. unfold completed. simpl. by rewrite Hp, lookup_delete_eq. }
  destruct (handleUploadChunk (env ev) (client ev) p st) as [st1 out1]. simpl in *.
  specialize (IH st1 Hag' Hsess Hcar).
  by destruct (run evs st1).
Qed.

End Contents.

Lemma run_fresh_session `{Platform} u N evs st :
  wf st →
  tempUploads st !! u = Some {| chunks := []; chunk_properties := ∅; totalChunks := N |} →
  forallb (for_session u) evs = true →
  forallb decodable evs = true →
  List.NoDup (List.map index_of evs) →
  List.Forall (λ ev, 0 ≤ index_of ev < N) evs →
  Z.of_nat (length evs) ≤ N → N ≤ 4294967295 →
  (Z.of_nat (length evs) < N → still_accumulating u st (fst (run evs st)))
  ∧ (Z.of_nat (length evs) = N → evs ≠ [] →
     (∀ ev, last evs = Some ev → storable ev) →
     completed_once u st (fst (run evs st))).
Proof.
  intros Hwf Hu Hs Hd Hn Hr Hl HN.
  apply (run_distinct_indices u N HN evs st
           {| chunks := []; chunk_properties := ∅; totalChunks := N |} []);
    try done; simpl; try lia.
  intros j [b Hb]. done.
Qed.

(** X5: when the chunks of a session of at most 2^32 - 1 chunks arrive one
    after another with pairwise distinct indices, each carrying the buffer
    expected at its index, and the last arrival can be stored (the file
    system takes the file, the sender and the receiver are not empty), that
    last arrival writes one file whose bytes are the expected buffers
    concatenated in index order, whatever the order of arrival; the file is
    stored under the time of that arrival, a hyphen and the sanitised name,
    and the message created names that file in its URL and takes its sender
    from the connection and its receiver, file name, type and size from the
    payload of that last chunk. *)
Theorem upload_reassembles_in_index_order `{Platform} (u : string)
    (expected : list Buffer) (st : State) (evs : list Inbound) (ev : Inbound)
    (p : UploadChunkPayload) :
  wf st →
  tempUploads st !! u
    = Some {| chunks := []; chunk_properties := ∅;
              totalChunks := Z.of_nat (length expected) |} →
  Z.of_nat (length expected) ≤ 4294967295 →
  event ev = uploadChunk p →
  storable ev →
  forallb (for_session u) (evs ++ [ev]) = true →
  List.NoDup (List.map index_of (evs ++ [ev])) →
  length (evs ++ [ev]) = length expected →
  List.Forall (carries expected) (evs ++ [ev]) →
  let st' := fst (run (evs ++ [ev]) st) in
  let name := pretty (now (env ev)) +:+ "-" +:+ sanitize (p_fileName p) in
  uploadDir st' = <[name := concat expected]> (uploadDir st)
  ∧ ∃ m, findById (nextObjectId st) (privateMessageModel st') = Some m
         ∧ sender m = username (client ev)
         ∧ receiver m = p_receiver p
         ∧ content m = "Shared a file: " +:+ p_fileName p
         ∧ fileUrl m = Some ("/uploads/" +:+ name)
         ∧ fileName m = Some (p_fileName p)
         ∧ fileType m = Some (p_fileType p)
         ∧ fileSize m = Some (p_fileSize p).
Proof.
  intros Hwf Hu HN Hev Hstorable Hsess Hnd Hlen Hcar st' name.
  set (N := Z.of_nat (length expected)) in *.
  assert (forallb decodable (evs ++ [ev]) = true) as Hdec.
  { apply forallb_forall. intros x Hx. apply (carries_decodable expected).
    rewrite List.Forall_forall in Hcar. by apply Hcar. }
  assert (List.Forall (λ x, 0 ≤ index_of x < N) (evs ++ [ev])) as Hrange.
  { eapply List.Forall_impl; [| exact Hcar]. apply carries_in_range. }
  assert (evs ++ [ev] ≠ []) as Hne by (by destruct evs).
  assert (Z.of_nat (length (evs ++ [ev])) = N) as HlenN by (unfold N; lia).
  (* the run as a whole completes once *)
  destruct (run_fresh_session u N (evs ++ [ev]) st Hwf Hu Hsess Hdec Hnd Hrange
              ltac:(lia) HN) as [_ Hdone].
  specialize (Hdone HlenN Hne).
  specialize (Hdone ltac:(intros ev'; rewrite last_snoc; by intros [= <-])).
  (* the events before the last leave the session accumulating *)
  rewrite forallb_app in Hsess, Hdec.
  apply Bool.andb_true_iff in Hsess as [Hsess1 Hsess2].
  apply Bool.andb_true_iff in Hdec as [Hdec1 _].
  apply List.Forall_app in Hrange as [Hrange1 _].
  apply List.Forall_app in Hcar as [Hcar1 Hcar2].
  apply List.Forall_cons_iff in Hcar2 as [Hcarev _].
  rewrite length_app in HlenN. simpl in HlenN.
  rewrite List.map_app in Hnd. apply NoDup_app_remove_r in Hnd.
  destruct (run_fresh_session u N evs st Hwf Hu Hsess1 Hdec1 Hnd Hrange1 ltac:(lia) HN)
    as [Hacc _].
  specialize (Hacc ltac:(lia)).
  destruct Hacc as ([session Hsession] & Hpm & Hdir & Hnext).
  pose proof (run_keeps_agreement u expected N evs st) as Hagree.
  specialize (Hagree ltac:(intros upload Hup; rewrite Hu in Hup; by simplify_eq)
                Hsess1 Hcar1).
  (* the last chunk *)
  subst st'. rewrite run_app in *. simpl in *.
  set (st1 := fst (run evs st)) in *.
  simpl in Hsess2. apply Bool.andb_true_iff in Hsess2 as [Hsess2 _].
  apply for_session_inv in Hsess2 as (p' & Hev' & Hp). rewrite Hev in Hev'.
  injection Hev' as <-.
  unfold carries in Hcarev. rewrite Hev in Hcarev. destruct Hcarev as [Hi Hdata].
  rewrite (handle_chunk ev p st1 Hev) in *.
  destruct (handleUploadChunk_outcome (env ev) (client ev) p st1)
    as [Hst|(upload & data & Hup & Hd &
          [[Hst _]|[(fileData & Hc & Hb & Hst)|(fileData & Hc & Hb & Hst)]])].
  - exfalso. destruct (handleUploadChunk (env ev) (client ev) p st1) as [st2 out2].
    simpl in *. subst st2. destruct Hdone as [Hgone _]. congruence.
  - exfalso. destruct (handleUploadChunk (env ev) (client ev) p st1) as [st2 out2].
    simpl in *. subst st2. destruct Hdone as [Hgone _].
    unfold accumulated in Hgone. simpl in Hgone. by rewrite Hp, lookup_insert_eq in Hgone.
  - exfalso. destruct (handleUploadChunk (env ev) (client ev) p st1) as [st2 out2].
    simpl in *. subst st2. destruct Hdone as [Hgone _].
    unfold unsaved, accumulated in Hgone. simpl in Hgone.
    by rewrite Hp, lookup_insert_eq in Hgone.
  - destruct (handleUploadChunk (env ev) (client ev) p st1) as [st2 out2].
    simpl in *. subst st2. rewrite Hp in Hup.
    destruct (Hagree upload Hup) as [Hag Htot].
    rewrite Hd in Hdata.
    assert (fileData = concat expected) as ->.
    { apply Buffer_concat_inr in Hb as Hb'. destruct Hb' as [Hfull _].
      apply (Buffer_concat_agrees expected _ _ Hb).
      - simpl in *. lia.
      - simpl. intros j b Hj.
        apply lookup_array_assign_Some in Hj as [(_ & -> & ->)|Hj]; [done | by apply Hag]. }
    unfold completed. simpl. rewrite Hdir, Hnext, Hpm. split; [done|].
    unfold delivered_store. simpl.
    destruct (socket_of _ _); eexists; rewrite !findById_save; simpl;
      rewrite Nat.eqb_refl; (split; [reflexivity|]); simpl; done.
Qed.

Lemma upload_reassembles_in_index_order_witness :
  let d := @base64_decode sample_platform "aGk=" in
  let st' := fst (@run sample_platform
                    ([at_time 6 alice (uploadChunk (chunk 1))]
                     ++ [at_time 7 alice (uploadChunk (chunk 0))]) two_chunk_session) in
  let name := pretty (7 : Z) +:+ "-" +:+ sanitize "my notes.txt" in
  uploadDir st' = <[name := concat [d; d]]> (uploadDir two_chunk_session)
  ∧ ∃ m, findById 0 (privateMessageModel st') = Some m
         ∧ sender m = "alice"
         ∧ receiver m = "bob"
         ∧ content m = "Shared a file: " +:+ "my notes.txt"
         ∧ fileUrl m = Some ("/uploads/" +:+ name)
         ∧ fileName m = Some "my notes.txt"
         ∧ fileType m = Some "text/plain"
         ∧ fileSize m = Some 4.
Proof.
  refine (@upload_reassembles_in_index_order sample_platform "5-k3x9"
            [@base64_decode sample_platform "aGk="; @base64_decode sample_platform "aGk="]
            two_chunk_session [at_time 6 alice (uploadChunk (chunk 1))]
            (at_time 7 alice (uploadChunk (chunk 0))) (chunk 0) _ _ _ _ _ _ _ _ _).
  - unfold wf. vm_compute. repeat split; repeat constructor; simpl; tauto.
  - reflexivity.
  - simpl. lia.
  - reflexivity.
  - split; [intros data; reflexivity|]. split; discriminate.
  - reflexivity.
  - simpl. repeat constructor; simpl; intuition discriminate.
  - reflexivity.
  - apply List.Forall_cons; [split; [simpl; lia | reflexivity]|].
    apply List.Forall_cons; [split; [simpl; lia | reflexivity]|]. apply List.Forall_nil.
Defined.

Lemma length_array_assign_ge (a : JsArray Buffer) i v :
  (length a ≤ length (array_assign a i v))%nat.
Proof.
  destruct (decide (array_index i)).
  - rewrite length_array_assign by done. lia.
  - by rewrite array_assign_property.
Qed.

Section Overlong.
Context `{Platform}.

Lemma overlong_chunk_is_only_stored e c p st upload data :
  tempUploads st !! p_uploadId p = Some upload →
  decode_chunk (p_chunk p) = inr data →
  totalChunks upload < Z.of_nat (length (chunks (stored p data upload))) →
  fst (handleUploadChunk e c p st) = accumulated p data upload st.
Proof.
  intros Hu Hd Hlong.
  destruct (decide (Z.of_nat (length (filter_Boolean (chunks (stored p data upload))))
                    = totalChunks upload)) as [Hc|Hc];
    [| by erewrite handleUploadChunk_counting].
  destruct (Buffer_concat (chunks (stored p data upload))) as [ex|fileData] eqn:Hb;
    [by erewrite handleUploadChunk_holes|].
  apply Buffer_concat_inr in Hb as [Hfull _]. lia.
Qed.

Lemma run_overlong u evs :
  ∀ st upload,
    tempUploads st !! u = Some upload →
    totalChunks upload < Z.of_nat (length (chunks upload)) →
    forallb (for_session u) evs = true →
    still_accumulating u st (fst (run evs st)).
Proof.
  induction evs as [|ev evs IH]; intros st upload Hu Hlong Hsess; simpl in *.
  - unfold still_accumulating. rewrite Hu. eauto.
  - apply Bool.andb_true_iff in Hsess as [Hev Hsess].
    apply for_session_inv in Hev as (p & Hev & Hp).
    rewrite (handle_chunk ev p st Hev). rewrite <- Hp in Hu.
    destruct (decode_chunk (p_chunk p)) as [ex|data] eqn:Hd.
    + erewrite handleUploadChunk_undecoded by done.
      rewrite Hp in Hu. specialize (IH st upload Hu Hlong Hsess).
      by destruct (run evs st).
    + pose proof (overlong_chunk_is_only_stored (env ev) (client ev) p st upload data
                    Hu Hd) as Hst.
      pose proof (length_array_assign_ge (chunks upload) (p_chunkIndex p) data) as Hge.
      specialize (Hst ltac:(simpl; lia)).
      destruct (handleUploadChunk (env ev) (client ev) p st) as [st1 out1].
      simpl in *. subst st1.
      specialize (IH (accumulated p data upload st) (stored p data upload)).
      destruct (run evs (accumulated p data upload st)) as [st2 out2]. simpl in *.
      apply (still_accumulating_step u p data upload). apply IH; [| simpl; lia | done].
      unfold accumulated. simpl. rewrite Hp. apply lookup_insert_eq.
Qed.

End Overlong.

(** X6: a session whose array is longer than [totalChunks] can never be
    completed by upload chunks: whatever chunks follow, it stays in place
    and no message or file is written.  A session gets there as soon as one
    decodable chunk has an array index (at most 2^32 - 2) of [totalChunks]
    or more (the chunk is stored all the same), and is there from the start
    when [totalChunks] is negative. *)
Theorem overlong_session_never_completes `{Platform} (u : string) (st : State)
    (upload : Upload) (evs : list Inbound) :
  tempUploads st !! u = Some upload →
  forallb (for_session u) evs = true →
  totalChunks upload < Z.of_nat (length (chunks upload))
  ∨ (∃ ev evs', evs = ev :: evs' ∧ decodable ev = true
                ∧ array_index (index_of ev) ∧ totalChunks upload ≤ index_of ev) →
  still_accumulating u st (fst (run evs st)).
Proof.
  intros Hu Hsess [Hlong|(ev & evs' & -> & Hdec & Hi & Hbig)].
  - by apply (run_overlong u evs st upload).
  - simpl in *. apply Bool.andb_true_iff in Hsess as [Hev Hsess].
    apply for_session_inv in Hev as (p & Hev & Hp).
    unfold decodable, index_of in *. rewrite Hev in *.
    apply decode_chunk_decodes in Hdec as [data Hd].
    rewrite (handle_chunk ev p st Hev). rewrite <- Hp in Hu.
    pose proof (length_array_assign (chunks upload) (p_chunkIndex p) data Hi) as Hlen.
    pose proof (overlong_chunk_is_only_stored (env ev) (client ev) p st upload data
                  Hu Hd ltac:(simpl; lia)) as Hst.
    destruct (handleUploadChunk (env ev) (client ev) p st) as [st1 out1].
    simpl in *. subst st1.
    pose proof (run_overlong u evs' (accumulated p data upload st) (stored p data upload))
      as Hrest.
    destruct (run evs' (accumulated p data upload st)) as [st2 out2]. simpl in *.
    apply (still_accumulating_step u p data upload). apply Hrest; [| simpl; lia | done].
    unfold accumulated. simpl. rewrite Hp. apply lookup_insert_eq.
Qed.

Lemma overlong_session_never_completes_witness :
  still_accumulating "5-k3x9" two_chunk_session
    (fst (@run sample_platform
            [at_time 6 alice (uploadChunk (chunk 2)); at_time 7 alice (uploadChunk (chunk 0));
             at_time 8 alice (uploadChunk (chunk 1))] two_chunk_session)).
Proof.
  apply (@overlong_session_never_completes sample_platform "5-k3x9" two_chunk_session
           {| chunks := []; chunk_properties := ∅; totalChunks := 2 |}).
  - reflexivity.
  - reflexivity.
  - right. eexists _, _. split; [reflexivity|]. split; [reflexivity|].
    unfold array_index, index_of. simpl. lia.
Defined.

(** The bound on the index matters: 2^32 - 1 is not an array index, so that
    a chunk with that index becomes a property of the array object, which
    the count and the concatenation do not see, and the session of one
    chunk is then completed by the chunk of index 0. *)
Example chunk_beyond_the_array_indices :
  let st := fst (@run sample_platform
                   [at_time 1 alice connection; at_time 5 alice (startFileUpload 1)]
                   (initial [])) in
  let st1 := fst (@run sample_platform [at_time 6 alice (uploadChunk (chunk 4294967295))]
                    st) in
  let st2 := fst (@run sample_platform [at_time 7 alice (uploadChunk (chunk 0))] st1) in
  (∃ upload, tempUploads st1 !! "5-k3x9" = Some upload
             ∧ chunks upload = []
             ∧ chunk_properties upload !! 4294967295
               = Some (@base64_decode sample_platform "aGk="))
  ∧ still_accumulating "5-k3x9" st st1
  ∧ completed_once "5-k3x9" st st2.
Proof.
  intros st st1 st2. split; [| split].
  - eexists. split; [reflexivity|]. split; reflexivity.
  - split; [by eexists|]. repeat split.
  - split; [reflexivity|]. split; [reflexivity|]. split; [reflexivity|].
    eexists _, _. reflexivity.
Qed.

(** ** Typing tracker: start and stop *)

Lemma handleTyping_fst c to st :
  fst (handleTyping c to st)
  = with_typingUsers (started (username c) to (typingUsers st)) st.
Proof.
  unfold handleTyping, started.
  destruct (typingUsers st !! username c) as [set_u|] eqn:E; simpl.
  - rewrite E. unfold socket_of. simpl. by destruct (when_truthy _).
  - rewrite lookup_insert_eq. unfold socket_of. simpl.
    rewrite insert_insert_eq. by destruct (when_truthy _).
Qed.

Lemma handleTyping_snd c to st :
  snd (handleTyping c to st)
  = match socket_of to st with
    | Some s => [server_to_emit s (userTyping (username c))]
    | None => []
    end.
Proof.
  unfold handleTyping.
  destruct (typingUsers st !! username c) as [set_u|] eqn:E; simpl.
  - rewrite E. unfold socket_of. simpl. by destruct (when_truthy _).
  - rewrite lookup_insert_eq. unfold socket_of. simpl. by destruct (when_truthy _).
Qed.

Lemma typing_to_started u r from to st :
  typing_to from to (with_typingUsers (started u r (typingUsers st)) st)
  = if decide (u = from ∧ r = to) then true else typing_to from to st.
Proof.
  unfold typing_to, started. simpl.
  destruct (decide (u = from)) as [->|Hne].
  - rewrite lookup_insert_eq.
    destruct (decide (from = from ∧ r = to)) as [[_ ->]|Hno].
    + apply bool_decide_eq_true. set_solver.
    + assert (r ≠ to) by tauto.
      destruct (typingUsers st !! from) as [set_u|]; simpl;
        [apply bool_decide_ext | apply bool_decide_eq_false]; set_solver.
  - rewrite lookup_insert_ne by done.
    destruct (decide (u = from ∧ r = to)) as [[? _]|_]; done.
Qed.

Lemma typing_to_stopped_other u r from to st :
  from ≠ u ∨ to ≠ r →
  typing_to from to (with_typingUsers (stopped u r (typingUsers st)) st)
  = typing_to from to st.
Proof.
  intros Hother. unfold typing_to, stopped. simpl.
  destruct (typingUsers st !! u) as [set_u|] eqn:Hu; [| done].
  destruct (decide (u = from)) as [->|Hne].
  - rewrite lookup_insert_eq, Hu. apply bool_decide_ext.
    assert (to ≠ r) by tauto. set_solver.
  - by rewrite lookup_insert_ne.
Qed.

(** X7: start-typing puts the recipient into the sender's set and changes
    no other pair; a second start-typing for the same recipient changes
    nothing; stop-typing takes the recipient out again and changes no other
    pair; stop-typing for a recipient the sender is not typing to leaves the
    state as it is; and start-typing sends user-typing with the sender's
    name to the recipient's socket, if there is one, and nothing otherwise. *)
Theorem typing_start_stop (c : Socket) (to : string) (st : State) :
  let st1 := fst (handleTyping c to st) in
  let st2 := fst (handleStopTyping c to st1) in
  typing_to (username c) to st1 = true
  ∧ (∀ from' to', from' ≠ username c ∨ to' ≠ to →
       typing_to from' to' st1 = typing_to from' to' st)
  ∧ fst (handleTyping c to st1) = st1
  ∧ typing_to (username c) to st2 = false
  ∧ (∀ from' to', from' ≠ username c ∨ to' ≠ to →
       typing_to from' to' st2 = typing_to from' to' st)
  ∧ (typing_to (username c) to st = false → fst (handleStopTyping c to st) = st)
  ∧ snd (handleTyping c to st)
    = match socket_of to st with
      | Some s => [server_to_emit s (userTyping (username c))]
      | None => []
      end.
Proof.
  intros st1 st2. subst st1 st2.
  rewrite !handleStopTyping_fst, !handleTyping_fst, handleTyping_snd.
  assert (∀ from' to', from' ≠ username c ∨ to' ≠ to →
            typing_to from' to' (with_typingUsers (started (username c) to (typingUsers st)) st)
            = typing_to from' to' st) as Hframe.
  { intros from' to' Hother. rewrite typing_to_started.
    destruct (decide _) as [[Hu Hr]|_]; [| done].
    symmetry in Hu, Hr. tauto. }
  repeat split.
  - rewrite typing_to_started. destruct (decide _) as [_|Hno]; [done | tauto].
  - exact Hframe.
  - unfold started. simpl. rewrite lookup_insert_eq. simpl.
    rewrite insert_insert_eq.
    replace (default ∅ (typingUsers st !! username c) ∪ {[to]} ∪ {[to]})
      with (default ∅ (typingUsers st !! username c) ∪ {[to]}) by set_solver.
    done.
  - apply (typing_to_stopped (username c) to
             (with_typingUsers (started (username c) to (typingUsers st)) st)).
  - intros from' to' Hother.
    rewrite (typing_to_stopped_other (username c) to from' to'
               (with_typingUsers (started (username c) to (typingUsers st)) st)) by done.
    by apply Hframe.
  - unfold typing_to, stopped.
    destruct (typingUsers st !! username c) as [set_u|] eqn:Hu;
      [| intros _; apply with_typingUsers_id].
    intros Hnot. apply bool_decide_eq_false in Hnot.
    replace (set_u ∖ {[to]}) with set_u by set_solver.
    rewrite insert_id by done. apply with_typingUsers_id.
Qed.

Lemma typing_start_stop_witness :
  fst (handleStopTyping alice "bob" one_undelivered) = one_undelivered.
Proof.
  apply (proj1 (proj2 (proj2 (proj2 (proj2 (proj2
           (typing_start_stop alice "bob" one_undelivered))))))).
  reflexivity.
Defined.

(** ** The user collection *)

Lemma project_out_doc_set_same k v d : project_out k (doc_set k v d) = project_out k d.
Proof.
  unfold project_out. induction d as [|[k' v'] d IH]; simpl.
  - by rewrite String.eqb_refl.
  - destruct (String.eqb k' k) eqn:E; simpl; rewrite E; simpl; [done | by rewrite IH].
Qed.

Lemma project_out_doc_set_other k k' v d :
  k ≠ k' → project_out k (doc_set k' v d) = doc_set k' v (project_out k d).
Proof.
  intros Hne. unfold project_out. induction d as [|[k0 v0] d IH]; simpl.
  - destruct (String.eqb k' k) eqn:E; [apply String.eqb_eq in E; congruence | done].
  - destruct (String.eqb k0 k') eqn:E'; simpl.
    + apply String.eqb_eq in E'. subst k0.
      destruct (String.eqb k' k) eqn:E; [apply String.eqb_eq in E; congruence|].
      simpl. by rewrite String.eqb_refl.
    + destruct (String.eqb k0 k) eqn:E; simpl; [done|]. by rewrite E', IH.
Qed.

Lemma identity_fields_set_presence b t d :
  identity_fields (set_presence b t d) = identity_fields d.
Proof.
  unfold identity_fields, set_presence.
  rewrite project_out_doc_set_same, project_out_doc_set_other by done.
  by rewrite project_out_doc_set_same.
Qed.

Lemma identity_fields_findOneAndUpdate p b t coll :
  List.map identity_fields (findOneAndUpdate p (set_presence b t) coll)
  = List.map identity_fields coll.
Proof.
  induction coll as [|d coll IH]; simpl; [done|].
  destruct (p d); simpl; [by rewrite identity_fields_set_presence | by rewrite IH].
Qed.

Lemma userModel_handleUploadChunk `{Platform} e c p st :
  userModel (fst (handleUploadChunk e c p st)) = userModel st.
Proof.
  destruct (handleUploadChunk_outcome e c p st)
    as [->|(upload & data & _ & _ &
          [[-> _]|[(fileData & _ & _ & ->)|(fileData & _ & _ & ->)]])]; done.
Qed.

Lemma identity_fields_handle `{Platform} i st :
  List.map identity_fields (userModel (fst (handle i st)))
  = List.map identity_fields (userModel st).
Proof.
  unfold handle. destruct (event i) as
    [ | |room|room|room content|to text|oid|other|query|to|to|total|payload|uploadId].
  - simpl. apply identity_fields_findOneAndUpdate.
  - unfold handleDisconnect. destruct (when_truthy _); [| done].
    simpl. apply identity_fields_findOneAndUpdate.
  - done.
  - done.
  - done.
  - rewrite handlePrivateMessage_fst. by destruct (validate _).
  - rewrite handleMarkMessageAsRead_fst.
    destruct (findById oid _); [| done]. by destruct (String.eqb _ _).
  - by rewrite handleGetPrivateMessages_fst.
  - unfold handleSearchUsers. by destruct (regex_i query).
  - by rewrite handleTyping_fst.
  - by rewrite handleStopTyping_fst.
  - done.
  - by rewrite userModel_handleUploadChunk.
  - done.
Qed.

(** X8: the gateway writes nothing to the user collection except the fields
    [isOnline] and [lastSeen]: after any sequence of events the collection
    has the same documents in the same order, each with every other field
    (the name and the password among them) as before. *)
Theorem user_collection_keeps_identity `{Platform} (evs : list Inbound) (st : State) :
  List.map identity_fields (userModel (fst (run evs st)))
  = List.map identity_fields (userModel st).
Proof.
  revert st. induction evs as [|i evs IH]; intros st; simpl; [done|].
  pose proof (identity_fields_handle i st) as Hstep.
  destruct (handle i st) as [st1 out1]. simpl in *.
  specialize (IH st1). destruct (run evs st1) as [st2 out2]. simpl in *.
  congruence.
Qed.

(** ** Connections *)

Lemma Map_set_fresh {V} k (v : V) (m : JsMap string V) :
  Map_get k m = None → Map_set k v m = m ++ [(k, v)].
Proof.
  unfold Map_get. induction m as [|[k' v'] m IH]; simpl; [done|].
  destruct (String.eqb k' k); simpl; [done|]. intros Hnone. by rewrite IH.
Qed.

Lemma Map_delete_fresh {V} k (m : JsMap string V) :
  Map_get k m = None → Map_delete k m = m.
Proof.
  unfold Map_get, Map_delete. induction m as [|[k' v'] m IH]; simpl; [done|].
  destruct (String.eqb k' k); simpl; [done|]. intros Hnone. by rewrite IH.
Qed.

Lemma Map_delete_set_fresh {V} k (v : V) (m : JsMap string V) :
  Map_get k m = None → Map_delete k (Map_set k v m) = m.
Proof.
  intros Hnone. rewrite Map_set_fresh by done. unfold Map_delete.
  rewrite List.filter_app. simpl. rewrite String.eqb_refl. simpl.
  rewrite app_nil_r. by apply Map_delete_fresh.
Qed.

(** X9: a disconnect of a socket that is not registered changes nothing and
    broadcasts nothing.  A connection of a new socket followed by its
    disconnect gives back the registry as it was, leaves the user without a
    typing set and broadcasts the user list once more; unless the username
    is the empty string, in which case the disconnect is ignored and the
    socket stays registered. *)
Theorem connect_then_disconnect (e e' : Env) (c : Socket) (st : State) :
  Map_get (id c) (connectedUsers st) = None →
  let st1 := fst (handleConnection e c st) in
  let r := handleDisconnect e' c st1 in
  handleDisconnect e' c st = (st, [])
  ∧ (username c ≠ "" →
     connectedUsers (fst r) = connectedUsers st
     ∧ typingUsers (fst r) !! username c = None
     ∧ snd r = broadcastUserList (fst r))
  ∧ (username c = "" → r = (st1, [])).
Proof.
  intros Hnew st1 r. subst r st1. unfold handleDisconnect. split; [| split].
  - by rewrite Hnew.
  - intros Hname. simpl. rewrite Map_get_set_eq. simpl.
    unfold truthy. apply String.eqb_neq in Hname. rewrite Hname. simpl.
    split; [by apply Map_delete_set_fresh|]. split; [apply lookup_delete_eq | done].
  - intros Hname. simpl. rewrite Map_get_set_eq. simpl. by rewrite Hname.
Qed.

Lemma connect_then_disconnect_witness :
  let st1 := fst (handleConnection {| now := 3; random_tail := "" |} bob one_undelivered) in
  let r := handleDisconnect {| now := 4; random_tail := "" |} bob st1 in
  connectedUsers (fst r) = connectedUsers one_undelivered
  ∧ typingUsers (fst r) !! "bob" = None
  ∧ snd r = broadcastUserList (fst r).
Proof.
  apply (proj1 (proj2 (connect_then_disconnect {| now := 3; random_tail := "" |}
                         {| now := 4; random_tail := "" |} bob one_undelivered eq_refl))).
  discriminate.
Defined.

Lemma find_key_of_value_app x (m m' : JsMap string string) :
  find_key_of_value x (m ++ m')
  = match find_key_of_value x m with
    | Some k => Some k
    | None => find_key_of_value x m'
    end.
Proof.
  unfold find_key_of_value. induction m as [|[k v] m IH]; simpl; [done|].
  destruct (String.eqb v x); simpl; [done | exact IH].
Qed.

(** X10: a targeted send goes to the socket that registered first under the
    username: when a new socket connects, a username that had a socket
    keeps it as its target, the connecting user's own name included, and
    only a username without any socket gets the new one. *)
Theorem new_connection_keeps_targets (e : Env) (c : Socket) (st : State) (u : string) :
  Map_get (id c) (connectedUsers st) = None →
  find_key_of_value u (connectedUsers (fst (handleConnection e c st)))
  = match find_key_of_value u (connectedUsers st) with
    | Some s => Some s
    | None => if String.eqb (username c) u then Some (id c) else None
    end.
Proof.
  intros Hnew. simpl. rewrite Map_set_fresh by done.
  rewrite find_key_of_value_app. destruct (find_key_of_value u _); [done|].
  unfold find_key_of_value. simpl. by destruct (String.eqb (username c) u).
Qed.

Lemma new_connection_keeps_targets_witness :
  let st := fst (handleConnection {| now := 3; random_tail := "" |} bob one_undelivered) in
  find_key_of_value "bob"
    (connectedUsers (fst (handleConnection {| now := 4; random_tail := "" |} bob_again st)))
  = Some "s2".
Proof.
  exact (new_connection_keeps_targets {| now := 4; random_tail := "" |} bob_again
           (fst (handleConnection {| now := 3; random_tail := "" |} bob one_undelivered))
           "bob" eq_refl).
Defined.

(** ** The history response *)

#[local] Instance by_timestamp_total : Total by_timestamp.
Proof. intros a b. unfold by_timestamp. lia. Qed.

#[local] Instance by_timestamp_transitive : Transitive by_timestamp.
Proof. intros a b c. unfold by_timestamp. lia. Qed.

(** X11: the history request is answered, as the last action, with one
    private-messages event to the caller; its list holds exactly the stored
    messages between the caller and the other party, in either direction,
    ordered by timestamp, and each as it was stored before the request (a
    message this request marks delivered is listed undelivered). *)
Theorem history_response_is_sorted_conversation (e : Env) (c : Socket)
    (other : string) (st : State) :
  ∃ ms,
    last (snd (handleGetPrivateMessages e c other st))
    = Some (client_emit (id c) (privateMessages ms))
    ∧ StronglySorted by_timestamp ms
    ∧ ms ≡ₚ List.filter
              (λ m, (String.eqb (sender m) (username c) && String.eqb (receiver m) other)
                    || (String.eqb (sender m) other && String.eqb (receiver m) (username c)))
              (privateMessageModel st)
    ∧ (∀ m, In m (unread_for (username c) other (privateMessageModel st)) →
            In m ms ∧ isDelivered m = false).
Proof.
  exists (find_conversation (username c) other (privateMessageModel st)).
  rewrite handleGetPrivateMessages_snd, last_snoc.
  split; [done|]. unfold find_conversation at 1 2.
  split; [apply StronglySorted_merge_sort; apply _|].
  split; [apply merge_sort_Permutation|].
  intros m Hm. unfold unread_for in Hm. apply filter_In in Hm as [Hin Hflag].
  split; [done|]. apply Bool.andb_true_iff in Hflag as [Hd _].
  by apply Bool.negb_true_iff in Hd.
Qed.

(** ** Room messages *)

Lemma messageModel_handleUploadChunk `{Platform} e c p st :
  messageModel (fst (handleUploadChunk e c p st)) = messageModel st.
Proof.
  destruct (handleUploadChunk_outcome e c p st)
    as [->|(upload & data & _ & _ &
          [[-> _]|[(fileData & _ & _ & ->)|(fileData & _ & _ & ->)]])]; done.
Qed.

(** X12: a room message is stored as one new document at the end of the
    room collection, with the caller's authenticated name as its sender and
    the room and content of the request, and is sent to that room and to
    nobody else; no other event changes the room collection, so after any
    sequence of events the earlier collection is still there, unchanged, as
    the beginning of the later one. *)
Theorem room_messages_are_appended `{Platform} :
  (∀ i st,
     match event i with
     | sendMessage room content =>
         let m := {| msg_id := nextObjectId st; msg_sender := username (client i);
                     msg_content := content; msg_room := room |} in
         messageModel (fst (handle i st)) = messageModel st ++ [m]
         ∧ snd (handle i st) = [server_to_emit room (newMessage m)]
     | _ => messageModel (fst (handle i st)) = messageModel st
     end)
  ∧ (∀ evs st, ∃ new, messageModel (fst (run evs st)) = messageModel st ++ new).
Proof.
  assert (∀ i st,
     match event i with
     | sendMessage room content =>
         let m := {| msg_id := nextObjectId st; msg_sender := username (client i);
                     msg_content := content; msg_room := room |} in
         messageModel (fst (handle i st)) = messageModel st ++ [m]
         ∧ snd (handle i st) = [server_to_emit room (newMessage m)]
     | _ => messageModel (fst (handle i st)) = messageModel st
     end) as Hstep.
  { intros i st. unfold handle. destruct (event i) as
      [ | |room|room|room content|to text|oid|other|query|to|to|total|payload|uploadId].
    - done.
    - unfold handleDisconnect. by destruct (when_truthy _).
    - done.
    - done.
    - done.
    - rewrite handlePrivateMessage_fst. by destruct (validate _).
    - rewrite handleMarkMessageAsRead_fst.
      destruct (findById oid _); [| done]. by destruct (String.eqb _ _).
    - by rewrite handleGetPrivateMessages_fst.
    - unfold handleSearchUsers. by destruct (regex_i query).
    - by rewrite handleTyping_fst.
    - by rewrite handleStopTyping_fst.
    - done.
    - apply messageModel_handleUploadChunk.
    - done. }
  split; [exact Hstep|].
  intros evs. induction evs as [|i evs IH]; intros st; simpl.
  - exists []. by rewrite app_nil_r.
  - specialize (Hstep i st).
    destruct (handle i st) as [st1 out1]. simpl in *.
    destruct (IH st1) as [new Hnew]. destruct (run evs st1) as [st2 out2]. simpl in *.
    rewrite Hnew. destruct (event i); try (rewrite Hstep; by eexists).
    destruct Hstep as [-> _]. rewrite <- app_assoc. by eexists.
Qed.

(** ** Sessions and other traffic *)

Lemma handle_keeps_other_sessions `{Platform} u i st :
  touches_session u i = false →
  tempUploads (fst (handle i st)) !! u = tempUploads st !! u.
Proof.
  unfold touches_session, starts_session, for_session, handle. intros Hno.
  destruct (event i) as
    [ | |room|room|room content|to text|oid|other|query|to|to|total|payload|uploadId].
  - done.
  - unfold handleDisconnect. by destruct (when_truthy _).
  - done.
  - done.
  - done.
  - rewrite handlePrivateMessage_fst. by destruct (validate _).
  - rewrite handleMarkMessageAsRead_fst.
    destruct (findById oid _); [| done]. by destruct (String.eqb _ _).
  - by rewrite handleGetPrivateMessages_fst.
  - unfold handleSearchUsers. by destruct (regex_i query).
  - by rewrite handleTyping_fst.
  - by rewrite handleStopTyping_fst.
  - simpl. rewrite lookup_insert_ne; [done|].
    intros Heq. rewrite Heq, String.eqb_refl in Hno. done.
  - assert (p_uploadId payload ≠ u) as Hne.
    { intros Heq. rewrite Heq, String.eqb_refl in Hno. simpl in Hno. done. }
    destruct (handleUploadChunk_outcome (env i) (client i) payload st)
      as [->|(upload & data & _ & _ &
            [[-> _]|[(fileData & _ & _ & ->)|(fileData & _ & _ & ->)]])]; [done | | |].
    + unfold accumulated. simpl. by rewrite lookup_insert_ne.
    + unfold unsaved, accumulated. simpl. by rewrite lookup_insert_ne.
    + unfold completed. simpl. by rewrite lookup_delete_ne.
  - assert (uploadId ≠ u) as Hne.
    { intros Heq. rewrite Heq, String.eqb_refl in Hno. done. }
    simpl. by rewrite lookup_delete_ne.
Qed.

(** X13: an upload session is changed only by a start-upload that is given
    its identifier, by an upload chunk for it and by its cancellation: after
    any sequence of other events, the disconnect of the uploading client
    among them, the session is there exactly as it was. *)
Theorem session_survives_other_events `{Platform} (u : string) (evs : list Inbound)
    (st : State) :
  forallb (λ ev, negb (touches_session u ev)) evs = true →
  tempUploads (fst (run evs st)) !! u = tempUploads st !! u.
Proof.
  revert st. induction evs as [|i evs IH]; intros st Hall; simpl in *; [done|].
  apply Bool.andb_true_iff in Hall as [Hi Hall]. apply Bool.negb_true_iff in Hi.
  pose proof (handle_keeps_other_sessions u i st Hi) as Hstep.
  destruct (handle i st) as [st1 out1]. simpl in *.
  specialize (IH st1 Hall). destruct (run evs st1) as [st2 out2]. simpl in *.
  congruence.
Qed.

Lemma session_survives_other_events_witness :
  tempUploads
    (fst (@run sample_platform
            [at_time 6 alice disconnect; at_time 7 bob connection;
             at_time 8 bob (sendPrivateMessage "alice" "there?")] two_chunk_session))
    !! "5-k3x9"
  = tempUploads two_chunk_session !! "5-k3x9".
Proof.
  apply (@session_survives_other_events sample_platform). reflexivity.
Defined.

(** ** Private messages: what is never rewritten *)

Lemma without_lifecycle_save_update m m' coll :
  findById (_id m') coll = Some m →
  without_lifecycle m' = without_lifecycle m →
  List.map without_lifecycle (save m' coll) = List.map without_lifecycle coll.
Proof.
  unfold findById. induction coll as [|x coll IH]; simpl; [done|].
  destruct (Nat.eqb (_id x) (_id m')); simpl.
  - intros [= ->] Heq. by rewrite Heq.
  - intros Hf Heq. by rewrite IH.
Qed.

Lemma without_lifecycle_updateMany ids t coll :
  List.map without_lifecycle (updateMany ids (set_delivered t) coll)
  = List.map without_lifecycle coll.
Proof.
  unfold updateMany. rewrite List.map_map. apply List.map_ext.
  intros m. by destruct (existsb _ ids).
Qed.

Lemma without_lifecycle_created t m st :
  Forall (λ x, (_id x < nextObjectId st)%nat) (privateMessageModel st) →
  _id m = nextObjectId st →
  List.map without_lifecycle
    (delivered_store t m
       (with_privateMessageModel (save m (privateMessageModel st))
          (with_nextObjectId (S (nextObjectId st)) st)))
  = List.map without_lifecycle (privateMessageModel st) ++ [without_lifecycle m].
Proof.
  intros Hall Hid. unfold delivered_store. simpl.
  assert (save m (privateMessageModel st) = privateMessageModel st ++ [m]) as Hsave.
  { apply save_fresh. rewrite Hid. by apply not_In_ids_fresh. }
  destruct (socket_of _ _).
  - rewrite (without_lifecycle_save_update m); [| | done].
    + by rewrite Hsave, List.map_app.
    + simpl. by rewrite findById_save, Nat.eqb_refl.
  - by rewrite Hsave, List.map_app.
Qed.

Lemma without_lifecycle_handle `{Platform} i st :
  wf st →
  ∃ new, List.map without_lifecycle (privateMessageModel (fst (handle i st)))
         = List.map without_lifecycle (privateMessageModel st) ++ new.
Proof.
  intros (Hreg & Hnd & Hall).
  assert (∀ st', privateMessageModel st' = privateMessageModel st →
            ∃ new, List.map without_lifecycle (privateMessageModel st')
                   = List.map without_lifecycle (privateMessageModel st) ++ new) as Hsame.
  { intros st' ->. exists []. by rewrite app_nil_r. }
  unfold handle. destruct (event i) as
    [ | |room|room|room content|to text|oid|other|query|to|to|total|payload|uploadId].
  - by apply Hsame.
  - apply Hsame. unfold handleDisconnect. by destruct (when_truthy _).
  - by apply Hsame.
  - by apply Hsame.
  - by apply Hsame.
  - rewrite handlePrivateMessage_fst. destruct (validate _); [| by apply Hsame].
    simpl. eexists. by apply without_lifecycle_created.
  - rewrite handleMarkMessageAsRead_fst.
    destruct (findById oid _) as [m|] eqn:Hf; [| by apply Hsame].
    destruct (String.eqb _ _); [| by apply Hsame].
    simpl. exists []. rewrite app_nil_r.
    apply (without_lifecycle_save_update m); [| done].
    simpl. apply findById_Some in Hf as Hf'. destruct Hf' as [_ ->]. done.
  - rewrite handleGetPrivateMessages_fst. simpl. exists []. rewrite app_nil_r.
    apply without_lifecycle_updateMany.
  - apply Hsame. unfold handleSearchUsers. by destruct (regex_i query).
  - apply Hsame. by rewrite handleTyping_fst.
  - apply Hsame. by rewrite handleStopTyping_fst.
  - by apply Hsame.
  - destruct (handleUploadChunk_outcome (env i) (client i) payload st)
      as [->|(upload & data & _ & _ & [[-> _]|[(fileData & _ & _ & ->)|(fileData & _ & _ & ->)]])].
    + by apply Hsame.
    + by apply Hsame.
    + by apply Hsame.
    + unfold completed. simpl. eexists.
      set (st0 := with_uploadDir _ st).
      apply (without_lifecycle_created (now (env i))
               (file_message (env i) (client i) payload (nextObjectId st)) st0); done.
  - by apply Hsame.
Qed.

(** X14: the gateway never deletes, reorders or rewrites a private
    message: after any sequence of events the collection consists of the
    earlier messages, in their order and with every field except the two
    flags and the two times as before, followed by the messages created
    since. *)
Theorem private_messages_keep_their_body `{Platform} (evs : list Inbound) (st : State) :
  wf st →
  ∃ new, List.map without_lifecycle (privateMessageModel (fst (run evs st)))
         = List.map without_lifecycle (privateMessageModel st) ++ new.
Proof.
  revert st. induction evs as [|i evs IH]; intros st Hwf; simpl.
  - exists []. by rewrite app_nil_r.
  - destruct (without_lifecycle_handle i st Hwf) as [new1 H1].
    pose proof (wf_handle i st Hwf) as Hwf'.
    destruct (handle i st) as [st1 out1]. simpl in *.
    destruct (IH st1 Hwf') as [new2 H2].
    destruct (run evs st1) as [st2 out2]. simpl in *.
    exists (new1 ++ new2). by rewrite H2, H1, app_assoc.
Qed.

Lemma private_messages_keep_their_body_witness :
  ∃ new,
    List.map without_lifecycle
      (privateMessageModel
         (fst (@run sample_platform
                 [at_time 3 bob connection; at_time 4 bob (markMessageAsRead 0);
                  at_time 5 bob (getPrivateMessages "alice");
                  at_time 6 bob (sendPrivateMessage "alice" "hello")] one_undelivered)))
    = List.map without_lifecycle (privateMessageModel one_undelivered) ++ new.
Proof.
  apply (@private_messages_keep_their_body sample_platform).
  unfold wf. vm_compute. repeat split; repeat constructor; simpl; tauto.
Defined.

Lemma Forall_updateMany (P : PrivateMessage → Prop) ids upd coll :
  (∀ m, P m → P (upd m)) → Forall P coll → Forall P (updateMany ids upd coll).
Proof.
  intros Hupd. unfold updateMany. induction 1 as [|m coll Hm _ IH]; simpl;
    constructor; [| done].
  destruct (existsb _ ids); auto.
Qed.

Lemma read_is_stamped_handle `{Platform} i st :
  Forall read_is_stamped (privateMessageModel st) →
  Forall read_is_stamped (privateMessageModel (fst (handle i st))).
Proof.
  intros Hall.
  assert (∀ t m st0, Forall read_is_stamped (privateMessageModel st0) →
            read_is_stamped m →
            Forall read_is_stamped (delivered_store t m st0)) as Hdeliver.
  { intros t m st0 Hall0 Hm. unfold delivered_store.
    destruct (socket_of _ _); [| done]. by apply Forall_save. }
  unfold handle. destruct (event i) as
    [ | |room|room|room content|to text|oid|other|query|to|to|total|payload|uploadId].
  - done.
  - unfold handleDisconnect. by destruct (when_truthy _).
  - done.
  - done.
  - done.
  - rewrite handlePrivateMessage_fst. destruct (validate _); [| done].
    simpl. apply Hdeliver; [| done].
    simpl. by apply Forall_save.
  - rewrite handleMarkMessageAsRead_fst.
    destruct (findById oid _) as [m|]; [| done].
    destruct (String.eqb _ _); [| done].
    simpl. by apply Forall_save.
  - rewrite handleGetPrivateMessages_fst. simpl. by apply Forall_updateMany.
  - unfold handleSearchUsers. by destruct (regex_i query).
  - by rewrite handleTyping_fst.
  - by rewrite handleStopTyping_fst.
  - done.
  - destruct (handleUploadChunk_outcome (env i) (client i) payload st)
      as [->|(upload & data & _ & _ & [[-> _]|[(fileData & _ & _ & ->)|(fileData & _ & _ & ->)]])];
      [done | done | done |].
    unfold completed. simpl.
    set (st0 := with_privateMessageModel _ _).
    apply (Hdeliver _ _ st0); [| done]. simpl. by apply Forall_save.
  - done.
Qed.

(** X15: in every state the gateway reaches from its initial state, a
    stored message has its read flag set exactly when it has a read time. *)
Theorem read_flag_has_read_time `{Platform} (users : list Doc) (evs : list Inbound) :
  Forall read_is_stamped (privateMessageModel (fst (run evs (initial users)))).
Proof.
  assert (∀ st, Forall read_is_stamped (privateMessageModel st) →
                Forall read_is_stamped (privateMessageModel (fst (run evs st)))) as Hrun.
  { induction evs as [|i evs IH]; intros st Hall; simpl; [done|].
    pose proof (read_is_stamped_handle i st Hall) as Hstep.
    destruct (handle i st) as [st1 out1]. simpl in *.
    specialize (IH st1 Hstep). by destruct (run evs st1). }
  apply Hrun. constructor.
Qed.

(** ** Presence flags *)

Lemma doc_get_doc_set_same k v d : doc_get k (doc_set k v d) = Some v.
Proof.
  unfold doc_get. induction d as [|[k' v'] d IH]; simpl.
  - by rewrite String.eqb_refl.
  - destruct (String.eqb k' k) eqn:E; simpl; rewrite E; [done | exact IH].
Qed.

Lemma doc_get_doc_set_other k k' v d : k ≠ k' → doc_get k (doc_set k' v d) = doc_get k d.
Proof.
  intros Hne. unfold doc_get. induction d as [|[k0 v0] d IH]; simpl.
  - destruct (String.eqb k' k) eqn:E; [apply String.eqb_eq in E; congruence | done].
  - destruct (String.eqb k0 k') eqn:E'; simpl.
    + apply String.eqb_eq in E'. subst k0.
      destruct (String.eqb k' k) eqn:E; [apply String.eqb_eq in E; congruence | done].
    + destruct (String.eqb k0 k); [done | exact IH].
Qed.

Lemma username_is_set_presence u b t d :
  username_is u (set_presence b t d) = username_is u d.
Proof.
  unfold username_is, set_presence. by rewrite !doc_get_doc_set_other.
Qed.

Lemma find_findOneAndUpdate (p : Doc → bool) upd coll :
  (∀ d, p (upd d) = p d) →
  List.find p (findOneAndUpdate p upd coll) = upd <$> List.find p coll.
Proof.
  intros Hp. induction coll as [|d coll IH]; simpl; [done|].
  destruct (p d) eqn:E; simpl; [by rewrite Hp, E | by rewrite E].
Qed.

Lemma findOneAndUpdate_no_match (p : Doc → bool) upd coll :
  List.find p coll = None → findOneAndUpdate p upd coll = coll.
Proof.
  induction coll as [|d coll IH]; simpl; [done|].
  destruct (p d); [done|]. intros Hnone. by rewrite IH.
Qed.

(** X16: a connection marks the first user document with the connecting
    name online, with the time of the connection as last seen, and a
    disconnect of a registered socket marks the document of its name
    offline in the same way; a name without a document changes no document
    (none is created).  The disconnect looks at nothing but the socket that
    goes: the user is marked offline also when another socket of the same
    name stays registered and remains the target of sends. *)
Theorem presence_follows_last_event (e : Env) (c : Socket) (st : State) :
  (∀ b t d, doc_get "isOnline" (set_presence b t d) = Some (VBool b)
            ∧ doc_get "lastSeen" (set_presence b t d) = Some (VDate t))
  ∧ List.find (username_is (username c)) (userModel (fst (handleConnection e c st)))
    = set_presence true (now e) <$> List.find (username_is (username c)) (userModel st)
  ∧ (List.find (username_is (username c)) (userModel st) = None →
     userModel (fst (handleConnection e c st)) = userModel st)
  ∧ (∀ u, when_truthy (Map_get (id c) (connectedUsers st)) = Some u →
          List.find (username_is u) (userModel (fst (handleDisconnect e c st)))
          = set_presence false (now e) <$> List.find (username_is u) (userModel st)
          ∧ ∀ s, s ≠ id c → In (s, u) (connectedUsers st) →
                 ∃ s', find_key_of_value u (connectedUsers (fst (handleDisconnect e c st)))
                       = Some s').
Proof.
  split; [| split; [| split]].
  - intros b t d. unfold set_presence. split.
    + rewrite doc_get_doc_set_other by done. apply doc_get_doc_set_same.
    + apply doc_get_doc_set_same.
  - simpl. apply find_findOneAndUpdate. intros d. apply username_is_set_presence.
  - intros Hnone. simpl. by apply findOneAndUpdate_no_match.
  - intros u Hu. unfold handleDisconnect. rewrite Hu. simpl. split.
    + apply find_findOneAndUpdate. intros d. apply username_is_set_presence.
    + intros s Hs Hin. unfold find_key_of_value, Map_delete.
      destruct (List.find _ _) as [[s' u']|] eqn:Hf; [by exists s'|].
      exfalso. pose proof (find_none _ _ Hf (s, u)) as Hno. simpl in Hno.
      rewrite String.eqb_refl in Hno. apply Bool.diff_true_false, Hno.
      apply filter_In. split; [done|]. simpl. apply Bool.negb_true_iff.
      by apply String.eqb_neq.
Qed.

Lemma presence_follows_last_event_witness :
  let users := [[("username", VString "bob"); ("password", VString "$2b$10$h");
                 ("isOnline", VBool false)]] in
  let st := fst (@run sample_platform
                   [at_time 1 bob connection; at_time 2 bob_again connection]
                   (initial users)) in
  let st' := fst (handleDisconnect {| now := 3; random_tail := "" |} bob st) in
  (List.find (username_is "bob") (userModel st')
   = set_presence false 3 <$> List.find (username_is "bob") (userModel st))
  ∧ ∃ s', find_key_of_value "bob" (connectedUsers st') = Some s'.
Proof.
  intros users st st'.
  destruct (proj2 (proj2 (proj2 (presence_follows_last_event
                                   {| now := 3; random_tail := "" |} bob st))) "bob" eq_refl)
    as [Hdoc Hsock].
  split; [exact Hdoc|].
  apply (Hsock "s3"); [discriminate|]. right. left. reflexivity.
Defined.

(** ** Stored chunks *)

Lemma array_get_assign_eq (a : JsArray Buffer) (ps : gmap Z Buffer) i v :
  array_get (array_assign a i v) (property_assign ps i v) i = Some v.
Proof.
  unfold array_get, property_assign.
  destruct (decide (array_index i)) as [Hi|Hi].
  - by rewrite lookup_array_assign_eq.
  - apply lookup_insert_eq.
Qed.

Lemma lookup_array_assign_ne (a : JsArray Buffer) i v (j : nat) :
  j ≠ Z.to_nat i →
  array_assign a i v !! j ≫= Datatypes.id = a !! j ≫= Datatypes.id.
Proof.
  intros Hne.
  destruct (array_assign a i v !! j) as [[b|]|] eqn:E1.
  - apply lookup_array_assign_Some in E1 as [(_ & ? & _)|E1]; [done | by rewrite E1].
  - destruct (a !! j) as [[b'|]|] eqn:E2; [| done | done]. exfalso.
    assert (populated (array_assign a i v) j) as [b Hb]
      by (apply populated_array_assign_ne; [done | by exists b']).
    congruence.
  - destruct (a !! j) as [[b'|]|] eqn:E2; [| done | done]. exfalso.
    assert (populated (array_assign a i v) j) as [b Hb]
      by (apply populated_array_assign_ne; [done | by exists b']).
    congruence.
Qed.

Lemma array_get_assign_ne (a : JsArray Buffer) (ps : gmap Z Buffer) i v j :
  j ≠ i →
  array_get (array_assign a i v) (property_assign ps i v) j = array_get a ps j.
Proof.
  intros Hne. unfold array_get, property_assign.
  destruct (decide (array_index j)) as [Hj|Hj].
  - destruct (decide (array_index i)) as [Hi|Hi].
    + apply lookup_array_assign_ne. unfold array_index in *. lia.
    + by rewrite array_assign_property.
  - destruct (decide (array_index i)) as [Hi|Hi]; [done|].
    by rewrite lookup_insert_ne.
Qed.

(** X17: a decodable chunk for a live session, unless it completes the
    session, leaves its buffer at its index of the session's array object
    (as an element when the index is an array index, as a property
    otherwise), in place of any buffer held there before, keeps
    [totalChunks], and leaves every other index holding what it held. *)
Theorem chunk_replaces_its_index `{Platform} (e : Env) (c : Socket)
    (p : UploadChunkPayload) (st : State) (upload : Upload) (data : Buffer) :
  tempUploads st !! p_uploadId p = Some upload →
  decode_chunk (p_chunk p) = inr data →
  let st' := fst (handleUploadChunk e c p st) in
  tempUploads st' !! p_uploadId p = None
  ∨ ∃ upload', tempUploads st' !! p_uploadId p = Some upload'
               ∧ totalChunks upload' = totalChunks upload
               ∧ array_get (chunks upload') (chunk_properties upload') (p_chunkIndex p)
                 = Some data
               ∧ (array_index (p_chunkIndex p) →
                  chunks upload' !! Z.to_nat (p_chunkIndex p) = Some (Some data))
               ∧ (∀ j, j ≠ p_chunkIndex p →
                       array_get (chunks upload') (chunk_properties upload') j
                       = array_get (chunks upload) (chunk_properties upload) j)
               ∧ ∀ j b, j ≠ Z.to_nat (p_chunkIndex p) →
                        (chunks upload' !! j = Some (Some b)
                         ↔ chunks upload !! j = Some (Some b)).
Proof.
  intros Hu Hd st'. subst st'.
  assert (∀ j b, j ≠ Z.to_nat (p_chunkIndex p) →
                 (chunks (stored p data upload) !! j = Some (Some b)
                  ↔ chunks upload !! j = Some (Some b))) as Hothers.
  { intros j b Hj. simpl. split.
    - intros Hl. apply lookup_array_assign_Some in Hl as [(_ & -> & _)|Hl]; done.
    - intros Hl.
      assert (populated (array_assign (chunks upload) (p_chunkIndex p) data) j) as [b' Hb'].
      { apply populated_array_assign_ne; [done | by exists b]. }
      apply lookup_array_assign_Some in Hb' as Hb''.
      destruct Hb'' as [(_ & -> & _)|Hb'']; [done|]. congruence. }
  assert (∃ upload', Some (stored p data upload) = Some upload'
                     ∧ totalChunks upload' = totalChunks upload
                     ∧ array_get (chunks upload') (chunk_properties upload') (p_chunkIndex p)
                       = Some data
                     ∧ (array_index (p_chunkIndex p) →
                        chunks upload' !! Z.to_nat (p_chunkIndex p) = Some (Some data))
                     ∧ (∀ j, j ≠ p_chunkIndex p →
                             array_get (chunks upload') (chunk_properties upload') j
                             = array_get (chunks upload) (chunk_properties upload) j)
                     ∧ ∀ j b, j ≠ Z.to_nat (p_chunkIndex p) →
                              (chunks upload' !! j = Some (Some b)
                               ↔ chunks upload !! j = Some (Some b))) as Hstored.
  { exists (stored p data upload). split; [done|]. split; [done|].
    split; [apply array_get_assign_eq|].
    split; [intros Hi; by apply lookup_array_assign_eq|].
    split; [intros j Hj; by apply array_get_assign_ne | done]. }
  destruct (decide (Z.of_nat (length (filter_Boolean (chunks (stored p data upload))))
                    = totalChunks upload)) as [Hc|Hc];
    [| right; erewrite handleUploadChunk_counting by done;
       unfold accumulated; simpl; by rewrite lookup_insert_eq].
  destruct (Buffer_concat (chunks (stored p data upload))) as [ex|fileData] eqn:Hb;
    [right; erewrite handleUploadChunk_holes by done;
     unfold accumulated; simpl; by rewrite lookup_insert_eq|].
  destruct (fs_writeFile (file_name e p) fileData) eqn:Hw;
    [| right; erewrite handleUploadChunk_unwritten by done;
       unfold accumulated; simpl; by rewrite lookup_insert_eq].
  destruct (truthy (username c) && truthy (p_receiver p)) eqn:Hv.
  - left. erewrite handleUploadChunk_completes by done.
    unfold completed. simpl. apply lookup_delete_eq.
  - right. erewrite handleUploadChunk_unsaved by done.
    unfold unsaved, accumulated. simpl. by rewrite lookup_insert_eq.
Qed.

Lemma chunk_replaces_its_index_witness :
  let st := fst (@run sample_platform [at_time 6 alice (uploadChunk (chunk 1))]
                   two_chunk_session) in
  let st' := fst (@handleUploadChunk sample_platform {| now := 7; random_tail := "" |}
                    alice (chunk 1) st) in
  tempUploads st' !! "5-k3x9" = None
  ∨ ∃ upload', tempUploads st' !! "5-k3x9" = Some upload'
               ∧ totalChunks upload' = 2
               ∧ array_get (chunks upload') (chunk_properties upload') 1
                 = Some (@base64_decode sample_platform "aGk=")
               ∧ (array_index 1 →
                  chunks upload' !! 1%nat = Some (Some (@base64_decode sample_platform "aGk=")))
               ∧ (∀ j, j ≠ 1 →
                       array_get (chunks upload') (chunk_properties upload') j
                       = array_get [None; Some (@base64_decode sample_platform "aGk=")] ∅ j)
               ∧ ∀ j b, j ≠ 1%nat →
                        (chunks upload' !! j = Some (Some b)
                         ↔ [None; Some (@base64_decode sample_platform "aGk=")] !! j
                           = Some (Some b)).
Proof.
  refine (@chunk_replaces_its_index sample_platform {| now := 7; random_tail := "" |}
            alice (chunk 1) _
            {| chunks := [None; Some (@base64_decode sample_platform "aGk=")];
               chunk_properties := ∅;
               totalChunks := 2 |}
            (@base64_decode sample_platform "aGk=") _ _).
  - reflexivity.
  - reflexivity.
Defined.

Lemma handshake_accepts_verified_tokens_witness :
  fst (@afterInit string sample_jwt (Some "signed.by.us")) = Some "alice"
  ∧ @afterInit string sample_jwt (Some "")
    = (None, Some (UnauthorizedException "Invalid token")).
Proof.
  split.
  - apply (proj1 (@handshake_accepts_verified_tokens string sample_jwt
                    (Some "signed.by.us"))).
    exists "signed.by.us". split; [reflexivity|]. split; [discriminate | reflexivity].
  - destruct (proj2 (@handshake_accepts_verified_tokens string sample_jwt (Some "")))
      as [Hrefused|[payload Hpassed]]; [exact Hrefused | discriminate Hpassed].
Defined.

Lemma history_response_is_sorted_conversation_witness :
  ∃ ms,
    last (snd (handleGetPrivateMessages {| now := 9; random_tail := "" |} bob "alice"
                 one_undelivered))
    = Some (client_emit "s2" (privateMessages ms))
    ∧ StronglySorted by_timestamp ms
    ∧ In (new_PrivateMessage 0 2 "alice" "bob" "hi" None None None None) ms.
Proof.
  destruct (history_response_is_sorted_conversation {| now := 9; random_tail := "" |}
              bob "alice" one_undelivered) as (ms & Hlast & Hsorted & _ & Hunread).
  exists ms. split; [exact Hlast|]. split; [exact Hsorted|].
  apply Hunread. left. reflexivity.
Defined.
